(** * near-membrane: the red-realm proxy factory ([src/red.ts])

    A shallow embedding of [redEnvFactory] and of the part of the
    ECMAScript object model it runs on, followed by the properties of the
    membrane that the specification states about it.

    Conventions.
    - "blue" is the host realm, "red" the guest realm (the sandbox).
    - Every object of both realms lives in one heap (a list of cells
      indexed by location); a fresh location is the length of the heap.
    - Code that can throw is written in a state-and-exception monad [M].
    - The recursion of [getRedValue] through nested arrays is bounded by
      the engine's call stack; running out of stack raises a red
      [RangeError], as the engine does. *)

From stdpp Require Import gmap strings list.
From Stdlib Require Import ZArith Lia.

Set Default Proof Using "Type".

(** ** Values, property keys, descriptors *)

(** A heap location. *)
Abbreviation loc := nat (only parsing).

Inductive value : Type :=
| VUndefined
| VNull
| VBool (b : bool)
| VNum (n : Z)
| VStr (s : string)
| VSym (s : string)
| VObj (l : loc).

#[global] Instance value_eq_dec : EqDecision value.
Proof. solve_decision. Defined.

Inductive key : Type :=
| KStr (s : string)
| KSym (s : string).

#[global] Instance key_eq_dec : EqDecision key.
Proof. solve_decision. Defined.

Definition isStringKey (k : key) : bool :=
  match k with KStr _ => true | KSym _ => false end.

(** A property as an ordinary object stores it: fully populated. *)
Inductive prop : Type :=
| PData (v : value) (writable enumerable configurable : bool)
| PAccessor (getter setter : value) (enumerable configurable : bool).

#[global] Instance prop_eq_dec : EqDecision prop.
Proof. solve_decision. Defined.

(** A property descriptor object: any field may be absent. *)
Record descriptor : Type := Descriptor {
  d_value : option value;
  d_writable : option bool;
  d_get : option value;
  d_set : option value;
  d_enumerable : option bool;
  d_configurable : option bool;
}.

#[global] Instance descriptor_eq_dec : EqDecision descriptor.
Proof. solve_decision. Defined.

Definition isSome {A} (o : option A) : bool :=
  match o with Some _ => true | None => false end.

Definition isAccessorDescriptor (d : descriptor) : bool :=
  isSome (d_get d) || isSome (d_set d).

Definition isDataDescriptor (d : descriptor) : bool :=
  isSome (d_value d) || isSome (d_writable d).

(** FromPropertyDescriptor of a stored property. *)
Definition fromProp (p : prop) : descriptor :=
  match p with
  | PData v w e c =>
      Descriptor (Some v) (Some w) None None (Some e) (Some c)
  | PAccessor g s e c =>
      Descriptor None None (Some g) (Some s) (Some e) (Some c)
  end.

Definition propConfigurable (p : prop) : bool :=
  match p with PData _ _ _ c => c | PAccessor _ _ _ c => c end.

Definition propEnumerable (p : prop) : bool :=
  match p with PData _ _ e _ => e | PAccessor _ _ e _ => e end.

Definition optEq {A} `{EqDecision A} (o : option A) (x : A) : bool :=
  match o with Some y => bool_decide (y = x) | None => true end.

(** ValidateAndApplyPropertyDefinition, step 1: a new property. *)
Definition newProp (d : descriptor) : prop :=
  if isAccessorDescriptor d then
    PAccessor (default VUndefined (d_get d)) (default VUndefined (d_set d))
              (default false (d_enumerable d)) (default false (d_configurable d))
  else
    PData (default VUndefined (d_value d)) (default false (d_writable d))
          (default false (d_enumerable d)) (default false (d_configurable d)).

(** Step 3: what a non-configurable current property still allows. *)
Definition compatible (cur : prop) (d : descriptor) : bool :=
  if propConfigurable cur then true
  else
    negb (bool_decide (d_configurable d = Some true))
    && optEq (d_enumerable d) (propEnumerable cur)
    && match cur with
       | PAccessor g s _ _ =>
           negb (isDataDescriptor d) && optEq (d_get d) g && optEq (d_set d) s
       | PData v w _ _ =>
           negb (isAccessorDescriptor d)
           && (w || (negb (bool_decide (d_writable d = Some true))
                     && optEq (d_value d) v))
       end.

(** Step 4: the property after the definition is applied. *)
Definition applyDescriptor (cur : prop) (d : descriptor) : prop :=
  let e := default (propEnumerable cur) (d_enumerable d) in
  let c := default (propConfigurable cur) (d_configurable d) in
  match cur with
  | PData v w _ _ =>
      if isAccessorDescriptor d then
        PAccessor (default VUndefined (d_get d)) (default VUndefined (d_set d)) e c
      else PData (default v (d_value d)) (default w (d_writable d)) e c
  | PAccessor g s _ _ =>
      if isDataDescriptor d then
        PData (default VUndefined (d_value d)) (default false (d_writable d)) e c
      else PAccessor (default g (d_get d)) (default s (d_set d)) e c
  end.

(** ValidateAndApplyPropertyDefinition: [None] is the answer [false],
    [Some p] the answer [true] with [p] the property afterwards. *)
Definition validateAndApply (extensible : bool) (d : descriptor)
    (current : option prop) : option prop :=
  match current with
  | None => if extensible then Some (newProp d) else None
  | Some cur => if compatible cur d then Some (applyDescriptor cur d) else None
  end.

(** ** Property tables: association lists in creation order *)

Fixpoint lookupProp (k : key) (ps : list (key * prop)) : option prop :=
  match ps with
  | [] => None
  | (k', p) :: ps' => if bool_decide (k' = k) then Some p else lookupProp k ps'
  end.

Fixpoint storeProp (k : key) (p : prop) (ps : list (key * prop))
    : list (key * prop) :=
  match ps with
  | [] => [(k, p)]
  | (k', p') :: ps' =>
      if bool_decide (k' = k) then (k, p) :: ps'
      else (k', p') :: storeProp k p ps'
  end.

Fixpoint removeProp (k : key) (ps : list (key * prop)) : list (key * prop) :=
  match ps with
  | [] => []
  | (k', p') :: ps' =>
      if bool_decide (k' = k) then ps' else (k', p') :: removeProp k ps'
  end.

Definition keysOf (ps : list (key * prop)) : list key := map fst ps.

(** ** Objects, heap, membrane state *)

Inductive realm : Type := Blue | Red.

#[global] Instance realm_eq_dec : EqDecision realm.
Proof. solve_decision. Defined.

(** [typeof] is ['function'] for the last two; only a [NormalFunction]
    (a [function () {}]) carries a [prototype] slot of its own. *)
Inductive fnkind : Type := NotCallable | NormalFunction | ArrowFunction.

#[global] Instance fnkind_eq_dec : EqDecision fnkind.
Proof. solve_decision. Defined.

(** The internal methods a host Proxy can trap. *)
Inductive hostop : Type :=
| OpGetPrototypeOf | OpSetPrototypeOf | OpIsExtensible | OpPreventExtensions
| OpGetOwnProperty | OpDefineProperty | OpHas | OpGet | OpSet | OpDelete
| OpOwnKeys.

#[global] Instance hostop_eq_dec : EqDecision hostop.
Proof. solve_decision. Defined.

(** How a trap of a host Proxy departs from forwarding to its target. *)
Inductive trapBehaviour : Type :=
| TrapThrows (e : value)          (* the trap raises [e] *)
| TrapRevokes (after : nat)       (* it forwards; at the call that finds
                                     [after] at 0 it also revokes the proxy,
                                     before that it counts [after] down *)
| TrapRefuses (forwarded : bool). (* it answers [false]; [forwarded] tells
                                     whether it forwarded first *)

#[global] Instance trapBehaviour_eq_dec : EqDecision trapBehaviour.
Proof. solve_decision. Defined.

(** [TargetMeta] of [types.ts]; an absent flag reads as [false]. *)
Record TargetMeta : Type := mkMeta {
  meta_proto : value;
  meta_descriptors : list (key * descriptor);
  meta_isFrozen : bool;
  meta_isSealed : bool;
  meta_isExtensible : bool;
  meta_isBroken : bool;
}.

#[global] Instance TargetMeta_eq_dec : EqDecision TargetMeta.
Proof. solve_decision. Defined.

(** The handler instance behind a red proxy.  [initialized] is the state
    of [this.initialize]: [false] while it is still the prototype's
    method, [true] once it has been replaced by [noop]. *)
Inductive handler : Type :=
| StaticHandler (target : value) (meta : TargetMeta) (initialized : bool)
| DynamicHandler (target : value)
| EmptyHandler.

#[global] Instance handler_eq_dec : EqDecision handler.
Proof. solve_decision. Defined.

Inductive objclass : Type :=
| ClsPlain
| ClsError (r : realm) (name : string) (message : value)
| ClsErrorCtor (r : realm) (name : string)
| ClsHTMLDDA                                  (* document.all *)
| ClsHostProxy (traps : list (hostop * trapBehaviour))
| ClsRevoked                                  (* a revoked Proxy *)
| ClsWrapper (shadowTarget : loc) (h : handler). (* a red proxy *)

#[global] Instance objclass_eq_dec : EqDecision objclass.
Proof. solve_decision. Defined.

(** A heap cell.  A host Proxy is represented by the state of the target
    it forwards to together with its deviating traps. *)
Record obj : Type := mkObj {
  o_fn : fnkind;
  o_elems : option (list value);      (* [Some] for an Array *)
  o_proto : value;
  o_props : list (key * prop);
  o_ext : bool;
  o_class : objclass;
}.

#[global] Instance obj_eq_dec : EqDecision obj.
Proof. solve_decision. Defined.

Definition setProto (v : value) (o : obj) : obj :=
  mkObj (o_fn o) (o_elems o) v (o_props o) (o_ext o) (o_class o).
Definition setProps (ps : list (key * prop)) (o : obj) : obj :=
  mkObj (o_fn o) (o_elems o) (o_proto o) ps (o_ext o) (o_class o).
Definition setExt (b : bool) (o : obj) : obj :=
  mkObj (o_fn o) (o_elems o) (o_proto o) (o_props o) b (o_class o).
Definition setClass (c : objclass) (o : obj) : obj :=
  mkObj (o_fn o) (o_elems o) (o_proto o) (o_props o) (o_ext o) c.

(** The sandbox: the heap and the broker's tables ([blueMap],
    [redMap], [distortionMap] of the [MembraneBroker]).  [regFailure]
    is the condition under which the broker's registration call raises
    (an overflow provoked on the blue side): [Some e] makes it raise [e]. *)
Record state : Type := mkState {
  heap : list obj;
  blueMap : gmap loc value;
  redMap : gmap loc value;
  distortionMap : gmap loc value;
  regFailure : option value;
}.

Definition setHeap (h : list obj) (st : state) : state :=
  mkState h (blueMap st) (redMap st) (distortionMap st) (regFailure st).

Definition setObj (l : loc) (o : obj) (st : state) : state :=
  setHeap (<[l := o]> (heap st)) st.

(** ** The state-and-exception monad *)

Inductive res (A : Type) : Type :=
| Ret (a : A)
| Throw (e : value).
Arguments Ret {A} a.
Arguments Throw {A} e.

Definition M (A : Type) : Type := state -> res A * state.

Definition ret {A} (a : A) : M A := fun st => (Ret a, st).
Definition throw {A} (e : value) : M A := fun st => (Throw e, st).
Definition bind {A B} (m : M A) (k : A -> M B) : M B :=
  fun st =>
    match m st with
    | (Ret a, st') => k a st'
    | (Throw e, st') => (Throw e, st')
    end.
Definition tryCatch {A} (m : M A) (h : value -> M A) : M A :=
  fun st =>
    match m st with
    | (Ret a, st') => (Ret a, st')
    | (Throw e, st') => h e st'
    end.
Definition gets {A} (f : state -> A) : M A := fun st => (Ret (f st), st).
Definition modify (f : state -> state) : M unit := fun st => (Ret tt, f st).

Notation "x <- m ;; k" := (bind m (fun x => k))
  (at level 100, m at next level, right associativity).
Notation "m ;;; k" := (bind m (fun _ => k))
  (at level 100, right associativity).

Fixpoint mapM {A B} (f : A -> M B) (xs : list A) : M (list B) :=
  match xs with
  | [] => ret []
  | x :: xs' => y <- f x ;; ys <- mapM f xs' ;; ret (y :: ys)
  end.

Fixpoint forEach {A} (f : A -> M unit) (xs : list A) : M unit :=
  match xs with
  | [] => ret tt
  | x :: xs' => f x ;;; forEach f xs'
  end.

(** Allocation: a new cell at the end of the heap. *)
Definition alloc (o : obj) : M loc :=
  fun st => (Ret (length (heap st)), setHeap (heap st ++ [o]) st).

Definition plainObject (fn : fnkind) (ps : list (key * prop)) (c : objclass)
    : obj := mkObj fn None VNull ps true c.

(** An error raised by the engine or by the factory's own code: both run
    in the red realm, so the error is a red one. *)
Definition errorObject (r : realm) (name : string) (message : value) : obj :=
  plainObject NotCallable [] (ClsError r name message).

Definition throwRed {A} (name : string) (message : value) : M A :=
  l <- alloc (errorObject Red name message) ;;
  throw (VObj l).

Definition stackOverflow : value := VStr "Maximum call stack size exceeded".

(** ** The engine: [typeof], [Array.isArray] and the internal methods *)

Inductive jstype : Type := TyUndefined | TyObject | TyFunction | TyPrimitive.

#[global] Instance jstype_eq_dec : EqDecision jstype.
Proof. solve_decision. Defined.

Definition typeOfObj (o : obj) : jstype :=
  match o_class o with
  | ClsHTMLDDA => TyUndefined
  | _ => match o_fn o with NotCallable => TyObject | _ => TyFunction end
  end.

Definition typeOf (st : state) (v : value) : jstype :=
  match v with
  | VUndefined => TyUndefined
  | VNull => TyObject
  | VObj l => match heap st !! l with Some o => typeOfObj o | None => TyObject end
  | _ => TyPrimitive
  end.

Definition isFunction (st : state) (v : value) : bool :=
  bool_decide (typeOf st v = TyFunction).

Definition isUndefined (v : value) : bool := bool_decide (v = VUndefined).
Definition isNull (v : value) : bool := bool_decide (v = VNull).
Definition isNullOrUndefined (v : value) : bool := isNull v || isUndefined v.

(** [Array.isArray]: raises on a revoked proxy, hence the name the
    factory gives it. *)
Definition isArrayOrNotOrThrowForRevoked (v : value) : M bool :=
  fun st =>
    match v with
    | VObj l =>
        match heap st !! l with
        | Some o =>
            match o_class o with
            | ClsRevoked => throwRed "TypeError" VUndefined st
            | _ => (Ret (isSome (o_elems o)), st)
            end
        | None => (Ret false, st)
        end
    | _ => (Ret false, st)
    end.

Fixpoint trapLookup (op : hostop) (ts : list (hostop * trapBehaviour))
    : option trapBehaviour :=
  match ts with
  | [] => None
  | (op', b) :: ts' => if bool_decide (op' = op) then Some b else trapLookup op ts'
  end.

Definition trapOf (o : obj) (op : hostop) : option trapBehaviour :=
  match o_class o with
  | ClsHostProxy traps => trapLookup op traps
  | _ => None
  end.

Fixpoint setTrap (op : hostop) (b : trapBehaviour)
    (ts : list (hostop * trapBehaviour)) : list (hostop * trapBehaviour) :=
  match ts with
  | [] => []
  | (op', b') :: ts' =>
      if bool_decide (op' = op) then (op, b) :: ts' else (op', b') :: setTrap op b ts'
  end.

(** The cell of a host proxy after a call of its revoking trap [op]. *)
Definition countDown (op : hostop) (o : obj) : obj :=
  match o_class o with
  | ClsHostProxy traps =>
      match trapLookup op traps with
      | Some (TrapRevokes 0) => setClass ClsRevoked o
      | Some (TrapRevokes (S n)) =>
          setClass (ClsHostProxy (setTrap op (TrapRevokes n) traps)) o
      | _ => o
      end
  | _ => o
  end.

(** One internal method [op] applied to [target].  [run] is what an
    ordinary object does; [refused] is the answer of a refusing trap
    ([None] where the method has no such answer).  A revoked proxy, a
    non-object and a dangling reference raise a red [TypeError]; so does a
    red proxy used as a target, whose trap dispatch this layer leaves out. *)
Definition internalMethod {A} (op : hostop) (target : value)
    (run : obj -> A * obj) (refused : option A) : M A :=
  fun st =>
    match target with
    | VObj l =>
        match heap st !! l with
        | Some o =>
            match o_class o with
            | ClsRevoked | ClsWrapper _ _ => throwRed "TypeError" VUndefined st
            | _ =>
                match trapOf o op, refused with
                | Some (TrapThrows e), _ => (Throw e, st)
                | Some (TrapRevokes _), _ =>
                    (Ret (run o).1, setObj l (countDown op (run o).2) st)
                | Some (TrapRefuses fwd), Some a =>
                    (Ret a, if fwd then setObj l (run o).2 st else st)
                | _, _ => (Ret (run o).1, setObj l (run o).2 st)
                end
            end
        | None => throwRed "TypeError" VUndefined st
        end
    | _ => throwRed "TypeError" VUndefined st
    end.

(** The same for a method that only reads: an untrapped call leaves the
    state as it is. *)
Definition internalRead {A} (op : hostop) (target : value) (run : obj -> A)
    : M A :=
  fun st =>
    match target with
    | VObj l =>
        match heap st !! l with
        | Some o =>
            match o_class o with
            | ClsRevoked | ClsWrapper _ _ => throwRed "TypeError" VUndefined st
            | _ =>
                match trapOf o op with
                | Some (TrapThrows e) => (Throw e, st)
                | Some (TrapRevokes _) => (Ret (run o), setObj l (countDown op o) st)
                | _ => (Ret (run o), st)
                end
            end
        | None => throwRed "TypeError" VUndefined st
        end
    | _ => throwRed "TypeError" VUndefined st
    end.

(** Does the prototype chain that starts at [v] reach [l]?  (The loop of
    OrdinarySetPrototypeOf; it stops at a proxy.) *)
Fixpoint chainReaches (fuel : nat) (h : list obj) (v : value) (l : loc) : bool :=
  match fuel, v with
  | S n, VObj p =>
      if bool_decide (p = l) then true
      else match h !! p with
           | Some o =>
               match o_class o with
               | ClsHostProxy _ | ClsRevoked | ClsWrapper _ _ => false
               | _ => chainReaches n h (o_proto o) l
               end
           | None => false
           end
  | _, _ => false
  end.

Definition isObjectOrNull (v : value) : bool :=
  match v with VObj _ | VNull => true | _ => false end.

Definition ordinaryDefineOwnProperty (k : key) (d : descriptor) (o : obj)
    : bool * obj :=
  match validateAndApply (o_ext o) d (lookupProp k (o_props o)) with
  | Some p => (true, setProps (storeProp k p (o_props o)) o)
  | None => (false, o)
  end.

Definition ordinaryDelete (k : key) (o : obj) : bool * obj :=
  match lookupProp k (o_props o) with
  | None => (true, o)
  | Some p =>
      if propConfigurable p then (true, setProps (removeProp k (o_props o)) o)
      else (false, o)
  end.

(** What one step of a read, of a write or of [in] on an object itself
    comes to: it is settled there, or it goes on with a call, at the
    parent or on the receiver. *)
Inductive getOutcome : Type :=
| GetValue (v : value)                       (* the value is stored here *)
| GetCall (getter thisArg : value)           (* an accessor: call its getter *)
| GetFromParent (parent : value).            (* not own: continue at the parent *)

Inductive setOutcome : Type :=
| SetDone (ok : bool)                        (* settled on the object itself *)
| SetCall (setter thisArg : value)           (* an accessor: call its setter *)
| SetOnReceiver (receiver : value)           (* define the value on the receiver *)
| SetOnParent (parent : value).              (* not own: continue at the parent *)

Inductive hasOutcome : Type :=
| HasDone (b : bool)
| HasInParent (parent : value).

Definition ordinaryGet (k : key) (receiver : value) (o : obj) : getOutcome :=
  match lookupProp k (o_props o) with
  | Some (PData v _ _ _) => GetValue v
  | Some (PAccessor g _ _ _) =>
      if isUndefined g then GetValue VUndefined else GetCall g receiver
  | None =>
      if isNull (o_proto o) then GetValue VUndefined
      else GetFromParent (o_proto o)
  end.

Definition ordinarySet (self : value) (k : key) (v receiver : value) (o : obj)
    : setOutcome * obj :=
  let store (o : obj) :=
    if bool_decide (receiver = self) then
      let r := ordinaryDefineOwnProperty k
                 (match lookupProp k (o_props o) with
                  | Some _ => Descriptor (Some v) None None None None None
                  | None => Descriptor (Some v) (Some true) None None
                                       (Some true) (Some true)
                  end) o in
      (SetDone r.1, r.2)
    else
      match receiver with
      | VObj _ => (SetOnReceiver receiver, o)
      | _ => (SetDone false, o)
      end in
  match lookupProp k (o_props o) with
  | Some (PData _ w _ _) => if w then store o else (SetDone false, o)
  | Some (PAccessor _ s _ _) =>
      if isUndefined s then (SetDone false, o) else (SetCall s receiver, o)
  | None =>
      if isNull (o_proto o) then store o else (SetOnParent (o_proto o), o)
  end.

Definition ordinaryHas (k : key) (o : obj) : hasOutcome :=
  match lookupProp k (o_props o) with
  | Some _ => HasDone true
  | None => if isNull (o_proto o) then HasDone false else HasInParent (o_proto o)
  end.

Module Reflect.

Definition getPrototypeOf (target : value) : M value :=
  internalRead OpGetPrototypeOf target o_proto.

Definition setPrototypeOf (target proto : value) : M bool :=
  if negb (isObjectOrNull proto) then throwRed "TypeError" VUndefined
  else
    h <- gets heap ;;
    internalMethod OpSetPrototypeOf target
      (fun o =>
         if bool_decide (o_proto o = proto) then (true, o)
         else if negb (o_ext o) then (false, o)
         else match target with
              | VObj l =>
                  if chainReaches (length h) h proto l then (false, o)
                  else (true, setProto proto o)
              | _ => (false, o)
              end)
      (Some false).

Definition isExtensible (target : value) : M bool :=
  internalRead OpIsExtensible target o_ext.

Definition preventExtensions (target : value) : M bool :=
  internalMethod OpPreventExtensions target
    (fun o => (true, setExt false o)) (Some false).

Definition getOwnPropertyDescriptor (target : value) (k : key)
    : M (option descriptor) :=
  internalRead OpGetOwnProperty target
    (fun o => fromProp <$> lookupProp k (o_props o)).

Definition defineProperty (target : value) (k : key) (d : descriptor)
    : M bool :=
  if isAccessorDescriptor d && isDataDescriptor d
  then throwRed "TypeError" VUndefined
  else internalMethod OpDefineProperty target
         (ordinaryDefineOwnProperty k d) (Some false).

Definition deleteProperty (target : value) (k : key) : M bool :=
  internalMethod OpDelete target (ordinaryDelete k) (Some false).

Definition ownKeys (target : value) : M (list key) :=
  internalRead OpOwnKeys target (fun o => keysOf (o_props o)).

(** The step of [Reflect.get], [Reflect.set] and [in] that is taken on
    the target itself; [ReflectGet], [ReflectSet] and [HasProperty] of
    the factory's realm complete them further down. *)
Definition get (target : value) (k : key) (receiver : value) : M getOutcome :=
  internalRead OpGet target (ordinaryGet k receiver).

Definition set (target : value) (k : key) (v receiver : value)
    : M setOutcome :=
  internalMethod OpSet target (ordinarySet target k v receiver) None.

Definition has (target : value) (k : key) : M hasOutcome :=
  internalRead OpHas target (ordinaryHas k).

End Reflect.

(** [key in target], followed along the chain of prototypes. *)
Fixpoint hasProperty (fuel : nat) (target : value) (k : key) : M bool :=
  match fuel with
  | 0 => ret false
  | S n =>
      r <- Reflect.has target k ;;
      match r with
      | HasDone b => ret b
      | HasInParent p => hasProperty n p k
      end
  end.

Definition freezeProp (p : prop) : prop :=
  match p with
  | PData v _ e _ => PData v false e false
  | PAccessor g s e _ => PAccessor g s e false
  end.

Definition sealProp (p : prop) : prop :=
  match p with
  | PData v w e _ => PData v w e false
  | PAccessor g s e _ => PAccessor g s e false
  end.

Definition integrityObj (f : prop -> prop) (o : obj) : obj :=
  setExt false (setProps (map (fun kp => (kp.1, f kp.2)) (o_props o)) o).

(** TestIntegrityLevel, after the extensibility test: the first key that
    breaks the level settles the answer. *)
Fixpoint testKeys (frozen : bool) (target : value) (ks : list key) : M bool :=
  match ks with
  | [] => ret true
  | k :: ks' =>
      d <- Reflect.getOwnPropertyDescriptor target k ;;
      match d with
      | Some d =>
          if bool_decide (d_configurable d = Some true) then ret false
          else if frozen && bool_decide (d_writable d = Some true) then ret false
          else testKeys frozen target ks'
      | None => testKeys frozen target ks'
      end
  end.

Fixpoint collectDescriptors (target : value) (ks : list key)
    : M (list (key * descriptor)) :=
  match ks with
  | [] => ret []
  | k :: ks' =>
      d <- Reflect.getOwnPropertyDescriptor target k ;;
      rest <- collectDescriptors target ks' ;;
      ret match d with Some d => (k, d) :: rest | None => rest end
  end.

Module Object.

Definition testIntegrityLevel (frozen : bool) (target : value) : M bool :=
  match target with
  | VObj _ =>
      ext <- Reflect.isExtensible target ;;
      if ext then ret false
      else ks <- Reflect.ownKeys target ;; testKeys frozen target ks
  | _ => ret true
  end.

Definition isFrozen := testIntegrityLevel true.
Definition isSealed := testIntegrityLevel false.

Definition getOwnPropertyDescriptors (target : value)
    : M (list (key * descriptor)) :=
  ks <- Reflect.ownKeys target ;; collectDescriptors target ks.

(** [Object.defineProperty] raises where [Reflect.defineProperty]
    answers [false]. *)
Definition defineProperty (target : value) (k : key) (d : descriptor)
    : M unit :=
  ok <- Reflect.defineProperty target k d ;;
  if ok then ret tt else throwRed "TypeError" VUndefined.

(** SetIntegrityLevel.  The factory applies it to shadow targets only,
    which are ordinary objects. *)
Definition setIntegrityLevel (f : prop -> prop) (target : value) : M unit :=
  ok <- internalMethod OpPreventExtensions target
          (fun o => (true, integrityObj f o)) (Some false) ;;
  if ok then ret tt else throwRed "TypeError" VUndefined.

Definition freeze := setIntegrityLevel freezeProp.
Definition seal := setIntegrityLevel sealProp.

End Object.

Fixpoint hasOwnDescriptor (k : key) (ds : list (key * descriptor)) : bool :=
  match ds with
  | [] => false
  | (k', _) :: ds' => bool_decide (k' = k) || hasOwnDescriptor k ds'
  end.

(** ** The broker *)

Definition WeakMapGet (m : gmap loc value) (k : value) : value :=
  match k with
  | VObj l => default VUndefined (m !! l)
  | _ => VUndefined
  end.

Definition WeakMapHas (m : gmap loc value) (k : value) : bool :=
  match k with
  | VObj l => isSome (m !! l)
  | _ => false
  end.

Definition throwBlue {A} (name : string) (message : value) : M A :=
  l <- alloc (errorObject Blue name message) ;;
  throw (VObj l).

(** Modelled from the spec: [blueEnv.setRefMapEntries], the broker's
    registration call, whose code is not part of [red.ts].  It records the
    pair in the identity map in both directions (host value to guest
    value and back); the spec allows it to fail, and the failure comes
    from the blue realm. *)
Definition setRefMapEntries (red blue : value) : M unit :=
  fun st =>
    match regFailure st with
    | Some e => (Throw e, st)
    | None =>
        match red, blue with
        | VObj r, VObj b =>
            (Ret tt, mkState (heap st) (<[b := red]> (blueMap st))
                             (<[r := blue]> (redMap st))
                             (distortionMap st) (regFailure st))
        | _, _ => throwBlue "TypeError" VUndefined st
        end
    end.

(** Modelled from the spec: [blueEnv.getRedRef], the lookup of the guest
    counterpart of a host value in the identity map ([undefined] when
    there is none). *)
Definition getRedRef (blue : value) : M value :=
  gets (fun st => WeakMapGet (blueMap st) blue).

(** ** The factory *)

Definition LockerLiveValueMarkerSymbol : key := KSym "@@lockerLiveValue".

Definition getDistortedValue (target : value) : M value :=
  has <- gets (fun st => WeakMapHas (distortionMap st) target) ;;
  if negb has then ret target
  else gets (fun st => WeakMapGet (distortionMap st) target).

Definition renameFunction (blueProvider receiver : value) : M unit :=
  tryCatch
    (nameDescriptor <- Reflect.getOwnPropertyDescriptor blueProvider (KStr "name") ;;
     match nameDescriptor with
     | Some d => Reflect.defineProperty receiver (KStr "name") d ;;; ret tt
     | None => throwRed "TypeError" VUndefined
     end)
    (fun _ => ret tt).

Definition emptyMeta : TargetMeta := mkMeta VUndefined [] false false false false.

Definition markBroken (m : TargetMeta) : TargetMeta :=
  mkMeta VNull [] (meta_isFrozen m) (meta_isSealed m) (meta_isExtensible m) true.

(** One statement of the [try] block of [getTargetMeta]: if it raises,
    the [catch] block takes over with the meta built so far. *)
Definition guarded {A} (m : M A) (meta : TargetMeta)
    (k : A -> M TargetMeta) : M TargetMeta :=
  fun st =>
    match m st with
    | (Ret a, st') => k a st'
    | (Throw _, st') => (Ret (markBroken meta), st')
    end.

(** The lifecycle classification: frozen, else sealed, else extensible;
    the first match wins and sets its flag and the weaker ones. *)
Definition classifyLifecycle (target : value) : M (bool * bool * bool) :=
  frozen <- Object.isFrozen target ;;
  if frozen then ret (true, true, true)
  else
    sealed <- Object.isSealed target ;;
    if sealed then ret (false, true, true)
    else
      extensible <- Reflect.isExtensible target ;;
      ret (false, false, extensible).

Definition getTargetMeta (target : value) : M TargetMeta :=
  let meta := emptyMeta in
  guarded (Reflect.getPrototypeOf target) meta (fun p =>
  let meta := mkMeta p [] false false false false in
  guarded (Object.getOwnPropertyDescriptors target) meta (fun ds =>
  let meta := mkMeta p ds false false false false in
  guarded (classifyLifecycle target) meta (fun flags =>
  let meta := mkMeta p ds flags.1.1 flags.1.2 flags.2 false in
  guarded (isArrayOrNotOrThrowForRevoked target) meta (fun _ =>
  ret meta)))).

Definition dataProp (v : value) (w e c : bool) : prop := PData v w e c.

(** [function () {}]: an anonymous function with a [prototype] slot. *)
Definition newNormalFunction : M value :=
  p <- alloc (plainObject NotCallable [] ClsPlain) ;;
  f <- alloc (plainObject NormalFunction
                [(KStr "length", dataProp (VNum 0) false false true);
                 (KStr "name", dataProp (VStr "") false false true);
                 (KStr "prototype", dataProp (VObj p) true false false)]
                ClsPlain) ;;
  ret (VObj f).

(** [() => {}] *)
Definition newArrowFunction : M value :=
  f <- alloc (plainObject ArrowFunction
                [(KStr "length", dataProp (VNum 0) false false true);
                 (KStr "name", dataProp (VStr "") false false true)]
                ClsPlain) ;;
  ret (VObj f).

(** [{}] *)
Definition newObject : M value :=
  o <- alloc (plainObject NotCallable [] ClsPlain) ;; ret (VObj o).

Definition createRedShadowTarget (blue : value) : M value :=
  fn <- gets (fun st => isFunction st blue) ;;
  if fn then
    shadowTarget <-
      tryCatch
        (n <- gets (fun st => length (heap st)) ;;
         hasPrototype <- hasProperty n blue (KStr "prototype") ;;
         if hasPrototype then newNormalFunction else newArrowFunction)
        (fun _ => newArrowFunction) ;;
    renameFunction blue shadowTarget ;;;
    ret shadowTarget
  else newObject.

(** [new Proxy(shadowTarget, handler)]: the proxy is callable exactly as
    its target is. *)
Definition ProxyCreate (shadowTarget : value) (h : handler) : M value :=
  match shadowTarget with
  | VObj s =>
      fn <- gets (fun st => match heap st !! s with
                            | Some o => o_fn o
                            | None => NotCallable
                            end) ;;
      p <- alloc (plainObject fn [] (ClsWrapper s h)) ;;
      ret (VObj p)
  | _ => throwRed "TypeError" VUndefined
  end.

(** The [revoke] function of [Proxy.revocable]. *)
Definition revoke (proxy : value) : M unit :=
  fun st =>
    match proxy with
    | VObj p =>
        match heap st !! p with
        | Some o => (Ret tt, setObj p (setClass ClsRevoked o) st)
        | None => (Ret tt, st)
        end
    | _ => (Ret tt, st)
    end.

Definition getRevokedRedProxy (blue : value) : M value :=
  shadowTarget <- createRedShadowTarget blue ;;
  proxy <- ProxyCreate shadowTarget EmptyHandler ;;
  setRefMapEntries proxy blue ;;;
  revoke proxy ;;;
  ret proxy.

Definition ErrorCreate (message : string) : M value :=
  l <- alloc (errorObject Red "Error" (VStr message)) ;;
  ret (VObj l).

Definition createRedProxy (blue : value) : M value :=
  blue <- getDistortedValue blue ;;
  meta <- getTargetMeta blue ;;
  proxy <-
    (if meta_isBroken meta then getRevokedRedProxy blue
     else
       shadowTarget <- createRedShadowTarget blue ;;
       let proxyHandler :=
         if hasOwnDescriptor LockerLiveValueMarkerSymbol (meta_descriptors meta)
         then DynamicHandler blue
         else StaticHandler blue meta false in
       ProxyCreate shadowTarget proxyHandler) ;;
  tryCatch (setRefMapEntries proxy blue)
           (fun _ => e <- ErrorCreate "Internal Error" ;; throw e) ;;;
  ret proxy.

Definition getRedFunction (blueFn : value) : M value :=
  redFn <- gets (fun st => WeakMapGet (blueMap st) blueFn) ;;
  if isUndefined redFn then createRedProxy blueFn else ret redFn.

(** The elements [Array.prototype.map] visits. *)
Definition arrayElements (blueArray : value) : M (list value) :=
  internalRead OpGet blueArray (fun o => default [] (o_elems o)).

Definition newArray (es : list value) : M value :=
  a <- alloc (mkObj NotCallable (Some es) VNull [] true ClsPlain) ;;
  ret (VObj a).

(** [getRedArray], with the callback's [getRedValue] as a parameter. *)
Definition getRedArrayWith (getRedValue : value -> M value)
    (blueArray : value) : M value :=
  es <- arrayElements blueArray ;;
  b <- mapM getRedValue es ;;
  newArray b ;;;                 (* the array [map] returns *)
  newArray b.                    (* [[...b]]: the one handed out *)

(** [getRedValue] with [depth] frames left on the call stack. *)
Fixpoint getRedValueAt (depth : nat) (blue : value) : M value :=
  match depth with
  | 0 => throwRed "RangeError" stackOverflow
  | S depth' =>
      if isNullOrUndefined blue then ret blue
      else
        ty <- gets (fun st => typeOf st blue) ;;
        match ty with
        | TyUndefined => ret VUndefined
        | TyFunction => getRedFunction blue
        | _ =>
            isBlueArray <-
              tryCatch (b <- isArrayOrNotOrThrowForRevoked blue ;; ret (Some b))
                       (fun _ => ret None) ;;
            match isBlueArray with
            | None => createRedProxy blue
            | Some true => getRedArrayWith (getRedValueAt depth') blue
            | Some false =>
                match ty with
                | TyObject =>
                    red <- gets (fun st => WeakMapGet (blueMap st) blue) ;;
                    if isUndefined red then createRedProxy blue else ret red
                | _ => ret blue
                end
            end
        end
  end.

Section Membrane.

(** The room left on the engine's call stack, counted in levels of
    array nesting, when the factory is entered. *)
Variable stack : nat.

Definition getRedValue (blue : value) : M value :=
  getRedValueAt (S stack) blue.

Definition getRedArray (blueArray : value) : M value :=
  getRedArrayWith (getRedValueAt stack) blueArray.

(** ** Descriptors and the shadow target *)

Definition installDescriptorIntoShadowTarget (shadowTarget : value)
    (k : key) (originalDescriptor : descriptor) : M unit :=
  shadowTargetDescriptor <- Reflect.getOwnPropertyDescriptor shadowTarget k ;;
  match shadowTargetDescriptor with
  | Some d =>
      if bool_decide (d_configurable d = Some true) then
        Reflect.defineProperty shadowTarget k originalDescriptor ;;; ret tt
      else if bool_decide (d_writable d = Some true) then
        (* shadowTarget[key] = originalDescriptor.value, in strict code *)
        r <- Reflect.set shadowTarget k
               (default VUndefined (d_value originalDescriptor)) shadowTarget ;;
        match r with
        | SetDone false => throwRed "TypeError" VUndefined
        | _ => ret tt
        end
      else ret tt
  | None =>
      Reflect.defineProperty shadowTarget k originalDescriptor ;;; ret tt
  end.

Definition setValue (v : value) (d : descriptor) : descriptor :=
  Descriptor (Some v) (d_writable d) (d_get d) (d_set d)
             (d_enumerable d) (d_configurable d).
Definition setSet (v : value) (d : descriptor) : descriptor :=
  Descriptor (d_value d) (d_writable d) (d_get d) (Some v)
             (d_enumerable d) (d_configurable d).
Definition setGet (v : value) (d : descriptor) : descriptor :=
  Descriptor (d_value d) (d_writable d) (Some v) (d_set d)
             (d_enumerable d) (d_configurable d).

Definition getRedDescriptor (blueDescriptor : descriptor) : M descriptor :=
  let redDescriptor := blueDescriptor in
  let blueValue := default VUndefined (d_value redDescriptor) in
  let blueGet := default VUndefined (d_get redDescriptor) in
  let blueSet := default VUndefined (d_set redDescriptor) in
  if isSome (d_writable redDescriptor) then
    fn <- gets (fun st => isFunction st blueValue) ;;
    v <- (if fn then getRedFunction blueValue else getRedValue blueValue) ;;
    ret (setValue v redDescriptor)
  else
    fs <- gets (fun st => isFunction st blueSet) ;;
    redDescriptor <-
      (if fs then s <- getRedFunction blueSet ;; ret (setSet s redDescriptor)
       else ret redDescriptor) ;;
    fg <- gets (fun st => isFunction st blueGet) ;;
    (if fg then g <- getRedFunction blueGet ;; ret (setGet g redDescriptor)
     else ret redDescriptor).

(** [for (const key in blueDescriptors)] visits the string keys only;
    the descriptor map has all its entries as own enumerable ones. *)
Definition copyRedOwnDescriptors (shadowTarget : value)
    (blueDescriptors : list (key * descriptor)) : M unit :=
  forEach
    (fun kd =>
       originalDescriptor <- getRedDescriptor kd.2 ;;
       installDescriptorIntoShadowTarget shadowTarget kd.1 originalDescriptor)
    (filter (fun kd => isStringKey kd.1 = true) blueDescriptors).

Definition copyBlueDescriptorIntoShadowTarget (shadowTarget originalTarget : value)
    (k : key) : M unit :=
  normalizedBlueDescriptor <- Reflect.getOwnPropertyDescriptor originalTarget k ;;
  match normalizedBlueDescriptor with
  | Some d =>
      redDesc <- getRedDescriptor d ;;
      Reflect.defineProperty shadowTarget k redDesc ;;; ret tt
  | None => ret tt
  end.

Definition lockShadowTarget (shadowTarget originalTarget : value) : M unit :=
  targetKeys <- Reflect.ownKeys originalTarget ;;
  forEach (copyBlueDescriptorIntoShadowTarget shadowTarget originalTarget)
          targetKeys ;;;
  Reflect.preventExtensions shadowTarget ;;;
  ret tt.

(** ** The handlers

    A trap is called by the engine with the proxy's target (the shadow
    target) and with the handler as [this]; both are stored in the
    proxy's cell, so a trap is indexed here by the proxy [w]. *)

Definition wrapperParts (w : loc) : M (value * handler) :=
  fun st =>
    match heap st !! w with
    | Some o =>
        match o_class o with
        | ClsWrapper s h => (Ret (VObj s, h), st)
        | _ => throwRed "TypeError" VUndefined st
        end
    | None => throwRed "TypeError" VUndefined st
    end.

Definition setHandler (w : loc) (h : handler) : M unit :=
  fun st =>
    match heap st !! w with
    | Some o =>
        match o_class o with
        | ClsWrapper s _ => (Ret tt, setObj w (setClass (ClsWrapper s h) o) st)
        | _ => (Ret tt, st)
        end
    | None => (Ret tt, st)
    end.

(** The body of [RedStaticProxyHandler.initialize] after the line
    [this.initialize = noop]. *)
Definition initializeBody (shadowTarget : value) (meta : TargetMeta) : M unit :=
  let blueProto := meta_proto meta in
  redProto <- getRedValue blueProto ;;
  Reflect.setPrototypeOf shadowTarget redProto ;;;
  copyRedOwnDescriptors shadowTarget (meta_descriptors meta) ;;;
  (if meta_isFrozen meta then Object.freeze shadowTarget
   else if meta_isSealed meta then Object.seal shadowTarget
   else if negb (meta_isExtensible meta)
        then Reflect.preventExtensions shadowTarget ;;; ret tt
        else ret tt).

(** [this.initialize(shadowTarget)]: the method of the class until its
    first run replaces it by [noop]. *)
Definition initialize (w : loc) : M unit :=
  parts <- wrapperParts w ;;
  match parts with
  | (shadowTarget, StaticHandler target meta false) =>
      setHandler w (StaticHandler target meta true) ;;;
      initializeBody shadowTarget meta
  | _ => ret tt
  end.

Definition shadowOf (w : loc) : M value :=
  parts <- wrapperParts w ;; ret parts.1.

Definition targetOf (w : loc) : M value :=
  parts <- wrapperParts w ;;
  match parts.2 with
  | StaticHandler t _ _ | DynamicHandler t => ret t
  | EmptyHandler => ret VUndefined
  end.

Definition RedStaticProxyHandler_deleteProperty (w : loc) (k : key) : M bool :=
  shadowTarget <- shadowOf w ;;
  initialize w ;;;
  Reflect.deleteProperty shadowTarget k.

Definition RedStaticProxyHandler_ownKeys (w : loc) : M (list key) :=
  shadowTarget <- shadowOf w ;;
  initialize w ;;;
  Reflect.ownKeys shadowTarget.

Definition RedStaticProxyHandler_isExtensible (w : loc) : M bool :=
  shadowTarget <- shadowOf w ;;
  initialize w ;;;
  Reflect.isExtensible shadowTarget.

Definition RedStaticProxyHandler_getOwnPropertyDescriptor (w : loc) (k : key)
    : M (option descriptor) :=
  shadowTarget <- shadowOf w ;;
  initialize w ;;;
  Reflect.getOwnPropertyDescriptor shadowTarget k.

Definition RedStaticProxyHandler_getPrototypeOf (w : loc) : M value :=
  shadowTarget <- shadowOf w ;;
  initialize w ;;;
  Reflect.getPrototypeOf shadowTarget.

Definition RedStaticProxyHandler_setPrototypeOf (w : loc) (prototype : value)
    : M bool :=
  shadowTarget <- shadowOf w ;;
  initialize w ;;;
  Reflect.setPrototypeOf shadowTarget prototype.

Definition RedStaticProxyHandler_preventExtensions (w : loc) : M bool :=
  shadowTarget <- shadowOf w ;;
  initialize w ;;;
  Reflect.preventExtensions shadowTarget.

Definition RedStaticProxyHandler_defineProperty (w : loc) (k : key)
    (redPartialDesc : descriptor) : M bool :=
  shadowTarget <- shadowOf w ;;
  initialize w ;;;
  Object.defineProperty shadowTarget k redPartialDesc ;;;
  ret true.

Definition RedDynamicProxyHandler_deleteProperty (w : loc) (k : key) : M bool :=
  target <- targetOf w ;;
  Reflect.deleteProperty target k.

Definition RedDynamicProxyHandler_ownKeys (w : loc) : M (list key) :=
  target <- targetOf w ;;
  Reflect.ownKeys target.

Definition RedDynamicProxyHandler_isExtensible (w : loc) : M bool :=
  shadowTarget <- shadowOf w ;;
  ext <- Reflect.isExtensible shadowTarget ;;
  if negb ext then ret false
  else
    target <- targetOf w ;;
    text <- Reflect.isExtensible target ;;
    if negb text then lockShadowTarget shadowTarget target ;;; ret false
    else ret true.

Definition RedDynamicProxyHandler_getOwnPropertyDescriptor (w : loc) (k : key)
    : M (option descriptor) :=
  shadowTarget <- shadowOf w ;;
  target <- targetOf w ;;
  blueDesc <- Reflect.getOwnPropertyDescriptor target k ;;
  match blueDesc with
  | None => ret None
  | Some d =>
      (if bool_decide (d_configurable d = Some false)
       then copyBlueDescriptorIntoShadowTarget shadowTarget target k
       else ret tt) ;;;
      r <- getRedDescriptor d ;;
      ret (Some r)
  end.

Definition RedDynamicProxyHandler_getPrototypeOf (w : loc) : M value :=
  target <- targetOf w ;;
  p <- Reflect.getPrototypeOf target ;;
  getRedValue p.

Definition RedDynamicProxyHandler_preventExtensions (w : loc) : M bool :=
  shadowTarget <- shadowOf w ;;
  target <- targetOf w ;;
  ext <- Reflect.isExtensible shadowTarget ;;
  if ext then
    ok <- Reflect.preventExtensions target ;;
    if negb ok then
      text <- Reflect.isExtensible target ;;
      (if negb text then lockShadowTarget shadowTarget target else ret tt) ;;;
      ret false
    else
      lockShadowTarget shadowTarget target ;;;
      ret true
  else ret true.

(** ** The error boundary and the remaining traps

    What is left runs code that is not in [red.ts]: the two marshaling
    hooks, the blue side of the broker, property access on a blue
    value (which may run blue getters and traps) and construction with
    a constructor whose body is not modelled.  They are parameters. *)

Section Boundary.

(** [hooks.apply] and [hooks.construct] *)
Variable blueApplyHook : value -> value -> value -> M value.
Variable blueConstructHook : value -> value -> value -> M value.
(** [blueEnv.getBlueValue] *)
Variable getBlueValue : value -> M value.
(** [Reflect.get], [Reflect.set] and [in] on a blue value *)
Variable blueGet : value -> key -> value -> M value.
Variable blueSet : value -> key -> value -> value -> M bool.
Variable blueHas : value -> key -> M bool.
(** [Reflect.construct] with a constructor that is not a native
    error constructor *)
Variable foreignConstruct : value -> list value -> M value.
(** A call of a function that is not a red proxy: guest code, whose
    body is not modelled *)
Variable callFunction : value -> value -> list value -> M value.

(** [new Error(message)], evaluated in the red realm. *)
Definition newError (message : value) : M value :=
  l <- alloc (errorObject Red "Error" message) ;;
  ret (VObj l).

(** [construct(ctor, args)]: a native error constructor builds an
    error of its own realm and name from the first argument; a value
    that cannot construct raises a [TypeError]. *)
Definition construct (ctor : value) (args : list value) : M value :=
  c <- gets (fun st => match ctor with
                       | VObj l => heap st !! l
                       | _ => None
                       end) ;;
  match c with
  | Some o =>
      match o_class o, o_fn o with
      | ClsErrorCtor r name, _ =>
          l <- alloc (errorObject r name (default VUndefined (head args))) ;;
          ret (VObj l)
      | ClsRevoked, _ => throwRed "TypeError" VUndefined
      | _, NormalFunction => foreignConstruct ctor args
      | _, _ => throwRed "TypeError" VUndefined
      end
  | None => throwRed "TypeError" VUndefined
  end.

(** [const { message, constructor } = e] *)
Definition errorParts (e : value) : M (value * value) :=
  if isNullOrUndefined e then throwRed "TypeError" VUndefined
  else
    message <- blueGet e (KStr "message") e ;;
    constructor <- blueGet e (KStr "constructor") e ;;
    ret (message, constructor).

(** The [catch (e)] block, which the two traps spell out alike. *)
Definition throwRedError {A} (e : value) : M A :=
  parts <- errorParts e ;;
  redError <-
    tryCatch
      (redErrorConstructor <- getRedRef parts.2 ;;
       construct redErrorConstructor [parts.1])
      (fun _ => newError parts.1) ;;
  throw redError.

Definition redProxyApplyTrap (blueTarget redThisArg redArgArray : value)
    : M value :=
  blue <-
    tryCatch
      (blueThisArg <- getBlueValue redThisArg ;;
       blueArgArray <- getBlueValue redArgArray ;;
       blueApplyHook blueTarget blueThisArg blueArgArray)
      throwRedError ;;
  getRedValue blue.

Definition redProxyConstructTrap (BlueCtor redArgArray redNewTarget : value)
    : M value :=
  if isUndefined redNewTarget then throwRed "TypeError" VUndefined
  else
    blue <-
      tryCatch
        (blueNewTarget <- getBlueValue redNewTarget ;;
         blueArgArray <- getBlueValue redArgArray ;;
         blueConstructHook BlueCtor blueArgArray blueNewTarget)
        throwRedError ;;
    getRedValue blue.

Definition RedStaticProxyHandler_apply (w : loc) (redThisArg redArgArray : value)
    : M value :=
  blueTarget <- targetOf w ;;
  initialize w ;;;
  redProxyApplyTrap blueTarget redThisArg redArgArray.

Definition RedStaticProxyHandler_construct (w : loc)
    (redArgArray redNewTarget : value) : M value :=
  BlueCtor <- targetOf w ;;
  initialize w ;;;
  redProxyConstructTrap BlueCtor redArgArray redNewTarget.

Definition RedDynamicProxyHandler_apply (w : loc) (redThisArg redArgArray : value)
    : M value :=
  blueTarget <- targetOf w ;;
  redProxyApplyTrap blueTarget redThisArg redArgArray.

Definition RedDynamicProxyHandler_construct (w : loc)
    (redArgArray redNewTarget : value) : M value :=
  BlueCtor <- targetOf w ;;
  redProxyConstructTrap BlueCtor redArgArray redNewTarget.

Definition RedDynamicProxyHandler_get (w : loc) (k : key) (receiver : value)
    : M value :=
  target <- targetOf w ;;
  blueReceiver <- getBlueValue receiver ;;
  v <- blueGet target k blueReceiver ;;
  getRedValue v.

Definition RedDynamicProxyHandler_set (w : loc) (k : key) (v receiver : value)
    : M bool :=
  target <- targetOf w ;;
  blueValue <- getBlueValue v ;;
  blueReceiver <- getBlueValue receiver ;;
  blueSet target k blueValue blueReceiver.

Definition RedDynamicProxyHandler_has (w : loc) (k : key) : M bool :=
  target <- targetOf w ;;
  blueHas target k.

Definition RedDynamicProxyHandler_setPrototypeOf (w : loc) (prototype : value)
    : M bool :=
  target <- targetOf w ;;
  blueProto <- getBlueValue prototype ;;
  Reflect.setPrototypeOf target blueProto.

Definition convertField (f : option value) : M (option value) :=
  match f with
  | Some v => b <- getBlueValue v ;; ret (Some b)
  | None => ret None
  end.

Definition getBluePartialDescriptor (redPartialDesc : descriptor)
    : M descriptor :=
  v <- convertField (d_value redPartialDesc) ;;
  s <- convertField (d_set redPartialDesc) ;;
  g <- convertField (d_get redPartialDesc) ;;
  ret (Descriptor v (d_writable redPartialDesc) g s
                  (d_enumerable redPartialDesc)
                  (d_configurable redPartialDesc)).

Definition RedDynamicProxyHandler_defineProperty (w : loc) (k : key)
    (redPartialDesc : descriptor) : M bool :=
  shadowTarget <- shadowOf w ;;
  target <- targetOf w ;;
  blueDesc <- getBluePartialDescriptor redPartialDesc ;;
  ok <- Reflect.defineProperty target k blueDesc ;;
  (if ok && bool_decide (d_configurable blueDesc = Some false)
   then copyBlueDescriptorIntoShadowTarget shadowTarget target k
   else ret tt) ;;;
  ret true.

(** *** Reads and writes along the chain of parents

    [ReflectGet], [ReflectSet] and [in] complete a read or a write on a
    red value: they call an accessor, continue at the parent and define
    the value on the receiver.  On their way they can meet a red proxy;
    the engine then calls the trap of its handler and checks the answer
    against the proxy's target, the shadow target (the invariants of a
    Proxy).  The recursion along parents and proxies is bounded by the
    room on the call stack, as that of [getRedValue] is. *)

Definition classOf (v : value) : M (option objclass) :=
  gets (fun st => match v with
                  | VObj l => o_class <$> heap st !! l
                  | _ => None
                  end).

(** [Call(F, thisArg, args)].  A proxy with an [apply] trap hands the
    arguments over as a new array; the shadow function under a handler
    without traps has an empty body. *)
Definition Call (F thisArg : value) (args : list value) : M value :=
  c <- gets (fun st => match F with
                       | VObj l => heap st !! l
                       | _ => None
                       end) ;;
  match c, F with
  | Some o, VObj f =>
      match o_fn o, o_class o with
      | NotCallable, _ => throwRed "TypeError" VUndefined
      | _, ClsRevoked => throwRed "TypeError" VUndefined
      | _, ClsWrapper _ (StaticHandler _ _ _) =>
          argArray <- newArray args ;;
          RedStaticProxyHandler_apply f thisArg argArray
      | _, ClsWrapper _ (DynamicHandler _) =>
          argArray <- newArray args ;;
          RedDynamicProxyHandler_apply f thisArg argArray
      | _, ClsWrapper _ EmptyHandler => ret VUndefined
      | _, _ => callFunction F thisArg args
      end
  | _, _ => throwRed "TypeError" VUndefined
  end.

(** The own property of the target of a proxy, as it is stored. *)
Definition ownProp (target : value) (k : key) : M (option prop) :=
  internalRead OpGetOwnProperty target (fun o => lookupProp k (o_props o)).

(** The checks of the engine on what a trap has answered. *)
Definition checkGet (target : value) (k : key) (trapResult : value) : M value :=
  targetDesc <- ownProp target k ;;
  match targetDesc with
  | Some (PData v false _ false) =>
      if bool_decide (trapResult = v) then ret trapResult
      else throwRed "TypeError" VUndefined
  | Some (PAccessor g _ _ false) =>
      if isUndefined g && negb (isUndefined trapResult)
      then throwRed "TypeError" VUndefined
      else ret trapResult
  | _ => ret trapResult
  end.

Definition checkSet (target : value) (k : key) (v : value) (trapResult : bool)
    : M bool :=
  if negb trapResult then ret false
  else
    targetDesc <- ownProp target k ;;
    match targetDesc with
    | Some (PData tv false _ false) =>
        if bool_decide (v = tv) then ret true
        else throwRed "TypeError" VUndefined
    | Some (PAccessor _ s _ false) =>
        if isUndefined s then throwRed "TypeError" VUndefined else ret true
    | _ => ret true
    end.

Definition checkHas (target : value) (k : key) (trapResult : bool) : M bool :=
  if trapResult then ret true
  else
    targetDesc <- ownProp target k ;;
    match targetDesc with
    | Some p =>
        if negb (propConfigurable p) then throwRed "TypeError" VUndefined
        else
          extensibleTarget <- Reflect.isExtensible target ;;
          if negb extensibleTarget then throwRed "TypeError" VUndefined
          else ret false
    | None => ret false
    end.

(** CompletePropertyDescriptor *)
Definition completeDescriptor (d : descriptor) : descriptor :=
  fromProp (newProp d).

Definition checkGetOwnProperty (target : value) (k : key)
    (trapResult : option descriptor) : M (option descriptor) :=
  targetDesc <- ownProp target k ;;
  match trapResult with
  | None =>
      match targetDesc with
      | None => ret None
      | Some p =>
          if negb (propConfigurable p) then throwRed "TypeError" VUndefined
          else
            extensibleTarget <- Reflect.isExtensible target ;;
            if negb extensibleTarget then throwRed "TypeError" VUndefined
            else ret None
      end
  | Some d =>
      extensibleTarget <- Reflect.isExtensible target ;;
      if isAccessorDescriptor d && isDataDescriptor d
      then throwRed "TypeError" VUndefined
      else
        let resultDesc := completeDescriptor d in
        if negb (isSome (validateAndApply extensibleTarget resultDesc targetDesc))
        then throwRed "TypeError" VUndefined
        else if bool_decide (d_configurable resultDesc = Some false) then
          match targetDesc with
          | None => throwRed "TypeError" VUndefined
          | Some p =>
              if propConfigurable p then throwRed "TypeError" VUndefined
              else if bool_decide (d_writable resultDesc = Some false)
                      && match p with
                         | PData _ w _ _ => w
                         | PAccessor _ _ _ _ => false
                         end
              then throwRed "TypeError" VUndefined
              else ret (Some resultDesc)
          end
        else ret (Some resultDesc)
  end.

Definition checkDefineProperty (target : value) (k : key) (d : descriptor)
    (trapResult : bool) : M bool :=
  if negb trapResult then ret false
  else
    targetDesc <- ownProp target k ;;
    extensibleTarget <- Reflect.isExtensible target ;;
    let settingConfigFalse := bool_decide (d_configurable d = Some false) in
    match targetDesc with
    | None =>
        if negb extensibleTarget || settingConfigFalse
        then throwRed "TypeError" VUndefined
        else ret true
    | Some p =>
        if negb (isSome (validateAndApply extensibleTarget d (Some p)))
        then throwRed "TypeError" VUndefined
        else if settingConfigFalse && propConfigurable p
        then throwRed "TypeError" VUndefined
        else if match p with
                | PData _ true _ false => bool_decide (d_writable d = Some false)
                | _ => false
                end
        then throwRed "TypeError" VUndefined
        else ret true
    end.

(** [O.[[GetOwnProperty]](k)] and [O.[[DefineOwnProperty]](k, d)] *)
Definition GetOwnProperty (O : value) (k : key) : M (option descriptor) :=
  c <- classOf O ;;
  match c, O with
  | Some (ClsWrapper s (StaticHandler _ _ _)), VObj w =>
      trapResult <- RedStaticProxyHandler_getOwnPropertyDescriptor w k ;;
      checkGetOwnProperty (VObj s) k trapResult
  | Some (ClsWrapper s (DynamicHandler _)), VObj w =>
      trapResult <- RedDynamicProxyHandler_getOwnPropertyDescriptor w k ;;
      checkGetOwnProperty (VObj s) k trapResult
  | Some (ClsWrapper s EmptyHandler), _ =>
      Reflect.getOwnPropertyDescriptor (VObj s) k
  | _, _ => Reflect.getOwnPropertyDescriptor O k
  end.

Definition DefineOwnProperty (O : value) (k : key) (d : descriptor) : M bool :=
  c <- classOf O ;;
  match c, O with
  | Some (ClsWrapper s (StaticHandler _ _ _)), VObj w =>
      trapResult <- RedStaticProxyHandler_defineProperty w k d ;;
      checkDefineProperty (VObj s) k d trapResult
  | Some (ClsWrapper s (DynamicHandler _)), VObj w =>
      trapResult <- RedDynamicProxyHandler_defineProperty w k d ;;
      checkDefineProperty (VObj s) k d trapResult
  | Some (ClsWrapper s EmptyHandler), _ => Reflect.defineProperty (VObj s) k d
  | _, _ => Reflect.defineProperty O k d
  end.

(** The end of OrdinarySet: the value is defined on the receiver. *)
Definition setOnReceiver (receiver : value) (k : key) (v : value) : M bool :=
  existingDescriptor <- GetOwnProperty receiver k ;;
  match existingDescriptor with
  | Some d =>
      if isAccessorDescriptor d then ret false
      else if bool_decide (d_writable d = Some false) then ret false
      else DefineOwnProperty receiver k
             (Descriptor (Some v) None None None None None)
  | None =>
      DefineOwnProperty receiver k
        (Descriptor (Some v) (Some true) None None (Some true) (Some true))
  end.

(** The [get], [set] and [has] traps of the static handler, with the
    [ReflectGet], [ReflectSet] and [in] they call as parameters. *)
Definition RedStaticProxyHandler_getWith
    (ReflectGet : value -> key -> value -> M value)
    (w : loc) (k : key) (receiver : value) : M value :=
  shadowTarget <- shadowOf w ;;
  initialize w ;;;
  ReflectGet shadowTarget k receiver.

Definition RedStaticProxyHandler_setWith
    (ReflectSet : value -> key -> value -> value -> M bool)
    (w : loc) (k : key) (v receiver : value) : M bool :=
  shadowTarget <- shadowOf w ;;
  initialize w ;;;
  ReflectSet shadowTarget k v receiver.

Definition RedStaticProxyHandler_hasWith (HasProperty : value -> key -> M bool)
    (w : loc) (k : key) : M bool :=
  shadowTarget <- shadowOf w ;;
  initialize w ;;;
  HasProperty shadowTarget k.

(** [O.[[Get]](k, receiver)] with [depth] frames left on the call stack. *)
Fixpoint GetAt (depth : nat) (O : value) (k : key) (receiver : value)
    : M value :=
  match depth with
  | 0 => throwRed "RangeError" stackOverflow
  | S depth' =>
      c <- classOf O ;;
      match c, O with
      | Some (ClsWrapper s (StaticHandler _ _ _)), VObj w =>
          trapResult <-
            RedStaticProxyHandler_getWith (GetAt depth') w k receiver ;;
          checkGet (VObj s) k trapResult
      | Some (ClsWrapper s (DynamicHandler _)), VObj w =>
          trapResult <- RedDynamicProxyHandler_get w k receiver ;;
          checkGet (VObj s) k trapResult
      | Some (ClsWrapper s EmptyHandler), _ => GetAt depth' (VObj s) k receiver
      | _, _ =>
          r <- Reflect.get O k receiver ;;
          match r with
          | GetValue v => ret v
          | GetCall getter thisArg => Call getter thisArg []
          | GetFromParent parent => GetAt depth' parent k receiver
          end
      end
  end.

(** [O.[[Set]](k, v, receiver)] *)
Fixpoint SetAt (depth : nat) (O : value) (k : key) (v receiver : value)
    : M bool :=
  match depth with
  | 0 => throwRed "RangeError" stackOverflow
  | S depth' =>
      c <- classOf O ;;
      match c, O with
      | Some (ClsWrapper s (StaticHandler _ _ _)), VObj w =>
          trapResult <-
            RedStaticProxyHandler_setWith (SetAt depth') w k v receiver ;;
          checkSet (VObj s) k v trapResult
      | Some (ClsWrapper s (DynamicHandler _)), VObj w =>
          trapResult <- RedDynamicProxyHandler_set w k v receiver ;;
          checkSet (VObj s) k v trapResult
      | Some (ClsWrapper s EmptyHandler), _ =>
          SetAt depth' (VObj s) k v receiver
      | _, _ =>
          r <- Reflect.set O k v receiver ;;
          match r with
          | SetDone ok => ret ok
          | SetCall setter thisArg => Call setter thisArg [v] ;;; ret true
          | SetOnReceiver receiver => setOnReceiver receiver k v
          | SetOnParent parent => SetAt depth' parent k v receiver
          end
      end
  end.

(** [O.[[HasProperty]](k)], that is [k in O] *)
Fixpoint HasPropertyAt (depth : nat) (O : value) (k : key) : M bool :=
  match depth with
  | 0 => throwRed "RangeError" stackOverflow
  | S depth' =>
      c <- classOf O ;;
      match c, O with
      | Some (ClsWrapper s (StaticHandler _ _ _)), VObj w =>
          trapResult <-
            RedStaticProxyHandler_hasWith (HasPropertyAt depth') w k ;;
          checkHas (VObj s) k trapResult
      | Some (ClsWrapper s (DynamicHandler _)), VObj w =>
          trapResult <- RedDynamicProxyHandler_has w k ;;
          checkHas (VObj s) k trapResult
      | Some (ClsWrapper s EmptyHandler), _ => HasPropertyAt depth' (VObj s) k
      | _, _ =>
          r <- Reflect.has O k ;;
          match r with
          | HasDone b => ret b
          | HasInParent parent => HasPropertyAt depth' parent k
          end
      end
  end.

Definition ReflectGet : value -> key -> value -> M value := GetAt (S stack).

Definition ReflectSet : value -> key -> value -> value -> M bool :=
  SetAt (S stack).

Definition HasProperty : value -> key -> M bool := HasPropertyAt (S stack).

Definition RedStaticProxyHandler_get : loc -> key -> value -> M value :=
  RedStaticProxyHandler_getWith ReflectGet.

Definition RedStaticProxyHandler_set : loc -> key -> value -> value -> M bool :=
  RedStaticProxyHandler_setWith ReflectSet.

Definition RedStaticProxyHandler_has : loc -> key -> M bool :=
  RedStaticProxyHandler_hasWith HasProperty.

(** *** An operation of guest code on a red proxy

    The engine finds the handler of the proxy (a revoked proxy has
    none, and the operation raises a [TypeError]) and calls the trap
    of that name. *)

Inductive operation : Type :=
| DoGet (k : key) (receiver : value)
| DoSet (k : key) (v receiver : value)
| DoDelete (k : key)
| DoHas (k : key)
| DoOwnKeys
| DoIsExtensible
| DoGetOwnPropertyDescriptor (k : key)
| DoGetPrototypeOf
| DoSetPrototypeOf (prototype : value)
| DoPreventExtensions
| DoDefineProperty (k : key) (d : descriptor)
| DoApply (thisArg args : value)
| DoConstruct (args newTarget : value).

Inductive answer : Type :=
| AValue (v : value)
| ABool (b : bool)
| AKeys (ks : list key)
| ADescriptor (d : option descriptor).

Definition answering {A} (f : A -> answer) (m : M A) : M answer :=
  a <- m ;; ret (f a).

Definition staticTrap (w : loc) (op : operation) : M answer :=
  match op with
  | DoGet k r => answering AValue (RedStaticProxyHandler_get w k r)
  | DoSet k v r => answering ABool (RedStaticProxyHandler_set w k v r)
  | DoDelete k => answering ABool (RedStaticProxyHandler_deleteProperty w k)
  | DoHas k => answering ABool (RedStaticProxyHandler_has w k)
  | DoOwnKeys => answering AKeys (RedStaticProxyHandler_ownKeys w)
  | DoIsExtensible => answering ABool (RedStaticProxyHandler_isExtensible w)
  | DoGetOwnPropertyDescriptor k =>
      answering ADescriptor (RedStaticProxyHandler_getOwnPropertyDescriptor w k)
  | DoGetPrototypeOf => answering AValue (RedStaticProxyHandler_getPrototypeOf w)
  | DoSetPrototypeOf p =>
      answering ABool (RedStaticProxyHandler_setPrototypeOf w p)
  | DoPreventExtensions =>
      answering ABool (RedStaticProxyHandler_preventExtensions w)
  | DoDefineProperty k d =>
      answering ABool (RedStaticProxyHandler_defineProperty w k d)
  | DoApply t a => answering AValue (RedStaticProxyHandler_apply w t a)
  | DoConstruct a n => answering AValue (RedStaticProxyHandler_construct w a n)
  end.

Definition dynamicTrap (w : loc) (op : operation) : M answer :=
  match op with
  | DoGet k r => answering AValue (RedDynamicProxyHandler_get w k r)
  | DoSet k v r => answering ABool (RedDynamicProxyHandler_set w k v r)
  | DoDelete k => answering ABool (RedDynamicProxyHandler_deleteProperty w k)
  | DoHas k => answering ABool (RedDynamicProxyHandler_has w k)
  | DoOwnKeys => answering AKeys (RedDynamicProxyHandler_ownKeys w)
  | DoIsExtensible => answering ABool (RedDynamicProxyHandler_isExtensible w)
  | DoGetOwnPropertyDescriptor k =>
      answering ADescriptor (RedDynamicProxyHandler_getOwnPropertyDescriptor w k)
  | DoGetPrototypeOf => answering AValue (RedDynamicProxyHandler_getPrototypeOf w)
  | DoSetPrototypeOf p =>
      answering ABool (RedDynamicProxyHandler_setPrototypeOf w p)
  | DoPreventExtensions =>
      answering ABool (RedDynamicProxyHandler_preventExtensions w)
  | DoDefineProperty k d =>
      answering ABool (RedDynamicProxyHandler_defineProperty w k d)
  | DoApply t a => answering AValue (RedDynamicProxyHandler_apply w t a)
  | DoConstruct a n => answering AValue (RedDynamicProxyHandler_construct w a n)
  end.

(** A handler without traps ([{}]) lets every operation through to
    the proxy's target; the shadow function has an empty body. *)
Definition forwarded (shadowTarget : value) (op : operation) : M answer :=
  match op with
  | DoGet k r => answering AValue (ReflectGet shadowTarget k r)
  | DoSet k v r => answering ABool (ReflectSet shadowTarget k v r)
  | DoDelete k => answering ABool (Reflect.deleteProperty shadowTarget k)
  | DoHas k => answering ABool (HasProperty shadowTarget k)
  | DoOwnKeys => answering AKeys (Reflect.ownKeys shadowTarget)
  | DoIsExtensible => answering ABool (Reflect.isExtensible shadowTarget)
  | DoGetOwnPropertyDescriptor k =>
      answering ADescriptor (Reflect.getOwnPropertyDescriptor shadowTarget k)
  | DoGetPrototypeOf => answering AValue (Reflect.getPrototypeOf shadowTarget)
  | DoSetPrototypeOf p =>
      answering ABool (Reflect.setPrototypeOf shadowTarget p)
  | DoPreventExtensions =>
      answering ABool (Reflect.preventExtensions shadowTarget)
  | DoDefineProperty k d =>
      answering ABool (Reflect.defineProperty shadowTarget k d)
  | DoApply _ _ =>
      fn <- gets (fun st => isFunction st shadowTarget) ;;
      if fn then ret (AValue VUndefined) else throwRed "TypeError" VUndefined
  | DoConstruct _ _ =>
      ty <- gets (fun st => match shadowTarget with
                            | VObj s => o_fn <$> heap st !! s
                            | _ => None
                            end) ;;
      match ty with
      | Some NormalFunction => answering AValue newObject
      | _ => throwRed "TypeError" VUndefined
      end
  end.

Definition operate (w : loc) (op : operation) : M answer :=
  parts <- wrapperParts w ;;
  match parts.2 with
  | StaticHandler _ _ _ => staticTrap w op
  | DynamicHandler _ => dynamicTrap w op
  | EmptyHandler => forwarded parts.1 op
  end.

End Boundary.

End Membrane.

(** * The vocabulary of the properties

    The predicates, invariants and example states that the theorems
    below are stated with. *)

(** ** C7: the install policy: definitions *)

(** What [originalDescriptor.value] reads on a captured descriptor. *)
Definition capturedValue (p : prop) : value :=
  match p with PData v _ _ _ => v | PAccessor _ _ _ _ => VUndefined end.

Definition withProp (k : key) (p : prop) (o : obj) : obj :=
  setProps (storeProp k p (o_props o)) o.

(** ** How the state evolves: definitions *)

Definition handlerTarget (h : handler) : value :=
  match h with
  | StaticHandler t _ _ | DynamicHandler t => t
  | EmptyHandler => VUndefined
  end.

Definition classStep (c c' : objclass) : Prop :=
  match c with
  | ClsHostProxy _ => (exists traps', c' = ClsHostProxy traps') \/ c' = ClsRevoked
  | ClsWrapper s (StaticHandler t m b) =>
      exists b', c' = ClsWrapper s (StaticHandler t m b') /\ (b = true -> b' = true)
  | ClsWrapper s EmptyHandler => c' = c \/ c' = ClsRevoked
  | _ => c' = c
  end.

Definition cellStep (o o' : obj) : Prop :=
  o_fn o' = o_fn o /\ o_elems o' = o_elems o
  /\ classStep (o_class o) (o_class o')
  /\ (o_ext o = false -> o_ext o' = false).

(** The proxy at [w] was minted by the factory for the host value [t]. *)
Definition mintedFor (st : state) (w : loc) (t : value) : Prop :=
  exists o, heap st !! w = Some o /\
    (o_class o = ClsRevoked \/
     exists s h, o_class o = ClsWrapper s h /\ handlerTarget h = t).

Record evolves (st st' : state) : Prop := mkEvolves {
  ev_len : length (heap st) <= length (heap st');
  ev_cell : forall l o, heap st !! l = Some o ->
              exists o', heap st' !! l = Some o' /\ cellStep o o';
  ev_dist : distortionMap st' = distortionMap st;
  ev_reg : regFailure st' = regFailure st;
  ev_kept : forall l, is_Some (blueMap st !! l) -> is_Some (blueMap st' !! l);
  ev_blue : forall l v, blueMap st' !! l = Some v ->
              blueMap st !! l = Some v \/
              exists w, v = VObj w /\ length (heap st) <= w /\ mintedFor st' w (VObj l);
}.

(** A computation respects the discipline. *)
Definition respects {A} (m : M A) : Prop := forall st, evolves st (m st).2.

(** A transformation of a cell that leaves kind, elements and class alone. *)
Definition plainUpdate {A} (run : obj -> A * obj) : Prop :=
  forall o, o_fn (run o).2 = o_fn o /\ o_elems (run o).2 = o_elems o
            /\ o_class (run o).2 = o_class o
            /\ (o_ext o = false -> o_ext (run o).2 = false).

(** ** Minting and registering a proxy: definitions *)

Definition distorted (st : state) (target : value) : value :=
  if WeakMapHas (distortionMap st) target
  then WeakMapGet (distortionMap st) target else target.

(** What the branch of [createRedProxy] that mints the proxy guarantees. *)
Definition mints (st : state) (blue : value) (r : res value) (st' : state) : Prop :=
  evolves st st' /\
  forall v, r = Ret v ->
    exists p, v = VObj p /\ length (heap st) <= p /\ mintedFor st' p blue.

Definition handlerFor (blue : value) (meta : TargetMeta) : handler :=
  if hasOwnDescriptor LockerLiveValueMarkerSymbol (meta_descriptors meta)
  then DynamicHandler blue
  else StaticHandler blue meta false.

(** ** C9: the static snapshot is taken at most once: definitions *)

(** The static handler of the proxy [w] has run its initialization. *)
Definition initializedAt (st : state) (w : loc) : Prop :=
  exists o s t meta,
    heap st !! w = Some o /\ o_class o = ClsWrapper s (StaticHandler t meta true).


(** ** C1: identity of the guest counterpart: definitions *)

Definition convertObject (n : nat) (ty : jstype) (blue : value) : M value :=
  isBlueArray <-
    tryCatch (b <- isArrayOrNotOrThrowForRevoked blue ;; ret (Some b))
             (fun _ => ret None) ;;
  match isBlueArray with
  | None => createRedProxy blue
  | Some true => getRedArrayWith (getRedValueAt n) blue
  | Some false =>
      match ty with
      | TyObject =>
          red <- gets (fun st => WeakMapGet (blueMap st) blue) ;;
          if isUndefined red then createRedProxy blue else ret red
      | _ => ret blue
      end
  end.

(** The claim as the specification words it: a repeated conversion
    returns the wrapper the first one returned. *)
Definition identityStable (stack : nat) (st : state) (h : value) : Prop :=
  forall w st1, getRedValue stack h st = (Ret w, st1) ->
    exists st2, getRedValue stack h st1 = (Ret w, st2).

(** ** C4: a target that cannot be introspected: definitions *)

(** The extraction of the metadata fails: at the read of the delegation
    parent, at the read of the attribute map, at the lifecycle
    classification, or at the final probe. *)
Inductive extractionFails (target : value) (st : state) : state -> Prop :=
| FailsReadingParent e st1 :
    Reflect.getPrototypeOf target st = (Throw e, st1) ->
    extractionFails target st st1
| FailsReadingAttributes p st1 e st2 :
    Reflect.getPrototypeOf target st = (Ret p, st1) ->
    Object.getOwnPropertyDescriptors target st1 = (Throw e, st2) ->
    extractionFails target st st2
| FailsClassifying p st1 ds st2 e st3 :
    Reflect.getPrototypeOf target st = (Ret p, st1) ->
    Object.getOwnPropertyDescriptors target st1 = (Ret ds, st2) ->
    classifyLifecycle target st2 = (Throw e, st3) ->
    extractionFails target st st3
| FailsProbing p st1 ds st2 flags st3 e st4 :
    Reflect.getPrototypeOf target st = (Ret p, st1) ->
    Object.getOwnPropertyDescriptors target st1 = (Ret ds, st2) ->
    classifyLifecycle target st2 = (Ret flags, st3) ->
    isArrayOrNotOrThrowForRevoked target st3 = (Throw e, st4) ->
    extractionFails target st st4.

(** The proxy [w] is revoked. *)
Definition revokedAt (st : state) (w : loc) : Prop :=
  exists o, heap st !! w = Some o /\ o_class o = ClsRevoked.

(** Hosts on which each of the four steps is the one that fails. *)
Definition hostProxy (traps : list (hostop * trapBehaviour)) : obj :=
  plainObject NotCallable [(KStr "x", PData (VNum 1) true true true)]
              (ClsHostProxy traps).

Definition sandboxOf (o : obj) : state := mkState [o] ∅ ∅ ∅ None.

(** ** C10: construction without a new target: definitions *)

(** A host constructor [function Widget(a) {}] and its prototype object. *)
Definition widgetSandbox : state :=
  mkState
    [plainObject NotCallable [] ClsPlain;
     plainObject NormalFunction
       [(KStr "length", PData (VNum 1) false false true);
        (KStr "name", PData (VStr "Widget") false false true);
        (KStr "prototype", PData (VObj 0) true false false)] ClsPlain]
    ∅ ∅ ∅ None.

(** The claim as the specification words it: the [TypeError] is raised
    at once, a new error object of the red realm being all that the trap
    adds to the state it was entered in. *)
Definition raisesTypeErrorAtOnce (trap : M value) (st : state) : Prop :=
  trap st
  = (Throw (VObj (length (heap st))),
     setHeap (heap st ++ [errorObject Red "TypeError" VUndefined]) st).

(** A host constructor that holds an array which contains itself:
    [function Widget(a) {}; Widget.registry = r] with [r = [r]]. *)
Definition tangledSandbox : state :=
  mkState
    [plainObject NotCallable [] ClsPlain;
     plainObject NormalFunction
       [(KStr "length", PData (VNum 1) false false true);
        (KStr "name", PData (VStr "Widget") false false true);
        (KStr "prototype", PData (VObj 0) true false false);
        (KStr "registry", PData (VObj 2) true true true)] ClsPlain;
     mkObj NotCallable (Some [VObj 2]) VNull [] true ClsPlain]
    ∅ ∅ ∅ None.

(** ** C3: a static proxy answers from its shadow target: definitions *)

(** A mutation of the host: the cell at [b] is replaced. *)
Definition mutateHost (b : loc) (o' : obj) (st : state) : state := setObj b o' st.

(** The claim as the specification words it: whatever the host cell is
    replaced by, [trap] answers as it does without the replacement. *)
Definition unobservable {A} (trap : M A) (b : loc) (st : state) : Prop :=
  forall o', (trap (mutateHost b o' st)).1 = (trap st).1.

(** The value that an object stores under [k] as a data property. *)
Definition storedValue (k : key) (o : obj) : option value :=
  match lookupProp k (o_props o) with
  | Some (PData v _ _ _) => Some v
  | _ => None
  end.

(** Every cell stores under [k] in [st'] the value it stored in [st]. *)
Definition valueKept (k : key) (st st' : state) : Prop :=
  forall l o, heap st !! l = Some o ->
    exists o', heap st' !! l = Some o' /\ storedValue k o' = storedValue k o.

Definition keepsValue {A} (k : key) (m : M A) : Prop :=
  forall st, valueKept k st (m st).2.

(** The shadow target [s] is an ordinary extensible object without the
    key [k]. *)
Definition freshAt (k : key) (s : loc) (st : state) : Prop :=
  exists os, heap st !! s = Some os /\ o_class os = ClsPlain
    /\ o_ext os = true /\ lookupProp k (o_props os) = None.

(** The scenario of the specification: the host object [{x: 1}] is
    wrapped, a first read initializes the proxy, the host then sets [x]
    to 2; the proxy still reports 1. *)
Definition hostX (n : Z) : obj :=
  plainObject NotCallable [(KStr "x", PData (VNum n) true true true)] ClsPlain.

Definition quietHook : value -> value -> value -> M value := fun _ _ _ => ret VUndefined.

Definition quietGet : value -> key -> value -> M value := fun _ _ _ => ret VUndefined.

Definition quietSet : value -> key -> value -> value -> M bool :=
  fun _ _ _ _ => ret true.

Definition quietHas : value -> key -> M bool := fun _ _ => ret false.

Definition quietConstruct : value -> list value -> M value := fun _ _ => ret VUndefined.

Definition quietCall : value -> value -> list value -> M value :=
  fun _ _ _ => ret VUndefined.

Definition wrappedX : state :=
  (RedStaticProxyHandler_get 0 quietHook ret quietGet quietConstruct quietCall
     2 (KStr "x") (VObj 2)
     (createRedProxy (VObj 0) (sandboxOf (hostX 1))).2).2.

(** A host object [{ get x() { return host.y }, y: n }] (cell 0) and its
    getter (cell 1); [readY] is what a call of the getter gives on the
    host side.  In [meterSandbox] the object has been wrapped (shadow
    target 2, static proxy 3) and a first read has initialized the proxy
    (the getter has got the shadow target 4 and the static proxy 5). *)
Definition meterX (n : Z) : obj :=
  plainObject NotCallable
    [(KStr "x", PAccessor (VObj 1) VUndefined true true);
     (KStr "y", PData (VNum n) true true true)] ClsPlain.

Definition meterGetter : obj :=
  plainObject ArrowFunction
    [(KStr "length", PData (VNum 0) false false true);
     (KStr "name", PData (VStr "get x") false false true)] ClsPlain.

Definition readY : value -> value -> value -> M value :=
  fun _ _ _ =>
    gets (fun st => default VUndefined (heap st !! 0 ≫= storedValue (KStr "y"))).

Definition meterSandbox : state :=
  (RedStaticProxyHandler_get 0 readY ret quietGet quietConstruct quietCall
     3 (KStr "y") (VObj 3)
     (createRedProxy (VObj 0) (mkState [meterX 1; meterGetter] ∅ ∅ ∅ None)).2).2.

(** ** C2: the error boundary: definitions *)


(** The scenario of the specification: a host function raises
    [RangeError('x')]; the caller observes a red [RangeError] with
    message ['x'].  Cells: 0 the blue [RangeError], 1 the red one (its
    registered counterpart), 2 the host function, 3 the error raised. *)
Definition rangeErrorSandbox : state :=
  mkState
    [plainObject NormalFunction [] (ClsErrorCtor Blue "RangeError");
     plainObject NormalFunction [] (ClsErrorCtor Red "RangeError");
     plainObject ArrowFunction [] ClsPlain;
     errorObject Blue "RangeError" (VStr "x")]
    {[ 0 := VObj 1 ]} {[ 1 := VObj 0 ]} ∅ None.



(** A host function that raises [e]. *)
Definition throwingHook (e : value) : value -> value -> value -> M value :=
  fun _ _ _ => throw e.

(** [e.message] and [e.constructor] as the engine reads them. *)
Definition engineGet : value -> key -> value -> M value :=
  ReflectGet 0 quietHook ret quietGet quietConstruct quietCall.

(** [rangeErrorSandbox] with one more host object (cell 4): a host
    [Proxy] whose [get] trap raises the host [RangeError] of cell 3. *)
Definition leakSandbox : state :=
  mkState (heap rangeErrorSandbox ++ [hostProxy [(OpGet, TrapThrows (VObj 3))]])
          (blueMap rangeErrorSandbox) (redMap rangeErrorSandbox) ∅ None.

(** ** Cells the factory does not write: definitions *)

Definition sameBody (o o' : obj) : Prop :=
  o_props o' = o_props o /\ o_ext o' = o_ext o /\ o_proto o' = o_proto o.

(** The cells selected by [P] keep their body. *)
Definition bodiesKept (P : loc -> Prop) (st st' : state) : Prop :=
  forall l o, P l -> heap st !! l = Some o ->
    exists o', heap st' !! l = Some o' /\ sameBody o o'.

Definition quietOn {A} (P : loc -> Prop) (m : M A) : Prop :=
  forall st, bodiesKept P st (m st).2.

Definition anyCell : loc -> Prop := fun _ => True.

Definition below (n : nat) : loc -> Prop := fun l => l < n.

(** ** When a conversion returns: definitions *)

Definition healthy (st : state) : Prop :=
  regFailure st = None /\
  forall l v, distortionMap st !! l = Some v -> exists b, v = VObj b.

(** [v] is allocated, and its arrays are ordinary ones nested less than
    [depth] deep. *)
Fixpoint fits (depth : nat) (h : list obj) (v : value) : bool :=
  match depth with
  | 0 => false
  | S n =>
      match v with
      | VObj l =>
          match h !! l with
          | Some o =>
              match o_elems o with
              | Some es =>
                  bool_decide (o_class o = ClsPlain) && forallb (fits n h) es
              | None => true
              end
          | None => false
          end
      | _ => true
      end
  end.

(** ** The lock-down walk: definitions *)

Definition propFits (stack : nat) (h : list obj) (p : prop) : bool :=
  match p with
  | PData v _ _ _ => fits (S stack) h v
  | PAccessor _ _ _ _ => true
  end.

Definition unmixed (d : descriptor) : Prop :=
  isAccessorDescriptor d && isDataDescriptor d = false.

(** The shadow target [s] and the host [b] during the walk. *)
Record walking (stack : nat) (s b : loc) (ob : obj) (keys : list key)
    (st : state) : Prop := mkWalking {
  wk_healthy : healthy st;
  wk_shadow : exists os, heap st !! s = Some os /\ o_class os = ClsPlain
                /\ o_ext os = true
                /\ forall k, In k (keysOf (o_props os)) <-> In k keys;
  wk_host : exists ob', heap st !! b = Some ob' /\ o_class ob' = ClsPlain
              /\ o_props ob' = o_props ob;
  wk_fits : forall k p, lookupProp k (o_props ob) = Some p ->
              propFits stack (heap st) p = true;
}.

(** ** C8: the extensibility query of a dynamic proxy: definitions *)

(** A live host object [{x: 1}] that has been made non-extensible, and
    the sandbox in which it has been wrapped: the host is cell 0, the
    shadow target cell 1 and the dynamic proxy cell 2. *)
Definition liveX : obj :=
  setExt false
    (plainObject NotCallable
       [(LockerLiveValueMarkerSymbol, PData VUndefined false false false);
        (KStr "x", PData (VNum 1) true true true)] ClsPlain).

Definition liveSandbox : state := (createRedProxy (VObj 0) (sandboxOf liveX)).2.

(** ** C5: preventing extensions through a dynamic proxy: definitions *)

(** The operation as the claim words it: the host-side call is attempted,
    the lock-down walk runs if the host is then non-extensible, and the
    outcome of the host-side call is the answer. *)
Definition preventExtensionsAsClaimed (stack : nat) (w : loc) : M bool :=
  shadowTarget <- shadowOf w ;;
  target <- targetOf w ;;
  ok <- Reflect.preventExtensions target ;;
  text <- Reflect.isExtensible target ;;
  (if negb text then lockShadowTarget stack shadowTarget target else ret tt) ;;;
  ret ok.

(** The claim's last clause on its own: the trap reports success only if
    the host-side call, made in the state the trap was entered in,
    succeeds. *)
Definition reportsHostOutcome (stack : nat) (st : state) (w : loc) (t : value)
    : Prop :=
  forall st', RedDynamicProxyHandler_preventExtensions stack w st = (Ret true, st') ->
    exists st1, Reflect.preventExtensions t st = (Ret true, st1).

(** A live host that is a Proxy over a non-extensible [{x: 1}] whose
    [preventExtensions] trap answers [false] without forwarding, wrapped
    in a sandbox (host 0, shadow target 1, dynamic proxy 2); and the
    sandbox after a first prevent-extensions through the proxy, which the
    host refuses and which locks the shadow target. *)
Definition refusingX : obj :=
  setExt false
    (plainObject NotCallable
       [(LockerLiveValueMarkerSymbol, PData VUndefined false false false);
        (KStr "x", PData (VNum 1) true true true)]
       (ClsHostProxy [(OpPreventExtensions, TrapRefuses false)])).

Definition refusingSandbox : state :=
  (createRedProxy (VObj 0) (sandboxOf refusingX)).2.

Definition lockedSandbox : state :=
  (RedDynamicProxyHandler_preventExtensions 0 2 refusingSandbox).2.

(** A live, extensible host object [{x: 1}] wrapped in a sandbox (host 0,
    shadow target 1, dynamic proxy 2). *)
Definition openX : obj :=
  plainObject NotCallable
    [(LockerLiveValueMarkerSymbol, PData VUndefined false false false);
     (KStr "x", PData (VNum 1) true true true)] ClsPlain.

Definition openSandbox : state := (createRedProxy (VObj 0) (sandboxOf openX)).2.

(** ** The identity map under the factory: definitions *)

Definition brokerFixed {A} (m : M A) : Prop :=
  forall st, blueMap (m st).2 = blueMap st.

(** ** C6: the conversion of arrays: definitions *)

(** The cell of a guest array with elements [gs]. *)
Definition arrayCell (gs : list value) : obj :=
  mkObj NotCallable (Some gs) VNull [] true ClsPlain.






(** The lookup-or-create step of a conversion. *)
Definition lookupOrCreate (blue : value) : M value :=
  red <- gets (fun st => WeakMapGet (blueMap st) blue) ;;
  if isUndefined red then createRedProxy blue else ret red.





(** A sandbox with the host object [{x: 1}] (cell 0), the host array
    [[2]] (cell 1) and the host array [[1, {x: 1}, [2]]] (cell 2). *)
Definition arraySandbox : state :=
  mkState [hostX 1; arrayCell [VNum 2]; arrayCell [VNum 1; VObj 0; VObj 1]]
          ∅ ∅ ∅ None.

(** * The DOM package: the descriptor maps of the window

    [window.ts] of [near-membrane-dom] decides which global descriptors
    are installed in the sandbox and links the unforgeable objects of
    the two windows. *)

Module Window.

(** A [PropertyDescriptorMap] built by the package: an object without a
    prototype, written by assignment; an entry holds a descriptor or
    [undefined]. *)
Definition descriptorMap : Type := list (key * option descriptor).

(** The own entry of [k], if there is one. *)
Fixpoint ownEntry (k : key) (m : descriptorMap) : option (option descriptor) :=
  match m with
  | [] => None
  | (k', v) :: m' => if bool_decide (k' = k) then Some v else ownEntry k m'
  end.

(** [to[key] = v] *)
Fixpoint assignEntry (k : key) (v : option descriptor) (m : descriptorMap)
    : descriptorMap :=
  match m with
  | [] => [(k, v)]
  | (k', v') :: m' =>
      if bool_decide (k' = k) then (k, v) :: m'
      else (k', v') :: assignEntry k v m'
  end.

(** [delete to.key] *)
Fixpoint deleteEntry (k : key) (m : descriptorMap) : descriptorMap :=
  match m with
  | [] => []
  | (k', v') :: m' =>
      if bool_decide (k' = k) then m' else (k', v') :: deleteEntry k m'
  end.

(** [Object.assign(to, source)], [source] being [undefined] or an object
    given by its own enumerable data entries in key order. *)
Definition ObjectAssign (to : descriptorMap) (source : option descriptorMap)
    : descriptorMap :=
  match source with
  | None => to
  | Some s => fold_left (fun to kv => assignEntry kv.1 kv.2 to) s to
  end.

(** The globals that are deleted from the aggregate, in the order of the
    [delete] statements. *)
Definition undeniable : list key :=
  [KStr "location"; KStr "document"; KStr "window"; KStr "top";
   KStr "crypto"; KStr "chrome"].

Section Aggregate.

(** [isIntrinsicGlobalName] of [near-membrane-base] *)
Variable isIntrinsicGlobalName : key -> bool.

(** [blueDescriptors] is read by [blueDescriptors[key]] only, and is
    given by that reading. *)
Definition aggregateWindowDescriptors (redOwnKeys : list key)
    (blueDescriptors : key -> option descriptor)
    (endowmentsDescriptors : option descriptorMap) : descriptorMap :=
  let to :=
    fold_left
      (fun to key =>
         if negb (isIntrinsicGlobalName key)
         then assignEntry key (blueDescriptors key) to
         else to)
      redOwnKeys [] in
  let to := ObjectAssign to endowmentsDescriptors in
  let to := deleteEntry (KStr "location") to in
  let to := deleteEntry (KStr "document") to in
  let to := deleteEntry (KStr "window") to in
  let to := deleteEntry (KStr "top") to in
  let to := deleteEntry (KStr "crypto") to in
  let to := deleteEntry (KStr "chrome") to in
  to.

End Aggregate.

Definition aggregateWindowPropertiesDescriptors (redOwnKeys : list key)
    (blueDescriptors : key -> option descriptor) : descriptorMap :=
  fold_left (fun to key => assignEntry key (blueDescriptors key) to)
            redOwnKeys [].

(** The unforgeable objects of a window. *)
Record BaseReferencesRecord : Type := mkBaseReferences {
  window : value;
  document : value;
  WindowProto : value;
  WindowPropertiesProto : value;
  EventTargetProto : value;
  DocumentProto : value;
}.

(** [env.setRefMapEntries] is the registration call of the broker. *)
Definition linkUnforgeables (blueRefs redRefs : BaseReferencesRecord) : M unit :=
  setRefMapEntries (window redRefs) (window blueRefs) ;;;
  setRefMapEntries (document redRefs) (document blueRefs) ;;;
  setRefMapEntries (EventTargetProto redRefs) (EventTargetProto blueRefs) ;;;
  setRefMapEntries (WindowPropertiesProto redRefs)
                   (WindowPropertiesProto blueRefs) ;;;
  setRefMapEntries (WindowProto redRefs) (WindowProto blueRefs).

(** The host references that [linkUnforgeables] registers, with their
    guest counterparts. *)
Definition linked (blueRefs redRefs : BaseReferencesRecord)
    : list (value * value) :=
  [(window blueRefs, window redRefs);
   (document blueRefs, document redRefs);
   (EventTargetProto blueRefs, EventTargetProto redRefs);
   (WindowPropertiesProto blueRefs, WindowPropertiesProto redRefs);
   (WindowProto blueRefs, WindowProto redRefs)].

End Window.

(** * Further vocabulary *)

(** The descriptor map [Object.getOwnPropertyDescriptors] gives for an
    ordinary object. *)
Definition descriptorsOf (o : obj) : list (key * descriptor) :=
  map (fun kp => (kp.1, fromProp kp.2)) (o_props o).

(** An ordinary object is sealed, is frozen. *)
Definition sealedObj (o : obj) : bool :=
  negb (o_ext o) && forallb (fun kp => negb (propConfigurable kp.2)) (o_props o).

Definition propWritable (p : prop) : bool :=
  match p with PData _ w _ _ => w | PAccessor _ _ _ _ => false end.

Definition frozenObj (o : obj) : bool :=
  sealedObj o && forallb (fun kp => negb (propWritable kp.2)) (o_props o).

(** Every cell has the key [k] in [st'] exactly if it had it in [st]. *)
Definition keyKept (k : key) (st st' : state) : Prop :=
  forall l o, heap st !! l = Some o ->
    exists o', heap st' !! l = Some o'
      /\ isSome (lookupProp k (o_props o')) = isSome (lookupProp k (o_props o)).

Definition keepsKey {A} (k : key) (m : M A) : Prop :=
  forall st, keyKept k st (m st).2.

(** The cell [a] is an ordinary array with the elements [es]. *)
Definition arrayAt (a : loc) (es : list value) (st : state) : Prop :=
  exists oa, heap st !! a = Some oa /\ o_class oa = ClsPlain
    /\ o_fn oa = NotCallable /\ o_elems oa = Some es.

(** Every cell is extensible in [st'] exactly if it was in [st]. *)
Definition extKept (st st' : state) : Prop :=
  forall l o, heap st !! l = Some o ->
    exists o', heap st' !! l = Some o' /\ o_ext o' = o_ext o.

Definition keepsExt {A} (m : M A) : Prop :=
  forall st, extKept st (m st).2.

(** ** Example states *)

(** Ten plain objects: the unforgeable objects of a blue window (cells
    0 to 4), two more, and those of a red window (cells 6 to 10 with the
    document prototype at 11 left out). *)
Definition twoWindows : state :=
  mkState (replicate 11 (plainObject NotCallable [] ClsPlain)) ∅ ∅ ∅ None.

Definition blueWindow : Window.BaseReferencesRecord :=
  Window.mkBaseReferences (VObj 0) (VObj 1) (VObj 2) (VObj 3) (VObj 4) (VObj 5).

Definition redWindow : Window.BaseReferencesRecord :=
  Window.mkBaseReferences (VObj 6) (VObj 7) (VObj 8) (VObj 9) (VObj 10) VNull.

(** A host object with a symbol-keyed property, wrapped by a static
    proxy (host 0, shadow target 1, proxy 2). *)
Definition taggedX : obj :=
  plainObject NotCallable
    [(KSym "tag", PData (VNum 7) true true true);
     (KStr "x", PData (VNum 1) true true true)] ClsPlain.

Definition taggedSandbox : state :=
  (createRedProxy (VObj 0) (sandboxOf taggedX)).2.

(** A frozen host object [{x: 1}], wrapped by a static proxy. *)
Definition frozenX : obj :=
  setExt false
    (plainObject NotCallable [(KStr "x", PData (VNum 1) false true false)] ClsPlain).

Definition frozenSandbox : state :=
  (createRedProxy (VObj 0) (sandboxOf frozenX)).2.

(** A live host object whose [x] is not configurable, wrapped by a
    dynamic proxy. *)
Definition pinnedX : obj :=
  plainObject NotCallable
    [(LockerLiveValueMarkerSymbol, PData VUndefined false false false);
     (KStr "x", PData (VNum 1) true true false)] ClsPlain.

Definition pinnedSandbox : state :=
  (createRedProxy (VObj 0) (sandboxOf pinnedX)).2.

(** A sandbox whose broker refuses every registration. *)
Definition refusingBroker : state :=
  mkState [hostX 1] ∅ ∅ ∅ (Some (VStr "refused")).

(** An array that contains itself. *)
Definition selfArray : state :=
  mkState [mkObj NotCallable (Some [VNum 1; VObj 0]) VNull [] true ClsPlain]
          ∅ ∅ ∅ None.

(** * Properties *)

(** ** Property tables *)

Lemma lookupProp_storeProp_eq k p ps :
  lookupProp k (storeProp k p ps) = Some p.
Proof.
  induction ps as [|[k' p'] ps IH]; simpl.
  - by rewrite bool_decide_eq_true_2.
  - destruct (bool_decide (k' = k)) eqn:E; simpl.
    + by rewrite bool_decide_eq_true_2.
    + by rewrite E.
Qed.

Lemma lookupProp_storeProp_ne k k' p ps :
  k <> k' -> lookupProp k' (storeProp k p ps) = lookupProp k' ps.
Proof.
  intros Hne. induction ps as [|[k0 p0] ps IH]; simpl.
  - by rewrite bool_decide_eq_false_2.
  - destruct (bool_decide (k0 = k)) eqn:E; simpl.
    + apply bool_decide_eq_true_1 in E. subst k0.
      by rewrite !bool_decide_eq_false_2.
    + by rewrite IH.
Qed.

Lemma lookupProp_Some_In k p ps : lookupProp k ps = Some p -> In k (keysOf ps).
Proof.
  induction ps as [|[k' p'] ps IH]; simpl; [done|].
  destruct (bool_decide (k' = k)) eqn:E.
  - apply bool_decide_eq_true_1 in E. auto.
  - auto.
Qed.

Lemma lookupProp_None_notin k ps : lookupProp k ps = None <-> ~ In k (keysOf ps).
Proof.
  induction ps as [|[k' p'] ps IH]; simpl; [tauto|].
  destruct (bool_decide (k' = k)) eqn:E.
  - apply bool_decide_eq_true_1 in E. split; [done|]. intros H. destruct H. auto.
  - apply bool_decide_eq_false_1 in E. rewrite IH. tauto.
Qed.

Lemma keysOf_storeProp k p ps k' :
  In k' (keysOf (storeProp k p ps)) <-> k' = k \/ In k' (keysOf ps).
Proof.
  induction ps as [|[k0 p0] ps IH]; simpl.
  - intuition.
  - destruct (bool_decide (k0 = k)) eqn:E; simpl.
    + apply bool_decide_eq_true_1 in E. subst. intuition.
    + rewrite IH. intuition.
Qed.

Lemma keysOf_storeProp_present k p ps :
  In k (keysOf ps) -> keysOf (storeProp k p ps) = keysOf ps.
Proof.
  induction ps as [|[k0 p0] ps IH]; simpl; [done|].
  intros Hin. destruct (bool_decide (k0 = k)) eqn:E; simpl.
  - apply bool_decide_eq_true_1 in E. by subst.
  - apply bool_decide_eq_false_1 in E. f_equal. apply IH. destruct Hin; done.
Qed.

Lemma keysOf_storeProp_absent k p ps :
  ~ In k (keysOf ps) -> keysOf (storeProp k p ps) = keysOf ps ++ [k].
Proof.
  induction ps as [|[k0 p0] ps IH]; simpl; [done|].
  intros Hin. destruct (bool_decide (k0 = k)) eqn:E; simpl.
  - apply bool_decide_eq_true_1 in E. tauto.
  - f_equal. apply IH. tauto.
Qed.

(** ** C7: the install policy *)

(** C7.  [installDescriptorIntoShadowTarget], given the descriptor captured
    from a stored property [p] and an ordinary shadow target [o]: an existing
    configurable property is replaced by [p] as a whole; an existing
    non-configurable but writable data property keeps its attributes and
    takes only the captured value; any other existing property is left
    untouched, and so is the whole state; a key with no property yet gets
    [p] itself (the shadow target being extensible, as it is until the
    initialization has locked it). *)
Theorem install_policy (st : state) (sh : loc) (o : obj) (k : key) (p : prop) :
  heap st !! sh = Some o ->
  o_class o = ClsPlain ->
  let result := installDescriptorIntoShadowTarget (VObj sh) k (fromProp p) st in
  match lookupProp k (o_props o) with
  | Some cur =>
      if propConfigurable cur then
        result = (Ret tt, setObj sh (withProp k p o) st)
        /\ lookupProp k (o_props (withProp k p o)) = Some p
      else
        match cur with
        | PData v true e c =>
            result = (Ret tt, setObj sh (withProp k (PData (capturedValue p) true e c) o) st)
        | _ => result = (Ret tt, st)
        end
  | None =>
      o_ext o = true ->
      result = (Ret tt, setObj sh (withProp k p o) st)
      /\ lookupProp k (o_props (withProp k p o)) = Some p
  end.
Proof.
  intros Hsh Hcls result. subst result.
  unfold installDescriptorIntoShadowTarget, bind, Reflect.getOwnPropertyDescriptor,
    internalRead, trapOf.
  rewrite Hsh, Hcls. simpl.
  destruct (lookupProp k (o_props o)) as [cur|] eqn:Hcur; simpl.
  - destruct cur as [v w e c | g s e c]; simpl.
    + destruct c; simpl.
      * split; [|apply lookupProp_storeProp_eq].
        unfold Reflect.defineProperty, bind, internalMethod, trapOf.
        destruct p; simpl; rewrite Hsh, Hcls; simpl;
          unfold ordinaryDefineOwnProperty; rewrite Hcur; simpl; done.
      * destruct w; simpl; [|done].
        unfold Reflect.set, internalMethod, trapOf, bind.
        rewrite Hsh, Hcls. simpl.
        unfold ordinarySet. rewrite Hcur. simpl.
        rewrite bool_decide_eq_true_2 by done.
        unfold ordinaryDefineOwnProperty. rewrite Hcur. simpl.
        destruct p; simpl; done.
    + destruct c; simpl; [|done].
      split; [|apply lookupProp_storeProp_eq].
      unfold Reflect.defineProperty, bind, internalMethod, trapOf.
      destruct p; simpl; rewrite Hsh, Hcls; simpl;
        unfold ordinaryDefineOwnProperty; rewrite Hcur; simpl; done.
  - intros Hext. split; [|apply lookupProp_storeProp_eq].
    unfold Reflect.defineProperty, bind, internalMethod, trapOf.
    destruct p; simpl; rewrite Hsh, Hcls; simpl;
      unfold ordinaryDefineOwnProperty; rewrite Hcur, Hext; simpl; done.
Qed.

Lemma install_policy_witness :
  let st := mkState [plainObject NormalFunction
                       [(KStr "prototype", PData (VNum 0) true false false)]
                       ClsPlain] ∅ ∅ ∅ None in
  installDescriptorIntoShadowTarget (VObj 0) (KStr "prototype")
    (fromProp (PData (VNum 7) false true true)) st
  = (Ret tt,
     setObj 0 (plainObject NormalFunction
                 [(KStr "prototype", PData (VNum 7) true false false)] ClsPlain) st).
Proof.
  exact (install_policy
           (mkState [plainObject NormalFunction
                       [(KStr "prototype", PData (VNum 0) true false false)]
                       ClsPlain] ∅ ∅ ∅ None)
           0 _ (KStr "prototype") (PData (VNum 7) false true true)
           eq_refl eq_refl).
Defined.

(** ** How the state evolves

    Every operation of the factory and of the engine layer moves the
    state forward in a disciplined way: the heap only grows; a cell keeps
    its callable kind and its array elements; its class changes only by a
    host proxy or a handler-less proxy being revoked or by a static
    handler becoming initialized; the distortion table and the
    registration condition stay; an entry of [blueMap] is never removed,
    and a new one always names a proxy minted for that host value. *)

Lemma classStep_refl c : classStep c c.
Proof. destruct c as [| | | | | |s h]; simpl; eauto. destruct h; eauto. Qed.

Lemma classStep_trans c1 c2 c3 : classStep c1 c2 -> classStep c2 c3 -> classStep c1 c3.
Proof.
  destruct c1 as [| | | | | |s h]; simpl; try (intros ->; done).
  - intros [[traps' ->]| ->]; simpl; auto.
  - destruct h as [t m b| |]; simpl.
    + intros (b' & -> & Hb); simpl. intros (b'' & -> & Hb'). eauto.
    + intros ->; done.
    + intros [->| ->]; simpl; auto.
Qed.

Lemma cellStep_refl o : cellStep o o.
Proof. repeat split; [apply classStep_refl|done]. Qed.

Lemma cellStep_trans o1 o2 o3 : cellStep o1 o2 -> cellStep o2 o3 -> cellStep o1 o3.
Proof.
  intros (?&?&?&?) (?&?&?&?). repeat split; try congruence; [|auto].
  eapply classStep_trans; eauto.
Qed.

Lemma mintedFor_step st st' w t :
  (forall l o, heap st !! l = Some o -> exists o', heap st' !! l = Some o' /\ cellStep o o') ->
  mintedFor st w t -> mintedFor st' w t.
Proof.
  intros Hcell (o & Ho & Hc).
  destruct (Hcell _ _ Ho) as (o' & Ho' & _ & _ & Hcls & _).
  exists o'. split; [done|].
  destruct Hc as [Hc|(s & h & Hc & Ht)]; rewrite Hc in Hcls; simpl in Hcls.
  - left. done.
  - destruct h as [t0 m b| |]; simpl in *.
    + destruct Hcls as (b' & -> & _). right. eauto.
    + right. rewrite Hcls. eauto.
    + destruct Hcls as [->| ->]; [right; eauto|left; done].
Qed.

Lemma evolves_refl st : evolves st st.
Proof.
  split; auto.
  intros l o Ho. exists o. split; [done|apply cellStep_refl].
Qed.

Lemma evolves_trans st1 st2 st3 : evolves st1 st2 -> evolves st2 st3 -> evolves st1 st3.
Proof.
  intros [L1 C1 D1 R1 K1 B1] [L2 C2 D2 R2 K2 B2]. split.
  - lia.
  - intros l o Ho. destruct (C1 _ _ Ho) as (o' & Ho' & S1).
    destruct (C2 _ _ Ho') as (o'' & Ho'' & S2).
    exists o''. split; [done|]. eapply cellStep_trans; eauto.
  - congruence.
  - congruence.
  - auto.
  - intros l v Hv. destruct (B2 _ _ Hv) as [Hv'|(w & -> & Hw & Hm)].
    + destruct (B1 _ _ Hv') as [?|(w & -> & Hw & Hm)]; [auto|].
      right. exists w. repeat split; [done|]. eapply mintedFor_step; eauto.
    + right. exists w. repeat split; [lia|done].
Qed.

Lemma respects_ret {A} (a : A) : respects (ret a).
Proof. intros st. apply evolves_refl. Qed.

Lemma respects_throw {A} (e : value) : respects (@throw A e).
Proof. intros st. apply evolves_refl. Qed.

Lemma respects_gets {A} (f : state -> A) : respects (gets f).
Proof. intros st. apply evolves_refl. Qed.

Lemma respects_bind {A B} (m : M A) (k : A -> M B) :
  respects m -> (forall a, respects (k a)) -> respects (bind m k).
Proof.
  intros Hm Hk st. unfold bind. specialize (Hm st).
  destruct (m st) as [[a|e] st1]; simpl in *; [|done].
  eapply evolves_trans; [exact Hm|apply Hk].
Qed.

Lemma respects_tryCatch {A} (m : M A) (h : value -> M A) :
  respects m -> (forall e, respects (h e)) -> respects (tryCatch m h).
Proof.
  intros Hm Hh st. unfold tryCatch. specialize (Hm st).
  destruct (m st) as [[a|e] st1]; simpl in *; [done|].
  eapply evolves_trans; [exact Hm|apply Hh].
Qed.

Lemma respects_mapM {A B} (f : A -> M B) (xs : list A) :
  (forall x, respects (f x)) -> respects (mapM f xs).
Proof.
  intros Hf. induction xs as [|x xs IH]; simpl.
  - apply respects_ret.
  - apply respects_bind; [apply Hf|]. intros y.
    apply respects_bind; [apply IH|]. intros ys. apply respects_ret.
Qed.

Lemma respects_forEach {A} (f : A -> M unit) (xs : list A) :
  (forall x, respects (f x)) -> respects (forEach f xs).
Proof.
  intros Hf. induction xs as [|x xs IH]; simpl.
  - apply respects_ret.
  - apply respects_bind; [apply Hf|]. intros _. apply IH.
Qed.

Lemma evolves_alloc st o : evolves st (setHeap (heap st ++ [o]) st).
Proof.
  split; simpl; auto.
  - rewrite length_app. lia.
  - intros l o' Ho'. exists o'. split; [|apply cellStep_refl].
    rewrite lookup_app_l; [done|]. by eapply lookup_lt_Some.
Qed.

Lemma respects_alloc o : respects (alloc o).
Proof. intros st. apply evolves_alloc. Qed.

Lemma respects_throwRed {A} name msg : respects (@throwRed A name msg).
Proof.
  unfold throwRed. apply respects_bind; [apply respects_alloc|].
  intros l. apply respects_throw.
Qed.

Lemma respects_throwBlue {A} name msg : respects (@throwBlue A name msg).
Proof.
  unfold throwBlue. apply respects_bind; [apply respects_alloc|].
  intros l. apply respects_throw.
Qed.

(** Replacing a cell by one that is a step of it. *)
Lemma evolves_setObj st l o o' :
  heap st !! l = Some o -> cellStep o o' -> evolves st (setObj l o' st).
Proof.
  intros Ho Hstep. split; simpl; auto.
  - by rewrite length_insert.
  - intros l' o0 Ho0. destruct (decide (l = l')) as [->|Hne].
    + exists o'. rewrite list_lookup_insert_eq by (by eapply lookup_lt_Some).
      split; [done|]. by replace o0 with o by congruence.
    + exists o0. rewrite list_lookup_insert_ne by done.
      split; [done|apply cellStep_refl].
Qed.

Lemma cellStep_countDown op o : cellStep o (countDown op o).
Proof.
  unfold countDown. destruct (o_class o) eqn:Hc; try apply cellStep_refl.
  destruct (trapLookup op traps) as [[e|[|n]|f]|]; try apply cellStep_refl;
    (repeat split; [rewrite Hc; simpl; eauto|done]).
Qed.

Lemma trapOf_Some o op b : trapOf o op = Some b -> exists traps, o_class o = ClsHostProxy traps.
Proof. unfold trapOf. destruct (o_class o); try done. eauto. Qed.

Lemma plainUpdate_cellStep {A} (run : obj -> A * obj) o :
  plainUpdate run -> cellStep o (run o).2.
Proof.
  intros H. destruct (H o) as (?&?&Hc&?). repeat split; try done.
  rewrite Hc. apply classStep_refl.
Qed.

Lemma respects_internalRead {A} op target (run : obj -> A) :
  respects (internalRead op target run).
Proof.
  intros st. unfold internalRead.
  destruct target as [| | | | | |l]; try apply respects_throwRed.
  destruct (heap st !! l) as [o|] eqn:Ho; [|apply respects_throwRed].
  destruct (o_class o) eqn:Hc; try apply respects_throwRed;
    (destruct (trapOf o op) as [[e|n|fwd]|] eqn:Ht; simpl;
     try apply evolves_refl;
     eapply evolves_setObj; [done|]; apply cellStep_countDown).
Qed.

Lemma respects_internalMethod {A} op target (run : obj -> A * obj) refused :
  plainUpdate run -> respects (internalMethod op target run refused).
Proof.
  intros Hrun st. unfold internalMethod.
  destruct target as [| | | | | |l]; try apply respects_throwRed.
  destruct (heap st !! l) as [o|] eqn:Ho; [|apply respects_throwRed].
  assert (Hplain : evolves st (setObj l (run o).2 st)).
  { eapply evolves_setObj; [done|]. by apply plainUpdate_cellStep. }
  destruct (o_class o) eqn:Hc; try apply respects_throwRed;
    (destruct (trapOf o op) as [[e|n|fwd]|] eqn:Ht; simpl;
     [apply evolves_refl
     |eapply evolves_setObj; [done|];
      eapply cellStep_trans; [exact (plainUpdate_cellStep run o Hrun)|];
      apply cellStep_countDown
     |destruct refused; simpl; [destruct fwd; [done|apply evolves_refl]|done]
     |destruct refused; simpl; done]).
Qed.

Lemma plainUpdate_define k d : plainUpdate (ordinaryDefineOwnProperty k d).
Proof.
  intros o. unfold ordinaryDefineOwnProperty.
  destruct (validateAndApply _ _ _); simpl; done.
Qed.

Lemma plainUpdate_delete k : plainUpdate (ordinaryDelete k).
Proof.
  intros o. unfold ordinaryDelete.
  destruct (lookupProp _ _) as [p|]; simpl; [|done].
  destruct (propConfigurable p); simpl; done.
Qed.

Lemma plainUpdate_set self k v r : plainUpdate (ordinarySet self k v r).
Proof.
  intros o. unfold ordinarySet.
  assert (Hd : forall d, o_fn (ordinaryDefineOwnProperty k d o).2 = o_fn o
            /\ o_elems (ordinaryDefineOwnProperty k d o).2 = o_elems o
            /\ o_class (ordinaryDefineOwnProperty k d o).2 = o_class o
            /\ (o_ext o = false -> o_ext (ordinaryDefineOwnProperty k d o).2 = false))
    by (intros d; apply plainUpdate_define).
  destruct (lookupProp k (o_props o)) as [[? w ? ?|? s ? ?]|]; simpl.
  - destruct w; simpl; [|done]. case_bool_decide; simpl; [apply Hd|].
    destruct r; done.
  - destruct (isUndefined s); done.
  - destruct (isNull (o_proto o)); simpl; [|done].
    case_bool_decide; simpl; [apply Hd|]. destruct r; done.
Qed.

Section EngineRespects.

Ltac step := first
  [ apply respects_ret | apply respects_throw | apply respects_gets
  | apply respects_throwRed | apply respects_throwBlue | apply respects_alloc
  | apply respects_internalRead
  | apply respects_bind; [|intros ?]
  | apply respects_tryCatch; [|intros ?] ].

Lemma respects_getPrototypeOf t : respects (Reflect.getPrototypeOf t).
Proof. apply respects_internalRead. Qed.

Lemma respects_isExtensible t : respects (Reflect.isExtensible t).
Proof. apply respects_internalRead. Qed.

Lemma respects_getOwnPropertyDescriptor t k :
  respects (Reflect.getOwnPropertyDescriptor t k).
Proof. apply respects_internalRead. Qed.

Lemma respects_ownKeys t : respects (Reflect.ownKeys t).
Proof. apply respects_internalRead. Qed.

Lemma respects_has t k : respects (Reflect.has t k).
Proof. apply respects_internalRead. Qed.

Lemma respects_get t k r : respects (Reflect.get t k r).
Proof. apply respects_internalRead. Qed.

Lemma respects_setPrototypeOf t p : respects (Reflect.setPrototypeOf t p).
Proof.
  unfold Reflect.setPrototypeOf. destruct (negb _); [step|].
  step; [step|]. apply respects_internalMethod. intros o.
  case_bool_decide; [done|]. destruct (negb (o_ext o)); [done|].
  destruct t; try done. destruct (chainReaches _ _ _ _); done.
Qed.

Lemma respects_preventExtensions t : respects (Reflect.preventExtensions t).
Proof. apply respects_internalMethod. intros o. done. Qed.

Lemma respects_defineProperty t k d : respects (Reflect.defineProperty t k d).
Proof.
  unfold Reflect.defineProperty. destruct (_ && _); [step|].
  apply respects_internalMethod, plainUpdate_define.
Qed.

Lemma respects_deleteProperty t k : respects (Reflect.deleteProperty t k).
Proof. apply respects_internalMethod, plainUpdate_delete. Qed.

Lemma respects_set t k v r : respects (Reflect.set t k v r).
Proof. apply respects_internalMethod, plainUpdate_set. Qed.

Lemma respects_hasProperty n t k : respects (hasProperty n t k).
Proof.
  revert t. induction n as [|n IH]; intros t; simpl; [step|].
  step; [apply respects_has|]. destruct a; [step|apply IH].
Qed.

Lemma respects_testKeys frozen t ks : respects (testKeys frozen t ks).
Proof.
  induction ks as [|k ks IH]; simpl; [step|].
  step; [apply respects_getOwnPropertyDescriptor|].
  destruct a as [d|]; [|done].
  case_bool_decide; [step|]. destruct (_ && _); [step|done].
Qed.

Lemma respects_collectDescriptors t ks : respects (collectDescriptors t ks).
Proof.
  induction ks as [|k ks IH]; simpl; [step|].
  step; [apply respects_getOwnPropertyDescriptor|].
  step; [done|]. step.
Qed.

Lemma respects_testIntegrityLevel frozen t :
  respects (Object.testIntegrityLevel frozen t).
Proof.
  unfold Object.testIntegrityLevel. destruct t; try step.
  - apply respects_isExtensible.
  - destruct a; [step|]. step; [apply respects_ownKeys|].
    apply respects_testKeys.
Qed.

Lemma respects_getOwnPropertyDescriptors t :
  respects (Object.getOwnPropertyDescriptors t).
Proof.
  unfold Object.getOwnPropertyDescriptors.
  step; [apply respects_ownKeys|]. apply respects_collectDescriptors.
Qed.

Lemma respects_ObjectDefineProperty t k d : respects (Object.defineProperty t k d).
Proof.
  unfold Object.defineProperty. step; [apply respects_defineProperty|].
  destruct a; step.
Qed.

Lemma respects_setIntegrityLevel f t : respects (Object.setIntegrityLevel f t).
Proof.
  unfold Object.setIntegrityLevel. step.
  - apply respects_internalMethod. intros o. done.
  - destruct a; step.
Qed.

Lemma respects_isArray v : respects (isArrayOrNotOrThrowForRevoked v).
Proof.
  intros st. unfold isArrayOrNotOrThrowForRevoked.
  destruct v; try apply evolves_refl.
  destruct (heap st !! l) as [o|]; [|apply evolves_refl].
  destruct (o_class o); try apply evolves_refl. apply respects_throwRed.
Qed.

Lemma respects_getDistortedValue t : respects (getDistortedValue t).
Proof. unfold getDistortedValue. step; [step|]. destruct (negb a); step. Qed.

Lemma respects_renameFunction b r : respects (renameFunction b r).
Proof.
  unfold renameFunction. step; [|step].
  step; [apply respects_getOwnPropertyDescriptor|].
  destruct a; [|step]. step; [apply respects_defineProperty|step].
Qed.

Lemma respects_guarded {A} (m : M A) meta k :
  respects m -> (forall a, respects (k a)) -> respects (guarded m meta k).
Proof.
  intros Hm Hk st. unfold guarded. specialize (Hm st).
  destruct (m st) as [[a|e] st1]; simpl in *; [|done].
  eapply evolves_trans; [exact Hm|apply Hk].
Qed.

Lemma respects_classifyLifecycle t : respects (classifyLifecycle t).
Proof.
  unfold classifyLifecycle. step; [apply respects_testIntegrityLevel|].
  destruct a; [step|]. step; [apply respects_testIntegrityLevel|].
  destruct a; [step|]. step; [apply respects_isExtensible|step].
Qed.

Lemma respects_getTargetMeta t : respects (getTargetMeta t).
Proof.
  unfold getTargetMeta.
  apply respects_guarded; [apply respects_getPrototypeOf|intros p].
  apply respects_guarded; [apply respects_getOwnPropertyDescriptors|intros ds].
  apply respects_guarded; [apply respects_classifyLifecycle|intros fl].
  apply respects_guarded; [apply respects_isArray|intros _]. step.
Qed.

Lemma respects_newObject : respects newObject.
Proof. unfold newObject. repeat step. Qed.

Lemma respects_newArrowFunction : respects newArrowFunction.
Proof. unfold newArrowFunction. repeat step. Qed.

Lemma respects_newNormalFunction : respects newNormalFunction.
Proof. unfold newNormalFunction. repeat step. Qed.

Lemma respects_newArray es : respects (newArray es).
Proof. unfold newArray. repeat step. Qed.

Lemma respects_createRedShadowTarget b : respects (createRedShadowTarget b).
Proof.
  unfold createRedShadowTarget. step; [step|].
  destruct a; [|apply respects_newObject].
  step.
  - step; [|apply respects_newArrowFunction].
    step; [step|]. step; [apply respects_hasProperty|].
    destruct a0; [apply respects_newNormalFunction|apply respects_newArrowFunction].
  - step; [apply respects_renameFunction|step].
Qed.

Lemma respects_ProxyCreate s h : respects (ProxyCreate s h).
Proof. unfold ProxyCreate. destruct s; repeat step. Qed.

Lemma respects_ErrorCreate m : respects (ErrorCreate m).
Proof. unfold ErrorCreate. repeat step. Qed.

End EngineRespects.

Lemma bind_Ret {A B} (m : M A) (k : A -> M B) st a st' :
  m st = (Ret a, st') -> bind m k st = k a st'.
Proof. intros H. unfold bind. by rewrite H. Qed.

Lemma bind_Throw {A B} (m : M A) (k : A -> M B) st e st' :
  m st = (Throw e, st') -> bind m k st = (Throw e, st').
Proof. intros H. unfold bind. by rewrite H. Qed.

Lemma tryCatch_Ret {A} (m : M A) h st a st' :
  m st = (Ret a, st') -> tryCatch m h st = (Ret a, st').
Proof. intros H. unfold tryCatch. by rewrite H. Qed.


(** ** Minting and registering a proxy *)

Lemma getDistortedValue_run target st :
  getDistortedValue target st = (Ret (distorted st target), st).
Proof.
  unfold getDistortedValue, distorted, bind, gets, ret.
  destruct (WeakMapHas _ _); done.
Qed.

Lemma ProxyCreate_run s h st :
  exists fn,
    ProxyCreate (VObj s) h st =
      (Ret (VObj (length (heap st))),
       setHeap (heap st ++ [plainObject fn [] (ClsWrapper s h)]) st).
Proof. unfold ProxyCreate, bind, gets, alloc, ret. eauto. Qed.

Lemma lookup_snoc_new {A} (l : list A) (x : A) : (l ++ [x]) !! length l = Some x.
Proof. rewrite lookup_app_r by lia. by rewrite Nat.sub_diag. Qed.

(** Registration of a freshly minted proxy keeps the discipline. *)
Lemma evolves_register st st1 p blue :
  evolves st st1 ->
  length (heap st) <= p ->
  mintedFor st1 p blue ->
  evolves st (setRefMapEntries (VObj p) blue st1).2.
Proof.
  intros Hev Hp Hm. unfold setRefMapEntries.
  destruct (regFailure st1) eqn:Hreg; [done|].
  destruct blue as [| | | | | |b];
    try (eapply evolves_trans; [exact Hev|apply respects_throwBlue]).
  destruct Hev as [L C D R K B]. split; simpl; try done.
  - congruence.
  - intros l Hl. destruct (decide (b = l)) as [->|Hne].
    + rewrite lookup_insert_eq. eauto.
    + rewrite lookup_insert_ne by done. auto.
  - intros l v. destruct (decide (b = l)) as [->|Hne].
    + rewrite lookup_insert_eq. intros [= <-]. right. exists p. done.
    + rewrite lookup_insert_ne by done. intros Hv.
      destruct (B _ _ Hv) as [?|(w & -> & Hw & Hmw)]; [auto|].
      right. exists w. done.
Qed.

Lemma setRefMapEntries_Ret red blue st st' :
  setRefMapEntries red blue st = (Ret tt, st') ->
  exists r b, red = VObj r /\ blue = VObj b /\ regFailure st = None /\
    st' = mkState (heap st) (<[b := red]> (blueMap st)) (<[r := blue]> (redMap st))
                  (distortionMap st) (regFailure st).
Proof.
  unfold setRefMapEntries. destruct (regFailure st); [done|].
  destruct red; try done; destruct blue; try done.
  intros [= <-]. eauto 10.
Qed.

Lemma setRefMapEntries_Throw red blue st e st' :
  setRefMapEntries red blue st = (Throw e, st') ->
  st' = st \/ st' = (@throwBlue unit "TypeError" VUndefined st).2.
Proof.
  unfold setRefMapEntries. destruct (regFailure st); [intros [= _ <-]; auto|].
  destruct red; try (intros [= _ <-]; auto; fail);
    destruct blue; try (intros [= _ <-]; auto; fail).
Qed.

Lemma getRevokedRedProxy_mints blue st :
  mints st blue (getRevokedRedProxy blue st).1 (getRevokedRedProxy blue st).2
  /\ forall p, (getRevokedRedProxy blue st).1 = Ret (VObj p) ->
       exists o, heap (getRevokedRedProxy blue st).2 !! p = Some o
                 /\ o_class o = ClsRevoked.
Proof.
  unfold getRevokedRedProxy, bind.
  pose proof (respects_createRedShadowTarget blue st) as Hsh.
  destruct (createRedShadowTarget blue st) as [[sh|e] st1]; simpl in *;
    [|split; [split; [done|intros ? [=]]|intros ? [=]]].
  destruct sh as [| | | | | |s].
  1-6: (split; [split; [eapply evolves_trans; [exact Hsh|apply respects_throwRed]
                       |intros ? [=]]|intros ? [=]]).
  destruct (ProxyCreate_run s EmptyHandler st1) as [fn Hpc]. rewrite Hpc.
  set (p := length (heap st1)).
  set (cell := plainObject fn [] (ClsWrapper s EmptyHandler)).
  set (st2 := setHeap (heap st1 ++ [cell]) st1).
  assert (Hev2 : evolves st st2)
    by (eapply evolves_trans; [exact Hsh|apply evolves_alloc]).
  assert (Hcell : heap st2 !! p = Some cell) by apply lookup_snoc_new.
  assert (Hrev : evolves st2 (setObj p (setClass ClsRevoked cell) st2)).
  { eapply evolves_setObj; [exact Hcell|]. repeat split; [simpl; auto|done]. }
  assert (Hrevcell : heap (setObj p (setClass ClsRevoked cell) st2) !! p
                     = Some (setClass ClsRevoked cell)).
  { simpl. apply list_lookup_insert_eq. unfold st2, p. simpl.
    rewrite length_app. simpl. lia. }
  destruct (setRefMapEntries (VObj p) blue st2) as [[[]|e] st3] eqn:Hreg.
  - apply setRefMapEntries_Ret in Hreg as (r & b & [= <-] & -> & Hnone & ->).
    assert (Hcell' : (heap st1 ++ [cell]) !! p = Some cell)
      by apply lookup_snoc_new.
    unfold revoke. simpl. rewrite Hcell'. simpl.
    pose proof (evolves_register st _ p (VObj b)
                  (evolves_trans _ _ _ Hev2 Hrev)) as Hfinal.
    assert (Hm : mintedFor (setObj p (setClass ClsRevoked cell) st2) p (VObj b)).
    { eexists. split; [exact Hrevcell|]. left. done. }
    specialize (Hfinal ltac:(destruct Hsh; unfold p; lia) Hm).
    unfold setRefMapEntries in Hfinal. simpl in Hfinal.
    simpl in Hnone. rewrite Hnone in Hfinal. simpl in Hfinal.
    unfold setObj, setHeap. simpl. rewrite Hnone.
    split; [split|].
    + exact Hfinal.
    + intros v [= <-]. exists p. split; [done|]. split.
      * destruct Hsh. unfold p. lia.
      * exists (setClass ClsRevoked cell). split; [|left; reflexivity]. simpl.
        apply list_lookup_insert_eq. rewrite length_app. simpl. lia.
    + intros p' [= <-]. exists (setClass ClsRevoked cell).
      split; [|reflexivity]. simpl.
      apply list_lookup_insert_eq. rewrite length_app. simpl. lia.
  - simpl. split; [split; [|intros ? [=]]|intros ? [=]].
    apply setRefMapEntries_Throw in Hreg as [->| ->]; [done|].
    eapply evolves_trans; [exact Hev2|apply respects_throwBlue].
Qed.

Lemma guarded_total {A} (m : M A) meta k st :
  (forall a st', exists x, (k a st').1 = Ret x) ->
  exists x, (guarded m meta k st).1 = Ret x.
Proof.
  intros Hk. unfold guarded. destruct (m st) as [[a|e] st1]; [apply Hk|].
  simpl. eauto.
Qed.

(** [getTargetMeta] never raises: its [catch] swallows every failure. *)
Lemma getTargetMeta_total target st : exists m, (getTargetMeta target st).1 = Ret m.
Proof.
  unfold getTargetMeta.
  apply guarded_total. intros p st1.
  apply guarded_total. intros ds st2.
  apply guarded_total. intros fl st3.
  apply guarded_total. intros _ st4. simpl. eauto.
Qed.

Lemma register_final st st3 p d :
  evolves st st3 ->
  length (heap st) <= p ->
  mintedFor st3 p d ->
  let r := (tryCatch (setRefMapEntries (VObj p) d)
              (fun _ => e <- ErrorCreate "Internal Error" ;; throw e) ;;;
            ret (VObj p)) st3 in
  evolves st r.2 /\
  forall v, r.1 = Ret v ->
    exists b, v = VObj p /\ d = VObj b /\ mintedFor r.2 p d
      /\ blueMap r.2 !! b = Some (VObj p) /\ regFailure st3 = None
      /\ heap r.2 = heap st3.
Proof.
  intros Hev Hp Hm r. subst r. unfold bind, tryCatch.
  pose proof (evolves_register _ _ _ _ Hev Hp Hm) as Hreg.
  destruct (setRefMapEntries (VObj p) d st3) as [[[]|e] st4] eqn:Hset; simpl in *.
  - split; [done|]. intros v [= <-].
    apply setRefMapEntries_Ret in Hset as (r & b & [= <-] & -> & Hnone & ->).
    exists b. simpl. repeat split; try done.
    apply lookup_insert_eq.
  - split; [|intros ? [=]].
    eapply evolves_trans; [exact Hreg|].
    apply evolves_alloc.
Qed.

Lemma handlerFor_target blue meta : handlerTarget (handlerFor blue meta) = blue.
Proof. unfold handlerFor. destruct (hasOwnDescriptor _ _); done. Qed.

Lemma liveProxy_mints blue meta st :
  let r := (shadowTarget <- createRedShadowTarget blue ;;
            ProxyCreate shadowTarget (handlerFor blue meta)) st in
  mints st blue r.1 r.2 /\
  forall p, r.1 = Ret (VObj p) ->
    exists o s, heap r.2 !! p = Some o
                /\ o_class o = ClsWrapper s (handlerFor blue meta).
Proof.
  intros r. subst r. unfold bind.
  pose proof (respects_createRedShadowTarget blue st) as Hsh.
  destruct (createRedShadowTarget blue st) as [[sh|e] st1]; simpl in *;
    [|split; [split; [done|intros ? [=]]|intros ? [=]]].
  destruct sh as [| | | | | |s].
  1-6: (split; [split; [eapply evolves_trans; [exact Hsh|apply respects_throwRed]
                       |intros ? [=]]|intros ? [=]]).
  destruct (ProxyCreate_run s (handlerFor blue meta) st1) as [fn Hpc]. rewrite Hpc.
  simpl. split; [split|].
  - eapply evolves_trans; [exact Hsh|apply evolves_alloc].
  - intros v [= <-]. eexists. split; [done|]. split; [by destruct Hsh|].
    eexists. split; [apply lookup_snoc_new|]. right.
    do 2 eexists. split; [reflexivity|]. simpl. apply handlerFor_target.
  - intros p [= <-]. do 2 eexists. split; [apply lookup_snoc_new|]. reflexivity.
Qed.

(** [createRedProxy]: it keeps the discipline, and when it returns, it
    returns a proxy minted here for the distortion substitute [d] of
    [blue] and registered under [d]. *)
Lemma createRedProxy_spec blue st :
  let d := distorted st blue in
  let r := createRedProxy blue st in
  evolves st r.2 /\
  forall v, r.1 = Ret v ->
    exists p b, v = VObj p /\ d = VObj b /\ length (heap st) <= p
      /\ mintedFor r.2 p d
      /\ blueMap r.2 !! b = Some (VObj p)
      /\ regFailure st = None.
Proof.
  intros d r. subst r. unfold createRedProxy.
  rewrite (bind_Ret _ _ _ _ _ (getDistortedValue_run blue st)). fold d.
  pose proof (respects_getTargetMeta d st) as Hmeta.
  destruct (getTargetMeta_total d st) as [meta Htot].
  destruct (getTargetMeta d st) as [[meta'|e] st1] eqn:Hgm; simpl in Htot; [|done].
  injection Htot as ->. simpl in Hmeta.
  rewrite (bind_Ret _ _ _ _ _ Hgm).
  assert (Hcommon : forall (branch : M value),
    mints st1 d (branch st1).1 (branch st1).2 ->
    let r := (proxy <- branch ;;
              tryCatch (setRefMapEntries proxy d)
                (fun _ => e <- ErrorCreate "Internal Error" ;; throw e) ;;;
              ret proxy) st1 in
    evolves st r.2 /\
    forall v, r.1 = Ret v ->
      exists p b, v = VObj p /\ d = VObj b /\ length (heap st) <= p
        /\ mintedFor r.2 p d /\ blueMap r.2 !! b = Some (VObj p)
        /\ regFailure st = None).
  { intros branch [Hev Hpost] r. subst r.
    destruct (branch st1) as [[v|e] st2] eqn:Hbr; simpl in *;
      [rewrite (bind_Ret _ _ _ _ _ Hbr)|rewrite (bind_Throw _ _ _ _ _ Hbr)].
    - destruct (Hpost v eq_refl) as (p & -> & Hp & Hm).
      destruct (register_final st1 st2 p d Hev Hp Hm) as [Hev' Hret].
      split; [eapply evolves_trans; [exact Hmeta|exact Hev']|].
      intros v Hv. destruct (Hret v Hv) as (b & -> & Hd & Hm' & Hb & Hnone & _).
      exists p, b. repeat split; try done.
      + destruct Hmeta. lia.
      + destruct Hmeta, Hev. congruence.
    - split; [eapply evolves_trans; [exact Hmeta|exact Hev]|intros ? [=]]. }
  apply Hcommon. destruct (meta_isBroken meta).
  - apply getRevokedRedProxy_mints.
  - apply (liveProxy_mints d meta st1).
Qed.

Lemma respects_createRedProxy blue : respects (createRedProxy blue).
Proof. intros st. apply createRedProxy_spec. Qed.

Lemma respects_getRedFunction blue : respects (getRedFunction blue).
Proof.
  unfold getRedFunction. apply respects_bind; [apply respects_gets|].
  intros red. destruct (isUndefined red);
    [apply respects_createRedProxy|apply respects_ret].
Qed.

Lemma respects_getRedArrayWith f blue :
  (forall v, respects (f v)) -> respects (getRedArrayWith f blue).
Proof.
  intros Hf. unfold getRedArrayWith, arrayElements.
  apply respects_bind; [apply respects_internalRead|]. intros es.
  apply respects_bind; [by apply respects_mapM|]. intros b.
  apply respects_bind; [apply respects_newArray|]. intros _.
  apply respects_newArray.
Qed.

Lemma respects_getRedValueAt depth blue : respects (getRedValueAt depth blue).
Proof.
  revert blue. induction depth as [|n IH]; intros blue; simpl.
  - apply respects_throwRed.
  - destruct (isNullOrUndefined blue); [apply respects_ret|].
    apply respects_bind; [apply respects_gets|]. intros ty.
    assert (Hrest : respects
      (isBlueArray <-
         tryCatch (b <- isArrayOrNotOrThrowForRevoked blue ;; ret (Some b))
                  (fun _ => ret None) ;;
       match isBlueArray with
       | None => createRedProxy blue
       | Some true => getRedArrayWith (getRedValueAt n) blue
       | Some false =>
           match ty with
           | TyObject =>
               red <- gets (fun st => WeakMapGet (blueMap st) blue) ;;
               if isUndefined red then createRedProxy blue else ret red
           | _ => ret blue
           end
       end)).
    { apply respects_bind.
      - apply respects_tryCatch; [|intros; apply respects_ret].
        apply respects_bind; [apply respects_isArray|intros; apply respects_ret].
      - intros [[|]|].
        + by apply respects_getRedArrayWith.
        + destruct ty; try apply respects_ret.
          apply respects_bind; [apply respects_gets|]. intros red.
          destruct (isUndefined red);
            [apply respects_createRedProxy|apply respects_ret].
        + apply respects_createRedProxy. }
    destruct ty; try exact Hrest.
    + apply respects_ret.
    + apply respects_getRedFunction.
Qed.

Section HandlerRespects.

Variable stack : nat.

Ltac step := first
  [ apply respects_ret | apply respects_throw | apply respects_gets
  | apply respects_throwRed | apply respects_alloc
  | apply respects_getRedFunction | apply respects_getRedValueAt
  | apply respects_getOwnPropertyDescriptor | apply respects_defineProperty
  | apply respects_set | apply respects_ownKeys
  | apply respects_preventExtensions | apply respects_setPrototypeOf
  | apply respects_isExtensible | apply respects_setIntegrityLevel
  | apply respects_bind; [|intros ?]
  | apply respects_tryCatch; [|intros ?] ].

Lemma respects_getRedValue blue : respects (getRedValue stack blue).
Proof. apply respects_getRedValueAt. Qed.

Lemma respects_installDescriptor sh k d :
  respects (installDescriptorIntoShadowTarget sh k d).
Proof.
  unfold installDescriptorIntoShadowTarget. step; [step|].
  destruct a as [d'|]; [|repeat step].
  case_bool_decide; [repeat step|]. case_bool_decide; [|step].
  step; [step|]. destruct a as [[]| | |]; step.
Qed.

Lemma respects_getRedDescriptor d : respects (getRedDescriptor stack d).
Proof.
  unfold getRedDescriptor. destruct (isSome (d_writable d)).
  - step; [step|]. step; [|step]. destruct a; [step|apply respects_getRedValue].
  - step; [step|]. step.
    + destruct a; repeat step.
    + step; [step|]. destruct a1; repeat step.
Qed.

Lemma respects_copyRedOwnDescriptors sh ds :
  respects (copyRedOwnDescriptors stack sh ds).
Proof.
  unfold copyRedOwnDescriptors. apply respects_forEach. intros kd.
  step; [apply respects_getRedDescriptor|apply respects_installDescriptor].
Qed.

Lemma respects_copyBlueDescriptor sh t k :
  respects (copyBlueDescriptorIntoShadowTarget stack sh t k).
Proof.
  unfold copyBlueDescriptorIntoShadowTarget. step; [step|].
  destruct a; [|step]. step; [apply respects_getRedDescriptor|repeat step].
Qed.

Lemma respects_lockShadowTarget sh t : respects (lockShadowTarget stack sh t).
Proof.
  unfold lockShadowTarget. step; [step|]. step.
  - apply respects_forEach. intros k. apply respects_copyBlueDescriptor.
  - repeat step.
Qed.

Lemma respects_initializeBody sh meta : respects (initializeBody stack sh meta).
Proof.
  unfold initializeBody. step; [apply respects_getRedValue|].
  step; [step|]. step; [apply respects_copyRedOwnDescriptors|].
  destruct (meta_isFrozen meta); [step|].
  destruct (meta_isSealed meta); [step|].
  destruct (negb _); repeat step.
Qed.

Lemma respects_wrapperParts w : respects (wrapperParts w).
Proof.
  intros st. unfold wrapperParts.
  destruct (heap st !! w) as [o|]; [|apply respects_throwRed].
  destruct (o_class o); try apply respects_throwRed. apply evolves_refl.
Qed.

Lemma respects_initialize w : respects (initialize stack w).
Proof.
  intros st. unfold initialize, bind, wrapperParts.
  destruct (heap st !! w) as [o|] eqn:Ho; [|apply respects_throwRed].
  destruct (o_class o) as [| | | | | |s h] eqn:Hc; try apply respects_throwRed.
  destruct h as [t meta [|]| |]; try apply evolves_refl.
  unfold setHandler. rewrite Ho, Hc. simpl.
  eapply evolves_trans; [|apply respects_initializeBody].
  eapply evolves_setObj; [exact Ho|].
  repeat split; [rewrite Hc; simpl; eauto|done].
Qed.

End HandlerRespects.

(** ** C9: the static snapshot is taken at most once *)


Lemma initialize_noop stack st w :
  initializedAt st w -> initialize stack w st = (Ret tt, st).
Proof.
  intros (o & s & t & meta & Ho & Hc).
  unfold initialize, bind, wrapperParts. rewrite Ho, Hc. done.
Qed.


(** ** C1: identity of the guest counterpart *)

Lemma distorted_none st l :
  distortionMap st !! l = None -> distorted st (VObj l) = VObj l.
Proof. intros H. unfold distorted. simpl. by rewrite H. Qed.

Lemma getRedValueAt_obj n l st :
  getRedValueAt (S n) (VObj l) st =
    match typeOf st (VObj l) with
    | TyUndefined => (Ret VUndefined, st)
    | TyFunction => getRedFunction (VObj l) st
    | ty => convertObject n ty (VObj l) st
    end.
Proof.
  unfold getRedValueAt; fold getRedValueAt.
  change (isNullOrUndefined (VObj l)) with false. cbv iota.
  unfold bind at 1, gets at 1.
  by destruct (typeOf st (VObj l)).
Qed.

(** The first conversion of an object either leaves the state as it was,
    or registers its result under the object, or copies an array. *)
Lemma getRedValueAt_object n l st w st1 :
  distortionMap st !! l = None ->
  getRedValueAt (S n) (VObj l) st = (Ret w, st1) ->
  st1 = st
  \/ (blueMap st1 !! l = Some w /\ exists p, w = VObj p)
  \/ (evolves st st1 /\ exists o, heap st !! l = Some o
        /\ isSome (o_elems o) = true /\ typeOfObj o = TyObject).
Proof.
  intros Hd. rewrite getRedValueAt_obj.
  assert (Hcreate : forall st0, distortionMap st0 !! l = None ->
            createRedProxy (VObj l) st0 = (Ret w, st1) ->
            blueMap st1 !! l = Some w /\ exists p, w = VObj p).
  { intros st0 Hd0 Hrun.
    destruct (createRedProxy_spec (VObj l) st0) as [_ Hpost].
    rewrite Hrun in Hpost. simpl in Hpost.
    destruct (Hpost w eq_refl) as (p & b & -> & Hb & _ & _ & Hblue & _).
    rewrite (distorted_none _ _ Hd0) in Hb. injection Hb as <-. eauto. }
  assert (Hlookup : forall st0, distortionMap st0 !! l = None ->
            (red <- gets (fun st => WeakMapGet (blueMap st) (VObj l)) ;;
             if isUndefined red then createRedProxy (VObj l) else ret red) st0
            = (Ret w, st1) ->
            st1 = st0 \/ (blueMap st1 !! l = Some w /\ exists p, w = VObj p)).
  { intros st0 Hd0. unfold bind, gets. simpl.
    destruct (isUndefined (default VUndefined (blueMap st0 !! l))).
    - intros Hrun. right. by eapply Hcreate.
    - intros [= <- <-]. by left. }
  destruct (typeOf st (VObj l)) eqn:Hty.
  - intros [= <- <-]. by left.
  - (* typeof 'object' *)
    unfold convertObject, bind at 1, tryCatch, bind at 1,
      isArrayOrNotOrThrowForRevoked.
    simpl in Hty. destruct (heap st !! l) as [o|] eqn:Ho.
    + destruct (o_class o) eqn:Hc;
        try (simpl; destruct (isSome (o_elems o)) eqn:Harr;
             [intros Hrun; right; right; split;
              [pose proof (respects_getRedArrayWith (getRedValueAt n) (VObj l)
                             (respects_getRedValueAt n) st) as Hev;
               by rewrite Hrun in Hev
              |exists o; done]
             |intros Hrun; apply Hlookup in Hrun as [->|?]; auto]).
      unfold throwRed, bind, alloc, throw, ret. simpl.
      intros Hrun. right. left. eapply Hcreate; [|exact Hrun]. exact Hd.
    + simpl. intros Hrun. apply Hlookup in Hrun as [->|?]; auto.
  - (* typeof 'function' *)
    unfold getRedFunction. intros Hrun. apply Hlookup in Hrun as [->|?]; auto.
  - simpl in Hty. destruct (heap st !! l) as [o|]; [|done].
    unfold typeOfObj in Hty. destruct (o_class o), (o_fn o); done.
Qed.

Lemma typeOfObj_step o o' : cellStep o o' -> typeOfObj o' = typeOfObj o.
Proof.
  intros (Hfn & _ & Hc & _). unfold typeOfObj. rewrite Hfn.
  destruct (o_class o) as [| | | | | |s h] eqn:E; simpl in Hc;
    try (rewrite Hc; done).
  - destruct Hc as [[traps' ->]| ->]; done.
  - destruct h as [t m b| |].
    + destruct Hc as (b' & -> & _). done.
    + rewrite Hc. done.
    + destruct Hc as [->| ->]; done.
Qed.

(** C1 (as amended).  Let [h] be a host object without a distortion entry,
    and let a first [getRedValue h] return [w].  If, when asked again, [h]
    is callable, or is an object for which the array test answers "not an
    array" (it is neither an array nor a revoked proxy), then the second
    [getRedValue h] returns the very same [w] and changes nothing. *)
Theorem identity_stable (stack : nat) (st st1 : state) (l : loc) (w : value) :
  distortionMap st !! l = None ->
  getRedValue stack (VObj l) st = (Ret w, st1) ->
  typeOf st1 (VObj l) = TyFunction
  \/ (typeOf st1 (VObj l) = TyObject
      /\ isArrayOrNotOrThrowForRevoked (VObj l) st1 = (Ret false, st1)) ->
  getRedValue stack (VObj l) st1 = (Ret w, st1).
Proof.
  intros Hd Hrun Hagain. unfold getRedValue in *.
  destruct (getRedValueAt_object _ _ _ _ _ Hd Hrun)
    as [->|[(Hblue & p & ->)|(Hev & o & Ho & Harr & Hty)]].
  - exact Hrun.
  - rewrite getRedValueAt_obj.
    assert (Hget : (red <- gets (fun st => WeakMapGet (blueMap st) (VObj l)) ;;
                    if isUndefined red then createRedProxy (VObj l) else ret red) st1
                   = (Ret (VObj p), st1)).
    { unfold bind, gets. simpl. rewrite Hblue. done. }
    destruct Hagain as [Hf|[Hobj Hnot]].
    + rewrite Hf. exact Hget.
    + rewrite Hobj. unfold convertObject, bind at 1, tryCatch, bind at 1.
      rewrite Hnot. exact Hget.
  - exfalso.
    destruct (ev_cell _ _ Hev _ _ Ho) as (o' & Ho' & Hstep).
    pose proof (typeOfObj_step _ _ Hstep) as Hty'.
    destruct Hstep as (_ & Helems & _ & _).
    destruct Hagain as [Hf|[_ Hnot]].
    + simpl in Hf. rewrite Ho' in Hf. congruence.
    + unfold isArrayOrNotOrThrowForRevoked in Hnot. rewrite Ho' in Hnot.
      rewrite Helems, Harr in Hnot.
      destruct (o_class o'); done.
Qed.

(** A host object that is a revoked proxy: [typeof] says ['object'], it is
    no array, and every conversion mints a new proxy for it. *)
Lemma identity_unstable_for_revoked_object :
  let st := mkState [plainObject NotCallable [] ClsRevoked] ∅ ∅ ∅ None in
  typeOf st (VObj 0) = TyObject /\ ~ identityStable 0 st (VObj 0).
Proof.
  split; [reflexivity|]. intros H.
  destruct (H (VObj 4) _ eq_refl) as [st2 H2].
  vm_compute in H2. discriminate H2.
Qed.

(** The same happens to an object with a distortion entry: the proxy is
    registered under the substitute, the lookup asks for the original. *)
Lemma identity_unstable_for_distorted_object :
  let st := mkState [plainObject NotCallable [] ClsPlain;
                     plainObject NotCallable [] ClsPlain]
                    ∅ ∅ {[ 0 := VObj 1 ]} None in
  ~ identityStable 0 st (VObj 0).
Proof.
  intros st H.
  destruct (H (VObj 3) _ eq_refl) as [st2 H2].
  vm_compute in H2. discriminate H2.
Qed.

Lemma identity_stable_witness :
  let st := mkState [plainObject NotCallable
                       [(KStr "x", PData (VNum 1) true true true)] ClsPlain]
                    ∅ ∅ ∅ None in
  getRedValue 0 (VObj 0) (getRedValue 0 (VObj 0) st).2
  = (Ret (VObj 2), (getRedValue 0 (VObj 0) st).2).
Proof.
  exact (identity_stable 0
           (mkState [plainObject NotCallable
                       [(KStr "x", PData (VNum 1) true true true)] ClsPlain]
                    ∅ ∅ ∅ None)
           _ 0 (VObj 2) eq_refl eq_refl (or_intror (conj eq_refl eq_refl))).
Defined.

(** ** C4: a target that cannot be introspected *)

Lemma guarded_Ret {A} (m : M A) meta k st a st' :
  m st = (Ret a, st') -> guarded m meta k st = k a st'.
Proof. intros H. unfold guarded. by rewrite H. Qed.

Lemma guarded_Throw {A} (m : M A) meta k st e st' :
  m st = (Throw e, st') -> guarded m meta k st = (Ret (markBroken meta), st').
Proof. intros H. unfold guarded. by rewrite H. Qed.

Lemma getTargetMeta_broken target st st' :
  extractionFails target st st' ->
  exists m, getTargetMeta target st = (Ret m, st')
            /\ meta_isBroken m = true /\ meta_proto m = VNull
            /\ meta_descriptors m = [].
Proof.
  intros H. unfold getTargetMeta.
  destruct H as [e st1 H1|p st1 e st2 H1 H2|p st1 ds st2 e st3 H1 H2 H3
                |p st1 ds st2 fl st3 e st4 H1 H2 H3 H4].
  - rewrite (guarded_Throw _ _ _ _ _ _ H1). eauto.
  - rewrite (guarded_Ret _ _ _ _ _ _ H1), (guarded_Throw _ _ _ _ _ _ H2). eauto.
  - rewrite (guarded_Ret _ _ _ _ _ _ H1), (guarded_Ret _ _ _ _ _ _ H2),
      (guarded_Throw _ _ _ _ _ _ H3). eauto.
  - rewrite (guarded_Ret _ _ _ _ _ _ H1), (guarded_Ret _ _ _ _ _ _ H2),
      (guarded_Ret _ _ _ _ _ _ H3), (guarded_Throw _ _ _ _ _ _ H4). eauto.
Qed.

Lemma renameFunction_total b r st : exists st', renameFunction b r st = (Ret tt, st').
Proof.
  unfold renameFunction, tryCatch.
  match goal with
  | |- context [match ?m st with _ => _ end] => destruct (m st) as [[[]|e] st1]
  end; simpl; eauto.
Qed.

Lemma createRedShadowTarget_total blue st :
  exists s st', createRedShadowTarget blue st = (Ret (VObj s), st').
Proof.
  unfold createRedShadowTarget, bind at 1, gets at 1.
  destruct (isFunction st blue); [|unfold newObject, bind, alloc, ret; eauto].
  assert (Hshadow : exists s st1,
    tryCatch
      (n <- gets (fun st => length (heap st)) ;;
       hasPrototype <- hasProperty n blue (KStr "prototype") ;;
       if hasPrototype then newNormalFunction else newArrowFunction)
      (fun _ => newArrowFunction) st = (Ret (VObj s), st1)).
  { unfold tryCatch, bind at 1, gets at 1, bind at 1.
    destruct (hasProperty _ _ _ st) as [[[|]|e] st1];
      unfold newNormalFunction, newArrowFunction, bind, alloc, ret; simpl; eauto. }
  destruct Hshadow as (s & st1 & Hs). rewrite (bind_Ret _ _ _ _ _ Hs).
  destruct (renameFunction_total blue (VObj s) st1) as [st2 Hr].
  rewrite (bind_Ret _ _ _ _ _ Hr). unfold ret. eauto.
Qed.

(** With a healthy registration, the revoked proxy is always delivered. *)
Lemma getRevokedRedProxy_run b st :
  regFailure st = None ->
  exists p st' o,
    getRevokedRedProxy (VObj b) st = (Ret (VObj p), st')
    /\ heap st' !! p = Some o /\ o_class o = ClsRevoked.
Proof.
  intros Hreg.
  destruct (getRevokedRedProxy_mints (VObj b) st) as [_ Hrevoked].
  assert (Hret : exists p st', getRevokedRedProxy (VObj b) st = (Ret (VObj p), st')).
  { unfold getRevokedRedProxy.
    pose proof (respects_createRedShadowTarget (VObj b) st) as Hev.
    destruct (createRedShadowTarget_total (VObj b) st) as (s & st1 & Hs).
    rewrite Hs in Hev. simpl in Hev.
    rewrite (bind_Ret _ _ _ _ _ Hs).
    destruct (ProxyCreate_run s EmptyHandler st1) as [fn Hpc].
    rewrite (bind_Ret _ _ _ _ _ Hpc).
    unfold bind, setRefMapEntries, revoke, ret. simpl.
    rewrite (ev_reg _ _ Hev), Hreg. simpl.
    destruct (_ !! length (heap st1)); eauto. }
  destruct Hret as (p & st' & Hrun). rewrite Hrun in Hrevoked.
  destruct (Hrevoked p eq_refl) as (o & Ho & Hc). eauto 10.
Qed.

Lemma revokedAt_evolves st st' w : evolves st st' -> revokedAt st w -> revokedAt st' w.
Proof.
  intros Hev (o & Ho & Hc).
  destruct (ev_cell _ _ Hev _ _ Ho) as (o' & Ho' & _ & _ & Hstep & _).
  rewrite Hc in Hstep. simpl in Hstep. exists o'. done.
Qed.

(** An operation on a revoked proxy raises a red [TypeError], whatever
    the operation and whatever the hooks. *)
Lemma operate_revoked stack hookA hookC gbv bget bset bhas fc cf st w op :
  revokedAt st w ->
  operate stack hookA hookC gbv bget bset bhas fc cf w op st
  = throwRed "TypeError" VUndefined st.
Proof.
  intros (o & Ho & Hc). unfold operate, bind at 1, wrapperParts.
  rewrite Ho, Hc.
  unfold throwRed, bind, alloc, throw. done.
Qed.

(** C4.  Let the extraction of the metadata of the (distortion-substituted)
    host object fail at any of its steps.  Then [getTargetMeta] still
    returns, with [broken] set, a null parent and an empty attribute map;
    and the factory, its registration being healthy, returns a proxy that
    is revoked; from then on, in every state the membrane can reach, every
    operation on that proxy raises a red [TypeError], and the proxy stays
    revoked after it. *)
Theorem broken_target_revoked (stack : nat) (st st1 : state) (blue : value)
    (b : loc) :
  distorted st blue = VObj b ->
  regFailure st = None ->
  extractionFails (VObj b) st st1 ->
  (exists m, getTargetMeta (VObj b) st = (Ret m, st1)
             /\ meta_isBroken m = true /\ meta_proto m = VNull
             /\ meta_descriptors m = [])
  /\ exists w st',
       createRedProxy blue st = (Ret (VObj w), st')
       /\ revokedAt st' w
       /\ forall st'', evolves st' st'' ->
            forall hookA hookC gbv bget bset bhas fc cf op,
              let r := operate stack hookA hookC gbv bget bset bhas fc cf w op st'' in
              (exists e, r.1 = Throw (VObj e)
                 /\ exists o, heap r.2 !! e = Some o
                      /\ o_class o = ClsError Red "TypeError" VUndefined)
              /\ revokedAt r.2 w.
Proof.
  intros Hd Hreg Hfail.
  destruct (getTargetMeta_broken _ _ _ Hfail) as (m & Hm & Hbroken & Hp & Hds).
  split; [eauto|].
  pose proof (respects_getTargetMeta (VObj b) st) as Hev1.
  rewrite Hm in Hev1. simpl in Hev1.
  assert (Hreg1 : regFailure st1 = None) by (rewrite (ev_reg _ _ Hev1); done).
  destruct (getRevokedRedProxy_run b st1 Hreg1) as (w & st2 & o & Hrun & Ho & Hc).
  pose proof (proj1 (proj1 (getRevokedRedProxy_mints (VObj b) st1))) as Hev2.
  rewrite Hrun in Hev2. simpl in Hev2.
  assert (Hcreate : exists st', createRedProxy blue st = (Ret (VObj w), st')
                                /\ heap st' = heap st2).
  { unfold createRedProxy.
    rewrite (bind_Ret _ _ _ _ _ (getDistortedValue_run blue st)), Hd.
    rewrite (bind_Ret _ _ _ _ _ Hm), Hbroken.
    rewrite (bind_Ret _ _ _ _ _ Hrun).
    unfold bind, tryCatch, setRefMapEntries, ret.
    rewrite (ev_reg _ _ Hev2), Hreg1. eauto. }
  destruct Hcreate as (st' & Hcreate & Hheap).
  exists w, st'. split; [exact Hcreate|].
  assert (Hrev : revokedAt st' w) by (exists o; rewrite Hheap; done).
  split; [exact Hrev|].
  intros st'' Hev hookA hookC gbv bget bset bhas fc cf op r. subst r.
  pose proof (revokedAt_evolves _ _ _ Hev Hrev) as Hrev''.
  rewrite (operate_revoked _ _ _ _ _ _ _ _ _ _ _ _ Hrev'').
  split.
  - exists (length (heap st'')). split; [done|].
    eexists. split; [apply lookup_snoc_new|done].
  - eapply revokedAt_evolves; [|exact Hrev'']. apply respects_throwRed.
Qed.

Example extraction_fails_reading_parent :
  exists st', extractionFails (VObj 0) (sandboxOf (plainObject NotCallable [] ClsRevoked)) st'.
Proof. eexists. eapply FailsReadingParent. reflexivity. Qed.

Example extraction_fails_reading_attributes :
  exists st', extractionFails (VObj 0)
                (sandboxOf (hostProxy [(OpOwnKeys, TrapThrows (VStr "no"))])) st'.
Proof. eexists. eapply FailsReadingAttributes; reflexivity. Qed.

Example extraction_fails_classifying :
  exists st', extractionFails (VObj 0)
                (sandboxOf (hostProxy [(OpIsExtensible, TrapThrows (VStr "no"))])) st'.
Proof. eexists. eapply FailsClassifying; reflexivity. Qed.

Example extraction_fails_probing :
  exists st', extractionFails (VObj 0)
                (sandboxOf (hostProxy [(OpIsExtensible, TrapRevokes 2)])) st'.
Proof. eexists. eapply FailsProbing; reflexivity. Qed.

Lemma broken_target_revoked_witness :
  exists w st',
    createRedProxy (VObj 0) (sandboxOf (hostProxy [(OpIsExtensible, TrapRevokes 2)]))
    = (Ret (VObj w), st')
    /\ revokedAt st' w.
Proof.
  destruct (broken_target_revoked 0
              (sandboxOf (hostProxy [(OpIsExtensible, TrapRevokes 2)])) _
              (VObj 0) 0 eq_refl eq_refl
              (FailsProbing (VObj 0)
                 (sandboxOf (hostProxy [(OpIsExtensible, TrapRevokes 2)]))
                 _ _ _ _ _ _ _ _ eq_refl eq_refl eq_refl eq_refl))
    as [_ (w & st' & Hrun & Hrev & _)].
  exists w, st'. split; [exact Hrun|exact Hrev].
Defined.

(** ** C10: construction without a new target *)

Lemma throwRed_run {A} name msg st :
  @throwRed A name msg st
  = (Throw (VObj (length (heap st))),
     setHeap (heap st ++ [errorObject Red name msg]) st).
Proof. reflexivity. Qed.

(** C10 (as amended).  A construct trap called with an undefined new
    target raises a red [TypeError] (a new error object of the red
    realm).  Through a dynamic proxy, and through a static proxy whose
    initialization has run, it does so at once and does nothing else.
    Through a static proxy that has not been initialized, the one-time
    initialization of the snapshot comes first: if that raises, its
    failure is what is raised; if it returns, the [TypeError] is raised
    in the state it left.  The outcome is the same for all hooks and for
    every [getBlueValue]: neither argument nor new target is converted,
    and the construct hook is never called. *)
Theorem construct_requires_newTarget (stack : nat)
    (blueConstructHook : value -> value -> value -> M value)
    (getBlueValue : value -> M value)
    (blueGet : value -> key -> value -> M value)
    (foreignConstruct : value -> list value -> M value)
    (st : state) (w : loc) (o : obj) (s : loc) (h : handler) (args : value) :
  heap st !! w = Some o ->
  o_class o = ClsWrapper s h ->
  match h with
  | DynamicHandler t =>
      raisesTypeErrorAtOnce
        (RedDynamicProxyHandler_construct stack blueConstructHook getBlueValue
           blueGet foreignConstruct w args VUndefined) st
  | StaticHandler t meta true =>
      raisesTypeErrorAtOnce
        (RedStaticProxyHandler_construct stack blueConstructHook getBlueValue
           blueGet foreignConstruct w args VUndefined) st
  | StaticHandler t meta false =>
      RedStaticProxyHandler_construct stack blueConstructHook getBlueValue
        blueGet foreignConstruct w args VUndefined st
      = match initialize stack w st with
        | (Ret _, st1) =>
            (Throw (VObj (length (heap st1))),
             setHeap (heap st1 ++ [errorObject Red "TypeError" VUndefined]) st1)
        | (Throw e, st1) => (Throw e, st1)
        end
  | EmptyHandler => True
  end.
Proof.
  intros Ho Hc.
  assert (Hstatic : forall t meta b, h = StaticHandler t meta b ->
            RedStaticProxyHandler_construct stack blueConstructHook getBlueValue
              blueGet foreignConstruct w args VUndefined st
            = match initialize stack w st with
              | (Ret _, st1) =>
                  (Throw (VObj (length (heap st1))),
                   setHeap (heap st1 ++ [errorObject Red "TypeError" VUndefined])
                           st1)
              | (Throw e, st1) => (Throw e, st1)
              end).
  { intros t meta b ->.
    unfold RedStaticProxyHandler_construct, targetOf, bind at 1, bind at 1,
      wrapperParts.
    rewrite Ho, Hc. simpl. unfold bind at 1.
    destruct (initialize stack w st) as [[[]|e] st1]; reflexivity. }
  destruct h as [t meta [|]|t|]; [| | |done].
  - unfold raisesTypeErrorAtOnce. rewrite (Hstatic t meta true eq_refl).
    rewrite initialize_noop; [done|]. exists o, s, t, meta. done.
  - by apply (Hstatic t meta false).
  - unfold raisesTypeErrorAtOnce, RedDynamicProxyHandler_construct, targetOf,
      bind at 1, bind at 1, wrapperParts.
    rewrite Ho, Hc. reflexivity.
Qed.

(** C10 as stated does not hold for a static proxy that has not been
    initialized: the initialization comes first.  On the proxy of
    [Widget] the [prototype] object of the host has been converted (a
    proxy has been minted and registered for it) by the time the
    [TypeError] is raised; on the proxy of a constructor whose snapshot
    holds an array that contains itself, what is raised is the
    [RangeError] of that conversion. *)
Lemma construct_initializes_first :
  let st := (createRedProxy (VObj 1) widgetSandbox).2 in
  let trap := RedStaticProxyHandler_construct 0 quietHook ret quietGet
                quietConstruct 4 (VObj 9) VUndefined in
  let st2 := (createRedProxy (VObj 1) tangledSandbox).2 in
  let trap2 := RedStaticProxyHandler_construct 3 quietHook ret quietGet
                 quietConstruct 5 (VObj 9) VUndefined in
  ~ raisesTypeErrorAtOnce trap st
  /\ blueMap st !! 0 = None
  /\ blueMap (trap st).2 !! 0 = Some (VObj 6)
  /\ exists e, (trap2 st2).1 = Throw (VObj e)
       /\ o_class <$> heap (trap2 st2).2 !! e
          = Some (ClsError Red "RangeError" stackOverflow).
Proof.
  intros st trap st2 trap2. split.
  { unfold raisesTypeErrorAtOnce. intros H. apply (f_equal fst) in H.
    vm_compute in H. discriminate H. }
  split; [vm_compute; reflexivity|]. split; [vm_compute; reflexivity|].
  exists 8. split; vm_compute; reflexivity.
Qed.

Lemma construct_requires_newTarget_witness :
  let st := (createRedProxy (VObj 1) widgetSandbox).2 in
  RedStaticProxyHandler_construct 0 (fun _ _ _ => ret VNull) ret
    (fun _ _ _ => ret VNull) (fun _ _ => ret VNull) 4 (VObj 9) VUndefined st
  = match initialize 0 4 st with
    | (Ret _, st1) =>
        (Throw (VObj (length (heap st1))),
         setHeap (heap st1 ++ [errorObject Red "TypeError" VUndefined]) st1)
    | (Throw e, st1) => (Throw e, st1)
    end.
Proof.
  exact (construct_requires_newTarget 0 (fun _ _ _ => ret VNull) ret
           (fun _ _ _ => ret VNull) (fun _ _ => ret VNull)
           (createRedProxy (VObj 1) widgetSandbox).2
           4 _ 3 _ (VObj 9) eq_refl eq_refl).
Defined.


(** ** C2: the error boundary *)





(** C2, where the code departs from it.  [message] and [constructor]
    are read off the failure before the inner [try] is entered, so what
    these reads raise is not caught.  A host function raises a host
    [Proxy] (cell 4) whose [get] trap raises the host [RangeError] of
    cell 3: the apply trap and the construct trap raise that host object
    itself, unconverted, and allocate nothing.  A host function raises
    [null]: the trap raises a red [TypeError] without a message, built
    neither from the failure nor by the counterpart of its
    constructor. *)
Theorem error_boundary_leak :
  redProxyApplyTrap 0 (throwingHook (VObj 4)) ret engineGet quietConstruct
    (VObj 2) VUndefined VUndefined leakSandbox
  = (Throw (VObj 3), leakSandbox)
  /\ redProxyConstructTrap 0 (throwingHook (VObj 4)) ret engineGet quietConstruct
       (VObj 2) VUndefined (VObj 2) leakSandbox
     = (Throw (VObj 3), leakSandbox)
  /\ o_class <$> heap leakSandbox !! 3
     = Some (ClsError Blue "RangeError" (VStr "x"))
  /\ redProxyApplyTrap 0 (throwingHook VNull) ret engineGet quietConstruct
       (VObj 2) VUndefined VUndefined rangeErrorSandbox
     = (Throw (VObj 4),
        setHeap (heap rangeErrorSandbox ++ [errorObject Red "TypeError" VUndefined])
                rangeErrorSandbox).
Proof. repeat split; vm_compute; reflexivity. Qed.

(** ** Cells the factory does not write

    The conversion of a value reads host objects and allocates; the only
    cell whose attributes, parent or extensibility it writes is the
    shadow target it has just allocated. *)

Lemma sameBody_refl o : sameBody o o.
Proof. done. Qed.

Lemma sameBody_trans o1 o2 o3 : sameBody o1 o2 -> sameBody o2 o3 -> sameBody o1 o3.
Proof. intros (?&?&?) (?&?&?). repeat split; congruence. Qed.

Lemma bodiesKept_refl P st : bodiesKept P st st.
Proof. intros l o _ Ho. eauto using sameBody_refl. Qed.

Lemma bodiesKept_trans P st1 st2 st3 :
  bodiesKept P st1 st2 -> bodiesKept P st2 st3 -> bodiesKept P st1 st3.
Proof.
  intros H1 H2 l o HP Ho.
  destruct (H1 _ _ HP Ho) as (o' & Ho' & S1).
  destruct (H2 _ _ HP Ho') as (o'' & Ho'' & S2).
  eauto using sameBody_trans.
Qed.

Lemma quietOn_ret {A} P (a : A) : quietOn P (ret a).
Proof. intros st. apply bodiesKept_refl. Qed.

Lemma quietOn_throw {A} P e : quietOn P (@throw A e).
Proof. intros st. apply bodiesKept_refl. Qed.

Lemma quietOn_gets {A} P (f : state -> A) : quietOn P (gets f).
Proof. intros st. apply bodiesKept_refl. Qed.

Lemma quietOn_bind {A B} P (m : M A) (k : A -> M B) :
  quietOn P m -> (forall a, quietOn P (k a)) -> quietOn P (bind m k).
Proof.
  intros Hm Hk st. unfold bind. specialize (Hm st).
  destruct (m st) as [[a|e] st1]; simpl in *; [|done].
  eapply bodiesKept_trans; [exact Hm|apply Hk].
Qed.

Lemma quietOn_tryCatch {A} P (m : M A) h :
  quietOn P m -> (forall e, quietOn P (h e)) -> quietOn P (tryCatch m h).
Proof.
  intros Hm Hh st. unfold tryCatch. specialize (Hm st).
  destruct (m st) as [[a|e] st1]; simpl in *; [done|].
  eapply bodiesKept_trans; [exact Hm|apply Hh].
Qed.

Lemma quietOn_guarded {A} P (m : M A) meta k :
  quietOn P m -> (forall a, quietOn P (k a)) -> quietOn P (guarded m meta k).
Proof.
  intros Hm Hk st. unfold guarded. specialize (Hm st).
  destruct (m st) as [[a|e] st1]; simpl in *; [|done].
  eapply bodiesKept_trans; [exact Hm|apply Hk].
Qed.

Lemma quietOn_mapM {A B} P (f : A -> M B) xs :
  (forall x, quietOn P (f x)) -> quietOn P (mapM f xs).
Proof.
  intros Hf. induction xs as [|x xs IH]; simpl; [apply quietOn_ret|].
  apply quietOn_bind; [apply Hf|]. intros y.
  apply quietOn_bind; [apply IH|]. intros ys. apply quietOn_ret.
Qed.

Lemma quietOn_forEach {A} P (f : A -> M unit) xs :
  (forall x, quietOn P (f x)) -> quietOn P (forEach f xs).
Proof.
  intros Hf. induction xs as [|x xs IH]; simpl; [apply quietOn_ret|].
  apply quietOn_bind; [apply Hf|]. intros _. apply IH.
Qed.

Lemma bodiesKept_alloc P st o : bodiesKept P st (setHeap (heap st ++ [o]) st).
Proof.
  intros l o' _ Ho'. exists o'. split; [|done]. simpl.
  rewrite lookup_app_l; [done|]. by eapply lookup_lt_Some.
Qed.

Lemma quietOn_alloc P o : quietOn P (alloc o).
Proof. intros st. apply bodiesKept_alloc. Qed.

Lemma quietOn_throwRed {A} P name msg : quietOn P (@throwRed A name msg).
Proof. intros st. apply bodiesKept_alloc. Qed.

Lemma quietOn_throwBlue {A} P name msg : quietOn P (@throwBlue A name msg).
Proof. intros st. apply bodiesKept_alloc. Qed.

Lemma bodiesKept_setObj P st l o o' :
  heap st !! l = Some o -> (P l -> sameBody o o') ->
  bodiesKept P st (setObj l o' st).
Proof.
  intros Ho Hs l' o0 HP Ho0. simpl. destruct (decide (l = l')) as [->|Hne].
  - exists o'. rewrite list_lookup_insert_eq by (by eapply lookup_lt_Some).
    split; [done|]. replace o0 with o by congruence. auto.
  - exists o0. by rewrite list_lookup_insert_ne.
Qed.

Lemma sameBody_countDown op o : sameBody o (countDown op o).
Proof.
  unfold countDown. destruct (o_class o); try done.
  destruct (trapLookup op traps) as [[e|[|n]|f]|]; done.
Qed.

Lemma quietOn_internalRead {A} P op target (run : obj -> A) :
  quietOn P (internalRead op target run).
Proof.
  intros st. unfold internalRead.
  destruct target as [| | | | | |l]; try apply bodiesKept_alloc.
  destruct (heap st !! l) as [o|] eqn:Ho; [|apply bodiesKept_alloc].
  destruct (o_class o); try apply bodiesKept_alloc;
    (destruct (trapOf o op) as [[e|n|f]|]; simpl; try apply bodiesKept_refl;
     eapply bodiesKept_setObj; [done|]; intros _; apply sameBody_countDown).
Qed.

(** A write to a cell outside [P]. *)
Lemma quietOn_internalMethod {A} (P : loc -> Prop) op l (run : obj -> A * obj) refused :
  ~ P l -> quietOn P (internalMethod op (VObj l) run refused).
Proof.
  intros HP st. unfold internalMethod.
  destruct (heap st !! l) as [o|] eqn:Ho; [|apply bodiesKept_alloc].
  destruct (o_class o); try apply bodiesKept_alloc;
    (destruct (trapOf o op) as [[e|n|f]|]; simpl; try apply bodiesKept_refl;
     [eapply bodiesKept_setObj; [done|tauto]
     |destruct refused; simpl;
      [destruct f; [eapply bodiesKept_setObj; [done|tauto]|apply bodiesKept_refl]
      |eapply bodiesKept_setObj; [done|tauto]]
     |destruct refused; eapply bodiesKept_setObj; done || tauto]).
Qed.

Lemma bodiesKept_below st st1 st2 :
  bodiesKept anyCell st st1 ->
  bodiesKept (below (length (heap st))) st1 st2 ->
  bodiesKept anyCell st st2.
Proof.
  intros H1 H2 l o _ Ho.
  destruct (H1 _ _ I Ho) as (o1 & Ho1 & S1).
  assert (Hl : below (length (heap st)) l) by (by eapply lookup_lt_Some).
  destruct (H2 _ _ Hl Ho1) as (o2 & Ho2 & S2).
  eauto using sameBody_trans.
Qed.

Section FactoryQuiet.

Variable P : loc -> Prop.

Ltac qstep := first
  [ apply quietOn_ret | apply quietOn_throw | apply quietOn_gets
  | apply quietOn_throwRed | apply quietOn_throwBlue | apply quietOn_alloc
  | apply quietOn_internalRead
  | apply quietOn_bind; [|intros ?]
  | apply quietOn_tryCatch; [|intros ?]
  | apply quietOn_guarded; [|intros ?] ].

Lemma quietOn_hasProperty n t k : quietOn P (hasProperty n t k).
Proof.
  revert t. induction n as [|n IH]; intros t; simpl; [qstep|].
  qstep; [unfold Reflect.has; qstep|]. destruct a; [qstep|apply IH].
Qed.

Lemma quietOn_testKeys frozen t ks : quietOn P (testKeys frozen t ks).
Proof.
  induction ks as [|k ks IH]; simpl; [qstep|].
  qstep; [unfold Reflect.getOwnPropertyDescriptor; qstep|].
  destruct a as [d|]; [|done].
  case_bool_decide; [qstep|]. destruct (_ && _); [qstep|done].
Qed.

Lemma quietOn_collectDescriptors t ks : quietOn P (collectDescriptors t ks).
Proof.
  induction ks as [|k ks IH]; simpl; [qstep|].
  qstep; [unfold Reflect.getOwnPropertyDescriptor; qstep|].
  qstep; [done|]. qstep.
Qed.

Lemma quietOn_testIntegrityLevel frozen t :
  quietOn P (Object.testIntegrityLevel frozen t).
Proof.
  unfold Object.testIntegrityLevel. destruct t; try qstep.
  - unfold Reflect.isExtensible. qstep.
  - destruct a; [qstep|]. qstep; [unfold Reflect.ownKeys; qstep|].
    apply quietOn_testKeys.
Qed.

Lemma quietOn_isArray v : quietOn P (isArrayOrNotOrThrowForRevoked v).
Proof.
  intros st. unfold isArrayOrNotOrThrowForRevoked.
  destruct v; try apply bodiesKept_refl.
  destruct (heap st !! l) as [o|]; [|apply bodiesKept_refl].
  destruct (o_class o); try apply bodiesKept_refl. apply bodiesKept_alloc.
Qed.

Lemma quietOn_getTargetMeta t : quietOn P (getTargetMeta t).
Proof.
  unfold getTargetMeta.
  qstep; [unfold Reflect.getPrototypeOf; qstep|].
  qstep.
  { unfold Object.getOwnPropertyDescriptors.
    qstep; [unfold Reflect.ownKeys; qstep|apply quietOn_collectDescriptors]. }
  qstep.
  { unfold classifyLifecycle. qstep; [apply quietOn_testIntegrityLevel|].
    destruct a1; [qstep|]. qstep; [apply quietOn_testIntegrityLevel|].
    destruct a1; [qstep|]. qstep; [unfold Reflect.isExtensible; qstep|qstep]. }
  qstep; [apply quietOn_isArray|qstep].
Qed.

Lemma quietOn_getDistortedValue t : quietOn P (getDistortedValue t).
Proof. unfold getDistortedValue. qstep; [qstep|]. destruct (negb a); qstep. Qed.

Lemma quietOn_newFunctions :
  quietOn P newNormalFunction /\ quietOn P newArrowFunction /\ quietOn P newObject.
Proof.
  unfold newNormalFunction, newArrowFunction, newObject.
  repeat split; repeat qstep.
Qed.

Lemma quietOn_ProxyCreate s h : quietOn P (ProxyCreate s h).
Proof. unfold ProxyCreate. destruct s; repeat qstep. Qed.

Lemma quietOn_setRefMapEntries r b : quietOn P (setRefMapEntries r b).
Proof.
  intros st. unfold setRefMapEntries.
  destruct (regFailure st); [apply bodiesKept_refl|].
  destruct r as [| | | | | |lr]; try apply bodiesKept_alloc.
  destruct b as [| | | | | |lb]; try apply bodiesKept_alloc.
  intros l0 o _ Ho. exists o. done.
Qed.

Lemma quietOn_revoke p : quietOn P (revoke p).
Proof.
  intros st. unfold revoke. destruct p; try apply bodiesKept_refl.
  destruct (heap st !! l) as [o|] eqn:Ho; [|apply bodiesKept_refl].
  eapply bodiesKept_setObj; [done|]. done.
Qed.

Lemma quietOn_newArray es : quietOn P (newArray es).
Proof. unfold newArray. repeat qstep. Qed.

(** [renameFunction] writes its receiver only. *)
Lemma quietOn_renameFunction b f : ~ P f -> quietOn P (renameFunction b (VObj f)).
Proof.
  intros Hf. unfold renameFunction. qstep; [|qstep].
  qstep; [unfold Reflect.getOwnPropertyDescriptor; qstep|].
  destruct a; [|qstep]. qstep; [|qstep].
  unfold Reflect.defineProperty. destruct (_ && _); [qstep|].
  by apply quietOn_internalMethod.
Qed.

End FactoryQuiet.

Lemma newFunction_fresh (m : M value) st v st1 :
  m = newNormalFunction \/ m = newArrowFunction ->
  m st = (Ret v, st1) -> exists f, v = VObj f /\ length (heap st) <= f.
Proof.
  intros [->| ->]; unfold newNormalFunction, newArrowFunction, bind, alloc, ret;
    simpl; intros [= <- <-]; eexists; split; try done.
  rewrite length_app. lia.
Qed.

Lemma quiet_createRedShadowTarget blue : quietOn anyCell (createRedShadowTarget blue).
Proof.
  intros st. unfold createRedShadowTarget, bind at 1, gets at 1.
  destruct (isFunction st blue); [|apply quietOn_newFunctions].
  set (block := tryCatch
      (n <- gets (fun st => length (heap st)) ;;
       hasPrototype <- hasProperty n blue (KStr "prototype") ;;
       if hasPrototype then newNormalFunction else newArrowFunction)
      (fun _ => newArrowFunction)).
  assert (Hq : bodiesKept anyCell st (block st).2).
  { apply quietOn_tryCatch; [|intros; apply quietOn_newFunctions].
    apply quietOn_bind; [apply quietOn_gets|intros n].
    apply quietOn_bind; [apply quietOn_hasProperty|intros [|]];
      apply quietOn_newFunctions. }
  assert (Hfresh : forall v, (block st).1 = Ret v ->
            exists f, v = VObj f /\ length (heap st) <= f).
  { unfold block, tryCatch, bind at 1, gets at 1, bind at 1.
    pose proof (respects_hasProperty (length (heap st)) blue (KStr "prototype") st)
      as Hev.
    destruct (hasProperty _ _ _ st) as [[[|]|e] st0] eqn:Hhp; simpl in *;
      intros v [= <-]; eexists; (split; [reflexivity|]);
      destruct Hev; rewrite ?length_app; simpl; lia. }
  unfold bind. destruct (block st) as [[v|e] st1]; simpl in *; [|done].
  destruct (Hfresh v eq_refl) as (f & -> & Hf).
  assert (Hrn : bodiesKept (below (length (heap st))) st1
                  (renameFunction blue (VObj f) st1).2).
  { apply quietOn_renameFunction. unfold below. lia. }
  destruct (renameFunction blue (VObj f) st1) as [[[]|e] st2]; simpl in *;
    eapply bodiesKept_below; eauto.
Qed.

Section ConversionQuiet.

Ltac qstep := first
  [ apply quietOn_ret | apply quietOn_throw | apply quietOn_gets
  | apply quietOn_throwRed | apply quietOn_alloc
  | apply quietOn_internalRead
  | apply quiet_createRedShadowTarget | apply quietOn_ProxyCreate
  | apply quietOn_setRefMapEntries | apply quietOn_revoke
  | apply quietOn_getTargetMeta | apply quietOn_getDistortedValue
  | apply quietOn_newArray
  | apply quietOn_bind; [|intros ?]
  | apply quietOn_tryCatch; [|intros ?] ].

Lemma quiet_createRedProxy blue : quietOn anyCell (createRedProxy blue).
Proof.
  unfold createRedProxy, getRevokedRedProxy, ErrorCreate.
  qstep; [qstep|]. qstep; [qstep|]. qstep.
  - destruct (meta_isBroken a0); repeat qstep.
  - repeat qstep.
Qed.

Lemma quiet_getRedFunction blue : quietOn anyCell (getRedFunction blue).
Proof.
  unfold getRedFunction. qstep; [qstep|].
  destruct (isUndefined a); [apply quiet_createRedProxy|qstep].
Qed.

Lemma quiet_getRedValueAt depth blue : quietOn anyCell (getRedValueAt depth blue).
Proof.
  revert blue. induction depth as [|n IH]; intros blue; simpl; [qstep|].
  destruct (isNullOrUndefined blue); [qstep|].
  qstep; [qstep|].
  assert (Hrest : quietOn anyCell (convertObject n a blue)).
  { unfold convertObject. qstep.
    - qstep; [|qstep]. qstep; [apply quietOn_isArray|qstep].
    - destruct a0 as [[|]|].
      + unfold getRedArrayWith, arrayElements. qstep; [qstep|].
        qstep; [by apply quietOn_mapM|]. repeat qstep.
      + destruct a; [qstep| |qstep|qstep]. qstep; [qstep|].
        destruct (isUndefined a); [apply quiet_createRedProxy|qstep].
      + apply quiet_createRedProxy. }
  destruct a; try exact Hrest; [qstep|apply quiet_getRedFunction].
Qed.

Lemma quiet_getRedDescriptor stack d : quietOn anyCell (getRedDescriptor stack d).
Proof.
  unfold getRedDescriptor. destruct (isSome (d_writable d)).
  - qstep; [qstep|]. qstep; [|qstep].
    destruct a; [apply quiet_getRedFunction|apply quiet_getRedValueAt].
  - qstep; [qstep|]. qstep.
    + destruct a; [|qstep]. qstep; [apply quiet_getRedFunction|qstep].
    + qstep; [qstep|]. destruct a1; [|qstep].
      qstep; [apply quiet_getRedFunction|qstep].
Qed.

End ConversionQuiet.

(** ** When a conversion returns

    A conversion raises when the registration fails, when a distortion
    entry names something that is no object, or when arrays are nested
    deeper than the call stack allows (or are read through a proxy). *)

Lemma healthy_evolves st st' : evolves st st' -> healthy st -> healthy st'.
Proof.
  intros Hev [Hreg Hd]. split.
  - by rewrite (ev_reg _ _ Hev).
  - rewrite (ev_dist _ _ Hev). exact Hd.
Qed.

Lemma fits_evolves n st st' v :
  evolves st st' -> fits n (heap st) v = true -> fits n (heap st') v = true.
Proof.
  intros Hev. revert v. induction n as [|n IH]; intros v; simpl; [done|].
  destruct v as [| | | | | |l]; try done.
  destruct (heap st !! l) as [o|] eqn:Ho; [|done].
  destruct (ev_cell _ _ Hev _ _ Ho) as (o' & Ho' & _ & Hel & Hcls & _).
  rewrite Ho', Hel. destruct (o_elems o) as [es|]; [|done].
  intros [Hc Hes]%andb_prop. apply bool_decide_eq_true_1 in Hc.
  rewrite Hc in Hcls. simpl in Hcls. rewrite Hcls. simpl.
  apply forallb_forall. intros x Hx. apply IH.
  rewrite forallb_forall in Hes. by apply Hes.
Qed.

Lemma fits_mono n h v : fits n h v = true -> fits (S n) h v = true.
Proof.
  revert v. induction n as [|n IH]; intros v; [done|].
  intros H. simpl in *.
  destruct v as [| | | | | |l]; try done.
  destruct (h !! l) as [o|]; [|done].
  destruct (o_elems o) as [es|]; [|done].
  apply andb_prop in H as [Hc Hes]. rewrite Hc. simpl.
  apply forallb_forall. intros x Hx. apply IH.
  rewrite forallb_forall in Hes. by apply Hes.
Qed.

Lemma createRedProxy_total blue st :
  healthy st -> (exists l, blue = VObj l) ->
  exists p st', createRedProxy blue st = (Ret (VObj p), st').
Proof.
  intros [Hreg Hdist] [l ->].
  assert (Hd : exists b, distorted st (VObj l) = VObj b).
  { unfold distorted. simpl. destruct (distortionMap st !! l) as [v|] eqn:E; simpl.
    - exact (Hdist _ _ E).
    - eauto. }
  destruct Hd as [b Hd].
  unfold createRedProxy.
  rewrite (bind_Ret _ _ _ _ _ (getDistortedValue_run (VObj l) st)), Hd.
  pose proof (respects_getTargetMeta (VObj b) st) as Hev1.
  destruct (getTargetMeta_total (VObj b) st) as [meta Htot].
  destruct (getTargetMeta (VObj b) st) as [[meta'|e] st1] eqn:Hgm;
    simpl in Htot; [|done].
  injection Htot as ->. simpl in Hev1.
  rewrite (bind_Ret _ _ _ _ _ Hgm).
  assert (Hreg1 : regFailure st1 = None) by (by rewrite (ev_reg _ _ Hev1)).
  assert (Hfinish : forall p st2, regFailure st2 = None ->
            exists st', (tryCatch (setRefMapEntries (VObj p) (VObj b))
                           (fun _ => e <- ErrorCreate "Internal Error" ;; throw e) ;;;
                         ret (VObj p)) st2 = (Ret (VObj p), st')).
  { intros p st2 H2. unfold bind, tryCatch, setRefMapEntries, ret.
    rewrite H2. eauto. }
  destruct (meta_isBroken meta).
  - destruct (getRevokedRedProxy_run b st1 Hreg1) as (p & st2 & o & Hrun & _).
    pose proof (proj1 (proj1 (getRevokedRedProxy_mints (VObj b) st1))) as Hev2.
    rewrite Hrun in Hev2. simpl in Hev2.
    rewrite (bind_Ret _ _ _ _ _ Hrun).
    destruct (Hfinish p st2) as [st' H']; [by rewrite (ev_reg _ _ Hev2)|].
    eauto.
  - pose proof (respects_createRedShadowTarget (VObj b) st1) as Hev2.
    destruct (createRedShadowTarget_total (VObj b) st1) as (s & st2 & Hs).
    rewrite Hs in Hev2. simpl in Hev2.
    destruct (ProxyCreate_run s (handlerFor (VObj b) meta) st2) as [fn Hpc].
    assert (Hbranch :
      (shadowTarget <- createRedShadowTarget (VObj b) ;;
       ProxyCreate shadowTarget (handlerFor (VObj b) meta)) st1
      = (Ret (VObj (length (heap st2))),
         setHeap (heap st2 ++ [plainObject fn []
                                 (ClsWrapper s (handlerFor (VObj b) meta))]) st2)).
    { by rewrite (bind_Ret _ _ _ _ _ Hs). }
    unfold handlerFor in Hbranch.
    rewrite (bind_Ret _ _ _ _ _ Hbranch).
    edestruct Hfinish as [st' H']; [|eauto].
    simpl. by rewrite (ev_reg _ _ Hev2).
Qed.

Lemma getRedFunction_total blue st :
  healthy st -> (exists l, blue = VObj l) ->
  exists g st', getRedFunction blue st = (Ret g, st').
Proof.
  intros Hh Hb. unfold getRedFunction, bind at 1, gets at 1.
  destruct (isUndefined _); [|unfold ret; eauto].
  destruct (createRedProxy_total blue st Hh Hb) as (p & st' & H). eauto.
Qed.

Lemma mapM_total {A B} (f : A -> M B) (ok : state -> A -> Prop) (good : state -> Prop) :
  (forall st x, good st -> ok st x ->
     exists y st', f x st = (Ret y, st') /\ good st'
                   /\ forall x', ok st x' -> ok st' x') ->
  forall xs st, good st -> Forall (ok st) xs ->
    exists ys st', mapM f xs st = (Ret ys, st') /\ good st'
                   /\ (forall x', ok st x' -> ok st' x')
                   /\ length ys = length xs.
Proof.
  intros Hf xs. induction xs as [|x xs IH]; intros st Hg Hall; simpl.
  - exists [], st. unfold ret. auto.
  - apply Forall_cons in Hall as [Hx Hxs].
    destruct (Hf st x Hg Hx) as (y & st1 & Hy & Hg1 & Hok1).
    rewrite (bind_Ret _ _ _ _ _ Hy).
    destruct (IH st1 Hg1) as (ys & st2 & Hys & Hg2 & Hok2 & Hlen).
    { eapply Forall_impl; [exact Hxs|]. simpl. auto. }
    rewrite (bind_Ret _ _ _ _ _ Hys). exists (y :: ys), st2.
    unfold ret. simpl. repeat split; auto.
Qed.

Lemma typeOf_VObj st v : typeOf st v = TyFunction -> exists l, v = VObj l.
Proof. destruct v; try done. eauto. Qed.

(** Within the stack, on a healthy broker, [getRedValue] returns. *)
Lemma getRedValueAt_total n v st :
  healthy st -> fits n (heap st) v = true ->
  exists g st', getRedValueAt n v st = (Ret g, st').
Proof.
  revert v st. induction n as [|n IH]; intros v st Hh Hfit; [done|].
  unfold getRedValueAt; fold getRedValueAt.
  destruct (isNullOrUndefined v) eqn:Hnu; [unfold ret; eauto|].
  unfold bind at 1, gets at 1.
  assert (Hlookup : forall l st0, healthy st0 ->
            exists g st',
              (red <- gets (fun st => WeakMapGet (blueMap st) (VObj l)) ;;
               if isUndefined red then createRedProxy (VObj l) else ret red) st0
              = (Ret g, st')).
  { intros l st0 H0. unfold bind, gets.
    destruct (isUndefined _); [|unfold ret; eauto].
    destruct (createRedProxy_total (VObj l) st0 H0) as (p & st' & H); eauto. }
  assert (Hconv : typeOf st v = TyObject \/ typeOf st v = TyPrimitive ->
            exists g st', convertObject n (typeOf st v) v st = (Ret g, st')).
  { intros Hty. unfold convertObject, bind at 1, tryCatch, bind at 1,
      isArrayOrNotOrThrowForRevoked.
    destruct v as [| | | | | |l]; try (by vm_compute in Hnu);
      try (simpl; unfold ret; eauto; fail).
    simpl in Hfit.
    destruct (heap st !! l) as [o|] eqn:Ho; [|done].
    assert (Hcreate : forall st0, evolves st st0 ->
              exists g st', createRedProxy (VObj l) st0 = (Ret g, st')).
    { intros st0 Hev.
      destruct (createRedProxy_total (VObj l) st0) as (p & st' & H); eauto.
      by eapply healthy_evolves. }
    assert (Hplainpath :
      o_elems o = None ->
      exists g st',
        match typeOfObj o with
        | TyObject =>
            red <- gets (fun st => WeakMapGet (blueMap st) (VObj l)) ;;
            if isUndefined red then createRedProxy (VObj l) else ret red
        | _ => ret (VObj l)
        end st = (Ret g, st')).
    { intros _. destruct (typeOfObj o); unfold ret; eauto. }
    assert (Hto : typeOf st (VObj l) = typeOfObj o) by (simpl; by rewrite Ho).
    rewrite Hto in *.
    destruct (o_class o) eqn:Hc;
      try (simpl; destruct (o_elems o) as [es|] eqn:Hes; simpl;
           [apply andb_prop in Hfit as [Hplain _];
            apply bool_decide_eq_true_1 in Hplain; congruence
           |by apply Hplainpath]).
    + (* an ordinary cell *)
      simpl. destruct (o_elems o) as [es|] eqn:Hes; simpl;
        [|by apply Hplainpath].
      apply andb_prop in Hfit as [_ Hall].
      unfold getRedArrayWith, arrayElements.
      assert (Hread : internalRead OpGet (VObj l)
                        (fun o => default [] (o_elems o)) st = (Ret es, st)).
      { unfold internalRead, trapOf. rewrite Ho, Hc, Hes. done. }
      rewrite (bind_Ret _ _ _ _ _ Hread).
      destruct (mapM_total (getRedValueAt n)
                  (fun st0 x => fits n (heap st0) x = true) healthy) with
        (xs := es) (st := st) as (gs & st1 & Hgs & _).
      * intros st0 x H0 Hx. destruct (IH x st0 H0 Hx) as (g & st' & Hg).
        pose proof (respects_getRedValueAt n x st0) as Hev.
        rewrite Hg in Hev. simpl in Hev.
        exists g, st'. split; [done|]. split; [by eapply healthy_evolves|].
        intros x'. by apply fits_evolves.
      * done.
      * apply Forall_forall. intros x Hx. rewrite forallb_forall in Hall.
        apply Hall. by apply list_elem_of_In.
      * rewrite (bind_Ret _ _ _ _ _ Hgs).
        unfold newArray, bind, alloc, ret. eauto.
    + (* a revoked proxy *)
      unfold throwRed, bind, alloc, throw, ret. simpl.
      apply Hcreate. apply evolves_alloc. }
  destruct (typeOf st v) eqn:Hty.
  - unfold ret; eauto.
  - apply Hconv. auto.
  - apply getRedFunction_total; [done|]. by eapply typeOf_VObj.
  - apply Hconv. auto.
Qed.

(** ** The lock-down walk *)

Lemma isFunction_VObj st v : isFunction st v = true -> exists l, v = VObj l.
Proof.
  unfold isFunction. intros H. apply bool_decide_eq_true_1 in H.
  by eapply typeOf_VObj.
Qed.

Lemma getRedDescriptor_total stack p st :
  healthy st -> propFits stack (heap st) p = true ->
  exists rd st', getRedDescriptor stack (fromProp p) st = (Ret rd, st')
                 /\ unmixed rd.
Proof.
  intros Hh Hfit. unfold getRedDescriptor.
  destruct p as [v wr en cf|g s en cf]; simpl.
  - unfold bind at 1, gets at 1.
    assert (Hv : exists gv st',
              (if isFunction st v then getRedFunction v else getRedValue stack v) st
              = (Ret gv, st')).
    { destruct (isFunction st v) eqn:Hf.
      - apply getRedFunction_total; [done|]. by eapply isFunction_VObj.
      - by apply getRedValueAt_total. }
    destruct Hv as (gv & st' & Hv). rewrite (bind_Ret _ _ _ _ _ Hv).
    unfold ret. eexists _, _. split; [reflexivity|]. done.
  - unfold bind at 1, gets at 1.
    assert (Hs : exists rd1 st1,
              (if isFunction st s
               then s0 <- getRedFunction s ;;
                    ret (setSet s0 (Descriptor None None (Some g) (Some s)
                                               (Some en) (Some cf)))
               else ret (Descriptor None None (Some g) (Some s) (Some en) (Some cf)))
                st = (Ret rd1, st1)
              /\ evolves st st1
              /\ d_value rd1 = None /\ d_writable rd1 = None
              /\ d_get rd1 = Some g).
    { destruct (isFunction st s) eqn:Hf.
      - destruct (getRedFunction_total s st Hh (isFunction_VObj _ _ Hf))
          as (gs & st1 & Hgs).
        pose proof (respects_getRedFunction s st) as Hev.
        rewrite Hgs in Hev. rewrite (bind_Ret _ _ _ _ _ Hgs).
        unfold ret. eexists _, _. split; [reflexivity|]. done.
      - unfold ret. eexists _, _. split; [reflexivity|].
        split; [apply evolves_refl|done]. }
    destruct Hs as (rd1 & st1 & Hs & Hev & Hv1 & Hw1 & Hg1).
    rewrite (bind_Ret _ _ _ _ _ Hs).
    unfold bind at 1, gets at 1.
    destruct (isFunction st1 g) eqn:Hf.
    + destruct (getRedFunction_total g st1 (healthy_evolves _ _ Hev Hh)
                  (isFunction_VObj _ _ Hf)) as (gg & st2 & Hgg).
      rewrite (bind_Ret _ _ _ _ _ Hgg). unfold ret.
      eexists _, _. split; [reflexivity|].
      unfold unmixed, isAccessorDescriptor, isDataDescriptor. simpl.
      by rewrite Hv1, Hw1.
    + unfold ret. eexists _, _. split; [reflexivity|].
      unfold unmixed, isAccessorDescriptor, isDataDescriptor.
      by rewrite Hv1, Hw1, Hg1.
Qed.

Lemma propFits_evolves stack st st' p :
  evolves st st' -> propFits stack (heap st) p = true ->
  propFits stack (heap st') p = true.
Proof. intros Hev. destruct p; [apply fits_evolves; done|done]. Qed.

(** Defining [k] on an ordinary, extensible cell leaves [k] among its keys
    and changes no other key. *)
Lemma define_keys k d o :
  o_ext o = true ->
  let o' := (ordinaryDefineOwnProperty k d o).2 in
  o_ext o' = true /\ o_class o' = o_class o
  /\ forall k', In k' (keysOf (o_props o')) <-> k' = k \/ In k' (keysOf (o_props o)).
Proof.
  intros Hext. unfold ordinaryDefineOwnProperty, validateAndApply. rewrite Hext.
  destruct (lookupProp k (o_props o)) as [cur|] eqn:Hcur.
  - pose proof (lookupProp_Some_In _ _ _ Hcur) as Hin.
    destruct (compatible cur d); simpl.
    + repeat split; try done; rewrite keysOf_storeProp; tauto.
    + repeat split; try done; intuition (subst; auto).
  - simpl. repeat split; try done; rewrite keysOf_storeProp; tauto.
Qed.

Lemma copyBlueDescriptor_walk stack s b ob keys k st :
  s <> b ->
  In k (keysOf (o_props ob)) ->
  walking stack s b ob keys st ->
  exists st',
    copyBlueDescriptorIntoShadowTarget stack (VObj s) (VObj b) k st = (Ret tt, st')
    /\ evolves st st'
    /\ walking stack s b ob (keys ++ [k]) st'.
Proof.
  intros Hsb Hk [Hh (os & Hos & Hcs & Hes & Hks) (ob' & Hob & Hcb & Hpb) Hfits].
  assert (Hp : exists p, lookupProp k (o_props ob) = Some p).
  { destruct (lookupProp k (o_props ob)) eqn:E; [eauto|].
    by apply lookupProp_None_notin in E. }
  destruct Hp as [p Hp].
  unfold copyBlueDescriptorIntoShadowTarget.
  assert (Hread : Reflect.getOwnPropertyDescriptor (VObj b) k st
                  = (Ret (Some (fromProp p)), st)).
  { unfold Reflect.getOwnPropertyDescriptor, internalRead, trapOf.
    rewrite Hob, Hcb, Hpb, Hp. done. }
  rewrite (bind_Ret _ _ _ _ _ Hread).
  destruct (getRedDescriptor_total stack p st Hh (Hfits _ _ Hp))
    as (rd & st1 & Hrd & Hun).
  pose proof (respects_getRedDescriptor stack (fromProp p) st) as Hev.
  pose proof (quiet_getRedDescriptor stack (fromProp p) st) as Hq.
  rewrite Hrd in Hev, Hq. simpl in Hev, Hq.
  rewrite (bind_Ret _ _ _ _ _ Hrd).
  destruct (Hq _ _ I Hos) as (os1 & Hos1 & Hp1 & He1 & _).
  destruct (ev_cell _ _ Hev _ _ Hos) as (os1' & Hos1' & _ & _ & Hcl1 & _).
  assert (os1' = os1) as -> by congruence.
  rewrite Hcs in Hcl1. simpl in Hcl1.
  destruct (Hq _ _ I Hob) as (ob1 & Hob1 & Hpb1 & _).
  destruct (ev_cell _ _ Hev _ _ Hob) as (ob1' & Hob1' & _ & _ & Hclb & _).
  assert (ob1' = ob1) as -> by congruence.
  rewrite Hcb in Hclb. simpl in Hclb.
  destruct (define_keys k rd os1) as (Hext' & Hcls' & Hkeys'); [congruence|].
  assert (Hdef : Reflect.defineProperty (VObj s) k rd st1
                 = (Ret (ordinaryDefineOwnProperty k rd os1).1,
                    setObj s (ordinaryDefineOwnProperty k rd os1).2 st1)).
  { unfold Reflect.defineProperty. unfold unmixed in Hun. rewrite Hun.
    unfold internalMethod, trapOf. rewrite Hos1, Hcl1. done. }
  rewrite (bind_Ret _ _ _ _ _ Hdef). unfold ret.
  eexists. split; [reflexivity|].
  assert (Hev2 : evolves st1 (setObj s (ordinaryDefineOwnProperty k rd os1).2 st1)).
  { eapply evolves_setObj; [exact Hos1|].
    apply (plainUpdate_cellStep (ordinaryDefineOwnProperty k rd)), plainUpdate_define. }
  split; [eapply evolves_trans; eauto|].
  split.
  - eapply healthy_evolves; [|exact Hh]. eapply evolves_trans; eauto.
  - eexists. split; [simpl; apply list_lookup_insert_eq; by eapply lookup_lt_Some|].
    split; [congruence|]. split; [done|].
    intros k'. rewrite Hkeys', Hp1, Hks, in_app_iff. simpl. intuition.
  - exists ob1. split; [simpl; rewrite list_lookup_insert_ne; done|].
    split; [done|congruence].
  - intros k' p' Hp'. eapply propFits_evolves; [|by eapply Hfits].
    eapply evolves_trans; eauto.
Qed.

Lemma forEach_walk stack s b ob ks : forall keys st,
  s <> b ->
  (forall k, In k ks -> In k (keysOf (o_props ob))) ->
  walking stack s b ob keys st ->
  exists st',
    forEach (copyBlueDescriptorIntoShadowTarget stack (VObj s) (VObj b)) ks st
    = (Ret tt, st')
    /\ evolves st st'
    /\ walking stack s b ob (keys ++ ks) st'.
Proof.
  induction ks as [|k ks IH]; intros keys st Hsb Hin Hw; simpl.
  - exists st. rewrite app_nil_r. split; [done|]. split; [apply evolves_refl|done].
  - destruct (copyBlueDescriptor_walk stack s b ob keys k st Hsb) as (st1 & H1 & Hev1 & Hw1);
      [apply Hin; by left|done|].
    rewrite (bind_Ret _ _ _ _ _ H1).
    destruct (IH (keys ++ [k]) st1 Hsb) as (st2 & H2 & Hev2 & Hw2);
      [intros k' Hk'; apply Hin; by right|done|].
    exists st2. rewrite <- app_assoc in Hw2. simpl in Hw2.
    split; [done|]. split; [eapply evolves_trans; eauto|done].
Qed.

(** The lock-down of the shadow target of an ordinary host returns; the
    shadow target is then locked, and its keys are the keys it had
    together with the own keys of the host. *)
Lemma lockShadowTarget_walk stack s b os ob st :
  s <> b ->
  healthy st ->
  heap st !! s = Some os -> o_class os = ClsPlain -> o_ext os = true ->
  heap st !! b = Some ob -> o_class ob = ClsPlain ->
  (forall k p, lookupProp k (o_props ob) = Some p ->
     propFits stack (heap st) p = true) ->
  exists st' os',
    lockShadowTarget stack (VObj s) (VObj b) st = (Ret tt, st')
    /\ evolves st st'
    /\ heap st' !! s = Some os' /\ o_class os' = ClsPlain /\ o_ext os' = false
    /\ (forall k, In k (keysOf (o_props os'))
                  <-> In k (keysOf (o_props os)) \/ In k (keysOf (o_props ob)))
    /\ exists ob', heap st' !! b = Some ob' /\ o_class ob' = ClsPlain
                   /\ o_props ob' = o_props ob.
Proof.
  intros Hsb Hh Hos Hcs Hes Hob Hcb Hfits. unfold lockShadowTarget.
  assert (Hkeys : Reflect.ownKeys (VObj b) st = (Ret (keysOf (o_props ob)), st)).
  { unfold Reflect.ownKeys, internalRead, trapOf. rewrite Hob, Hcb. done. }
  rewrite (bind_Ret _ _ _ _ _ Hkeys).
  destruct (forEach_walk stack s b ob (keysOf (o_props ob))
              (keysOf (o_props os)) st Hsb) as (st1 & Hrun & Hev & Hw); [done| |].
  { split; [done|exists os; done|exists ob; done|done]. }
  rewrite (bind_Ret _ _ _ _ _ Hrun).
  destruct Hw as [_ (os1 & Hos1 & Hcs1 & Hes1 & Hks1) (ob1 & Hob1 & Hcb1 & Hpb1) _].
  assert (Hpe : Reflect.preventExtensions (VObj s) st1
                = (Ret true, setObj s (setExt false os1) st1)).
  { unfold Reflect.preventExtensions, internalMethod, trapOf.
    rewrite Hos1, Hcs1. done. }
  rewrite (bind_Ret _ _ _ _ _ Hpe). unfold ret.
  exists (setObj s (setExt false os1) st1), (setExt false os1).
  split; [done|]. split.
  - eapply evolves_trans; [exact Hev|].
    eapply evolves_setObj; [exact Hos1|]. repeat split. simpl. rewrite Hcs1. done.
  - split; [simpl; apply list_lookup_insert_eq; by eapply lookup_lt_Some|].
    split; [done|]. split; [done|]. split.
    + intros k. simpl. rewrite Hks1, in_app_iff. done.
    + exists ob1. split; [|done]. simpl.
      rewrite list_lookup_insert_ne; done.
Qed.

(** ** C8: the extensibility query of a dynamic proxy *)

Lemma dynamic_parts w o s t st :
  heap st !! w = Some o -> o_class o = ClsWrapper s (DynamicHandler t) ->
  shadowOf w st = (Ret (VObj s), st) /\ targetOf w st = (Ret t, st).
Proof.
  intros Ho Hc. unfold shadowOf, targetOf, bind, wrapperParts.
  rewrite Ho, Hc. done.
Qed.



(** ** C5: preventing extensions through a dynamic proxy *)

Lemma then_ret_inv {A} (m : M unit) (a r : A) st st' :
  (m ;;; ret a) st = (Ret r, st') -> r = a /\ m st = (Ret tt, st').
Proof.
  unfold bind, ret. destruct (m st) as [[[]|e] st1]; intros [=]; by subst.
Qed.

(** A host-side call that succeeds leaves the host non-extensible. *)
Lemma preventExtensions_true t st st1 :
  Reflect.preventExtensions t st = (Ret true, st1) ->
  exists l o1, t = VObj l /\ heap st1 !! l = Some o1 /\ o_ext o1 = false.
Proof.
  unfold Reflect.preventExtensions, internalMethod.
  destruct t as [| | | | | |l]; try (by intros [=]).
  destruct (heap st !! l) as [o|] eqn:Ho; [|by intros [=]].
  assert (Hlt : l < length (heap st)) by (by eapply lookup_lt_Some).
  destruct (o_class o); try (by intros [=]).
  all: destruct (trapOf o OpPreventExtensions) as [[e|n|fwd]|]; intros [= <-];
    eexists l, _; (split; [done|]); simpl;
    (split; [by apply list_lookup_insert_eq|]).
  all: try done.
  all: unfold countDown; simpl; by repeat case_match.
Qed.

(** C5 (as amended).  The prevent-extensions operation of a dynamic proxy
    [w] with shadow target [s] and host target [t]:
    (1) if the shadow target is already locked, it reports success and
    leaves the state untouched: no host-side call is attempted;
    (2) otherwise it attempts the host-side call, and
      (a) if that call succeeds, the host is then non-extensible, the
          lock-down walk runs and success is reported,
      (b) if it is refused and the host is then non-extensible, the
          lock-down walk runs and failure is reported,
      (c) if it is refused and the host is still extensible, failure is
          reported with no walk,
      (d) so whatever the trap reports is the outcome of the host-side
          call, and
      (e) if the host-side call raises, the trap raises the same;
    (3) on an ordinary host whose attribute values fit the stack, with a
    healthy broker and the shadow target not yet locked, the trap does
    return: it reports success, host and shadow target are then
    non-extensible, the shadow target's keys are the keys it had
    together with the host's own keys, and every later call reports
    success at once. *)
Theorem dynamic_preventExtensions (stack : nat) (st : state) (w s : loc)
    (o : obj) (t : value) :
  heap st !! w = Some o ->
  o_class o = ClsWrapper s (DynamicHandler t) ->
  let trap := RedDynamicProxyHandler_preventExtensions stack w in
  let walk := lockShadowTarget stack (VObj s) t in
  (Reflect.isExtensible (VObj s) st = (Ret false, st) ->
   trap st = (Ret true, st))
  /\ (Reflect.isExtensible (VObj s) st = (Ret true, st) ->
      (forall st1, Reflect.preventExtensions t st = (Ret true, st1) ->
         trap st = (walk ;;; ret true) st1
         /\ exists l o1, t = VObj l /\ heap st1 !! l = Some o1 /\ o_ext o1 = false)
      /\ (forall st1 st2, Reflect.preventExtensions t st = (Ret false, st1) ->
            Reflect.isExtensible t st1 = (Ret false, st2) ->
            trap st = (walk ;;; ret false) st2)
      /\ (forall st1 st2, Reflect.preventExtensions t st = (Ret false, st1) ->
            Reflect.isExtensible t st1 = (Ret true, st2) ->
            trap st = (Ret false, st2))
      /\ (forall ok st1 r st', Reflect.preventExtensions t st = (Ret ok, st1) ->
            trap st = (Ret r, st') -> r = ok)
      /\ (forall e st1, Reflect.preventExtensions t st = (Throw e, st1) ->
            trap st = (Throw e, st1)))
  /\ (forall b os ob,
        t = VObj b -> s <> b -> w <> s ->
        healthy st ->
        heap st !! s = Some os -> o_class os = ClsPlain -> o_ext os = true ->
        heap st !! b = Some ob -> o_class ob = ClsPlain ->
        (forall k p, lookupProp k (o_props ob) = Some p ->
           propFits stack (heap st) p = true) ->
        exists st' os' ob',
          trap st = (Ret true, st')
          /\ heap st' !! b = Some ob' /\ o_ext ob' = false
          /\ heap st' !! s = Some os' /\ o_ext os' = false
          /\ (forall k, In k (keysOf (o_props os'))
                        <-> In k (keysOf (o_props os)) \/ In k (keysOf (o_props ob)))
          /\ forall st'', evolves st' st'' -> trap st'' = (Ret true, st'')).
Proof.
  intros Ho Hc trap walk. subst trap walk.
  destruct (dynamic_parts _ _ _ _ _ Ho Hc) as [Hsh Htg].
  assert (Hlocked : forall st0 o0, heap st0 !! w = Some o0 ->
            o_class o0 = ClsWrapper s (DynamicHandler t) ->
            Reflect.isExtensible (VObj s) st0 = (Ret false, st0) ->
            RedDynamicProxyHandler_preventExtensions stack w st0 = (Ret true, st0)).
  { intros st0 o0 H0 Hc0 Hext. unfold RedDynamicProxyHandler_preventExtensions.
    destruct (dynamic_parts _ _ _ _ _ H0 Hc0) as [Hsh0 Htg0].
    rewrite (bind_Ret _ _ _ _ _ Hsh0), (bind_Ret _ _ _ _ _ Htg0).
    by rewrite (bind_Ret _ _ _ _ _ Hext). }
  assert (Hopen : Reflect.isExtensible (VObj s) st = (Ret true, st) ->
            RedDynamicProxyHandler_preventExtensions stack w st
            = (ok <- Reflect.preventExtensions t ;;
               if negb ok then
                 text <- Reflect.isExtensible t ;;
                 (if negb text then lockShadowTarget stack (VObj s) t else ret tt) ;;;
                 ret false
               else lockShadowTarget stack (VObj s) t ;;; ret true) st).
  { intros Hext. unfold RedDynamicProxyHandler_preventExtensions.
    rewrite (bind_Ret _ _ _ _ _ Hsh), (bind_Ret _ _ _ _ _ Htg).
    by rewrite (bind_Ret _ _ _ _ _ Hext). }
  split; [by apply (Hlocked st o)|]. split.
  { intros Hext. specialize (Hopen Hext). repeat split.
    - rewrite Hopen. by rewrite (bind_Ret _ _ _ _ _ H).
    - by apply preventExtensions_true in H.
    - intros st1 st2 Hhost Hquery. rewrite Hopen.
      rewrite (bind_Ret _ _ _ _ _ Hhost). simpl.
      by rewrite (bind_Ret _ _ _ _ _ Hquery).
    - intros st1 st2 Hhost Hquery. rewrite Hopen.
      rewrite (bind_Ret _ _ _ _ _ Hhost). simpl.
      by rewrite (bind_Ret _ _ _ _ _ Hquery).
    - intros ok st1 r st' Hhost. rewrite Hopen.
      rewrite (bind_Ret _ _ _ _ _ Hhost). destruct ok; simpl.
      + intros Hrun. by apply then_ret_inv in Hrun as [-> _].
      + unfold bind at 1.
        destruct (Reflect.isExtensible t st1) as [[text|e] st2]; [|by intros [=]].
        intros Hrun. by apply then_ret_inv in Hrun as [-> _].
    - intros e st1 Hhost. rewrite Hopen. by rewrite (bind_Throw _ _ _ _ _ Hhost). }
  intros b os ob -> Hsb Hws Hh Hos Hcs Hes Hob Hcb Hfits.
  assert (Hext : Reflect.isExtensible (VObj s) st = (Ret true, st)).
  { unfold Reflect.isExtensible, internalRead, trapOf. rewrite Hos, Hcs, Hes. done. }
  set (st1 := setObj b (setExt false ob) st).
  assert (Hhost : Reflect.preventExtensions (VObj b) st = (Ret true, st1)).
  { unfold Reflect.preventExtensions, internalMethod, trapOf. rewrite Hob, Hcb. done. }
  assert (Hev1 : evolves st st1).
  { eapply evolves_setObj; [exact Hob|]. repeat split. simpl. rewrite Hcb. done. }
  assert (Hob1 : heap st1 !! b = Some (setExt false ob)).
  { simpl. apply list_lookup_insert_eq. by eapply lookup_lt_Some. }
  assert (Hos1 : heap st1 !! s = Some os).
  { simpl. rewrite list_lookup_insert_ne; done. }
  destruct (lockShadowTarget_walk stack s b os (setExt false ob) st1 Hsb
              (healthy_evolves _ _ Hev1 Hh) Hos1 Hcs Hes Hob1 Hcb)
    as (st' & os' & Hrun & Hev & Hos' & Hcs' & Hes' & Hkeys & ob' & Hob' & Hcb' & Hpb').
  { intros k p Hp. eapply propFits_evolves; [exact Hev1|]. by eapply Hfits. }
  destruct (ev_cell _ _ Hev _ _ Hob1) as (ob2 & Hob2 & _ & _ & _ & Hx2).
  exists st', os', ob2.
  split; [rewrite (Hopen Hext), (bind_Ret _ _ _ _ _ Hhost); simpl;
          by rewrite (bind_Ret _ _ _ _ _ Hrun)|].
  split; [done|]. split; [by apply Hx2|]. split; [done|]. split; [done|].
  split; [done|].
  intros st'' Hev''.
  pose proof (evolves_trans _ _ _ Hev1 (evolves_trans _ _ _ Hev Hev'')) as Hall.
  destruct (ev_cell _ _ Hall _ _ Ho) as (o'' & Ho'' & _ & _ & Hcl'' & _).
  rewrite Hc in Hcl''. simpl in Hcl''.
  destruct (ev_cell _ _ Hev'' _ _ Hos') as (os'' & Hos'' & _ & _ & Hcls'' & Hx'').
  rewrite Hcs' in Hcls''. simpl in Hcls''.
  apply (Hlocked st'' o'' Ho'' Hcl'').
  unfold Reflect.isExtensible, internalRead, trapOf.
  rewrite Hos'', Hcls'', (Hx'' Hes'). done.
Qed.

(** C5 as stated does not hold: on the proxy of a refusing host, the
    first prevent-extensions reports failure and locks the shadow target;
    the second reports success, although the host-side call is not
    attempted and would be refused again. *)
Lemma preventExtensions_success_without_host :
  (createRedProxy (VObj 0) (sandboxOf refusingX)).1 = Ret (VObj 2)
  /\ (RedDynamicProxyHandler_preventExtensions 0 2 refusingSandbox).1 = Ret false
  /\ RedDynamicProxyHandler_preventExtensions 0 2 lockedSandbox
     = (Ret true, lockedSandbox)
  /\ Reflect.preventExtensions (VObj 0) lockedSandbox = (Ret false, lockedSandbox)
  /\ (preventExtensionsAsClaimed 0 2 lockedSandbox).1 = Ret false
  /\ ~ reportsHostOutcome 0 lockedSandbox 2 (VObj 0).
Proof.
  assert (Htrap : RedDynamicProxyHandler_preventExtensions 0 2 lockedSandbox
                  = (Ret true, lockedSandbox)) by (vm_compute; reflexivity).
  assert (Hhost : Reflect.preventExtensions (VObj 0) lockedSandbox
                  = (Ret false, lockedSandbox)) by (vm_compute; reflexivity).
  repeat split; try (vm_compute; reflexivity).
  intros Hclaim. destruct (Hclaim _ Htrap) as (st1 & Hst1).
  rewrite Hhost in Hst1. discriminate Hst1.
Qed.

Lemma dynamic_preventExtensions_witness :
  exists st' ob',
    RedDynamicProxyHandler_preventExtensions 0 2 openSandbox = (Ret true, st')
    /\ heap st' !! 0 = Some ob' /\ o_ext ob' = false
    /\ RedDynamicProxyHandler_preventExtensions 0 2 st' = (Ret true, st').
Proof.
  destruct (dynamic_preventExtensions 0 openSandbox 2 1 _ (VObj 0) eq_refl eq_refl)
    as (_ & _ & H).
  destruct (H 0 (plainObject NotCallable [] ClsPlain) openX eq_refl)
    as (st' & os' & ob' & Hrun & Hob' & Hext' & _ & _ & _ & Hlater);
    try reflexivity; try discriminate.
  - split; [reflexivity|]. intros l v Hl. discriminate Hl.
  - intros k p. simpl. repeat case_bool_decide; intros [= <-]; reflexivity.
  - exists st', ob'. split; [exact Hrun|]. split; [exact Hob'|].
    split; [exact Hext'|]. apply Hlater, evolves_refl.
Defined.

(** ** The identity map under the factory

    Apart from the registration call, the factory leaves the identity
    map as it is. *)

Lemma brokerFixed_ret {A} (a : A) : brokerFixed (ret a).
Proof. done. Qed.

Lemma brokerFixed_throw {A} (e : value) : brokerFixed (@throw A e).
Proof. done. Qed.

Lemma brokerFixed_gets {A} (f : state -> A) : brokerFixed (gets f).
Proof. done. Qed.

Lemma brokerFixed_alloc o : brokerFixed (alloc o).
Proof. done. Qed.

Lemma brokerFixed_bind {A B} (m : M A) (k : A -> M B) :
  brokerFixed m -> (forall a, brokerFixed (k a)) -> brokerFixed (bind m k).
Proof.
  intros Hm Hk st. unfold bind. specialize (Hm st).
  destruct (m st) as [[a|e] st1]; simpl in *; [|done].
  by rewrite Hk.
Qed.

Lemma brokerFixed_tryCatch {A} (m : M A) (h : value -> M A) :
  brokerFixed m -> (forall e, brokerFixed (h e)) -> brokerFixed (tryCatch m h).
Proof.
  intros Hm Hh st. unfold tryCatch. specialize (Hm st).
  destruct (m st) as [[a|e] st1]; simpl in *; [done|].
  by rewrite Hh.
Qed.

Lemma brokerFixed_throwRed {A} name msg : brokerFixed (@throwRed A name msg).
Proof. done. Qed.

Lemma brokerFixed_throwBlue {A} name msg : brokerFixed (@throwBlue A name msg).
Proof. done. Qed.

Lemma brokerFixed_internalRead {A} op target (run : obj -> A) :
  brokerFixed (internalRead op target run).
Proof.
  intros st. unfold internalRead.
  destruct target as [| | | | | |l]; try done.
  destruct (heap st !! l) as [o|]; [|done].
  destruct (o_class o); try done;
    destruct (trapOf o op) as [[e|n|fwd]|]; done.
Qed.

Lemma brokerFixed_internalMethod {A} op target (run : obj -> A * obj) refused :
  brokerFixed (internalMethod op target run refused).
Proof.
  intros st. unfold internalMethod.
  destruct target as [| | | | | |l]; try done.
  destruct (heap st !! l) as [o|]; [|done].
  destruct (o_class o); try done;
    destruct (trapOf o op) as [[e|n|fwd]|], refused; try done;
    destruct fwd; done.
Qed.

Section EngineBroker.

Ltac step := first
  [ apply brokerFixed_ret | apply brokerFixed_throw | apply brokerFixed_gets
  | apply brokerFixed_throwRed | apply brokerFixed_throwBlue | apply brokerFixed_alloc
  | apply brokerFixed_internalRead
  | apply brokerFixed_bind; [|intros ?]
  | apply brokerFixed_tryCatch; [|intros ?] ].

Lemma brokerFixed_getPrototypeOf t : brokerFixed (Reflect.getPrototypeOf t).
Proof. apply brokerFixed_internalRead. Qed.

Lemma brokerFixed_isExtensible t : brokerFixed (Reflect.isExtensible t).
Proof. apply brokerFixed_internalRead. Qed.

Lemma brokerFixed_getOwnPropertyDescriptor t k :
  brokerFixed (Reflect.getOwnPropertyDescriptor t k).
Proof. apply brokerFixed_internalRead. Qed.

Lemma brokerFixed_ownKeys t : brokerFixed (Reflect.ownKeys t).
Proof. apply brokerFixed_internalRead. Qed.

Lemma brokerFixed_has t k : brokerFixed (Reflect.has t k).
Proof. apply brokerFixed_internalRead. Qed.

Lemma brokerFixed_get t k r : brokerFixed (Reflect.get t k r).
Proof. apply brokerFixed_internalRead. Qed.

Lemma brokerFixed_setPrototypeOf t p : brokerFixed (Reflect.setPrototypeOf t p).
Proof.
  unfold Reflect.setPrototypeOf. destruct (negb _); [step|].
  step; [step|]. apply brokerFixed_internalMethod.
Qed.

Lemma brokerFixed_preventExtensions t : brokerFixed (Reflect.preventExtensions t).
Proof. apply brokerFixed_internalMethod. Qed.

Lemma brokerFixed_defineProperty t k d : brokerFixed (Reflect.defineProperty t k d).
Proof.
  unfold Reflect.defineProperty. destruct (_ && _); [step|].
  apply brokerFixed_internalMethod.
Qed.

Lemma brokerFixed_deleteProperty t k : brokerFixed (Reflect.deleteProperty t k).
Proof. apply brokerFixed_internalMethod. Qed.

Lemma brokerFixed_set t k v r : brokerFixed (Reflect.set t k v r).
Proof. apply brokerFixed_internalMethod. Qed.

Lemma brokerFixed_hasProperty n t k : brokerFixed (hasProperty n t k).
Proof.
  revert t. induction n as [|n IH]; intros t; simpl; [step|].
  step; [apply brokerFixed_has|]. destruct a; [step|apply IH].
Qed.

Lemma brokerFixed_testKeys frozen t ks : brokerFixed (testKeys frozen t ks).
Proof.
  induction ks as [|k ks IH]; simpl; [step|].
  step; [apply brokerFixed_getOwnPropertyDescriptor|].
  destruct a as [d|]; [|done].
  case_bool_decide; [step|]. destruct (_ && _); [step|done].
Qed.

Lemma brokerFixed_collectDescriptors t ks : brokerFixed (collectDescriptors t ks).
Proof.
  induction ks as [|k ks IH]; simpl; [step|].
  step; [apply brokerFixed_getOwnPropertyDescriptor|].
  step; [done|]. step.
Qed.

Lemma brokerFixed_testIntegrityLevel frozen t :
  brokerFixed (Object.testIntegrityLevel frozen t).
Proof.
  unfold Object.testIntegrityLevel. destruct t; try step.
  - apply brokerFixed_isExtensible.
  - destruct a; [step|]. step; [apply brokerFixed_ownKeys|].
    apply brokerFixed_testKeys.
Qed.

Lemma brokerFixed_getOwnPropertyDescriptors t :
  brokerFixed (Object.getOwnPropertyDescriptors t).
Proof.
  unfold Object.getOwnPropertyDescriptors.
  step; [apply brokerFixed_ownKeys|]. apply brokerFixed_collectDescriptors.
Qed.

Lemma brokerFixed_ObjectDefineProperty t k d : brokerFixed (Object.defineProperty t k d).
Proof.
  unfold Object.defineProperty. step; [apply brokerFixed_defineProperty|].
  destruct a; step.
Qed.

Lemma brokerFixed_setIntegrityLevel f t : brokerFixed (Object.setIntegrityLevel f t).
Proof.
  unfold Object.setIntegrityLevel. step.
  - apply brokerFixed_internalMethod.
  - destruct a; step.
Qed.

Lemma brokerFixed_isArray v : brokerFixed (isArrayOrNotOrThrowForRevoked v).
Proof.
  intros st. unfold isArrayOrNotOrThrowForRevoked.
  destruct v; try done.
  destruct (heap st !! l) as [o|]; [|done].
  destruct (o_class o); done.
Qed.

Lemma brokerFixed_getDistortedValue t : brokerFixed (getDistortedValue t).
Proof. unfold getDistortedValue. step; [step|]. destruct (negb a); step. Qed.

Lemma brokerFixed_renameFunction b r : brokerFixed (renameFunction b r).
Proof.
  unfold renameFunction. step; [|step].
  step; [apply brokerFixed_getOwnPropertyDescriptor|].
  destruct a; [|step]. step; [apply brokerFixed_defineProperty|step].
Qed.

Lemma brokerFixed_guarded {A} (m : M A) meta k :
  brokerFixed m -> (forall a, brokerFixed (k a)) -> brokerFixed (guarded m meta k).
Proof.
  intros Hm Hk st. unfold guarded. specialize (Hm st).
  destruct (m st) as [[a|e] st1]; simpl in *; [|done].
  by rewrite Hk.
Qed.

Lemma brokerFixed_classifyLifecycle t : brokerFixed (classifyLifecycle t).
Proof.
  unfold classifyLifecycle. step; [apply brokerFixed_testIntegrityLevel|].
  destruct a; [step|]. step; [apply brokerFixed_testIntegrityLevel|].
  destruct a; [step|]. step; [apply brokerFixed_isExtensible|step].
Qed.

Lemma brokerFixed_getTargetMeta t : brokerFixed (getTargetMeta t).
Proof.
  unfold getTargetMeta.
  apply brokerFixed_guarded; [apply brokerFixed_getPrototypeOf|intros p].
  apply brokerFixed_guarded; [apply brokerFixed_getOwnPropertyDescriptors|intros ds].
  apply brokerFixed_guarded; [apply brokerFixed_classifyLifecycle|intros fl].
  apply brokerFixed_guarded; [apply brokerFixed_isArray|intros _]. step.
Qed.

Lemma brokerFixed_newObject : brokerFixed newObject.
Proof. unfold newObject. repeat step. Qed.

Lemma brokerFixed_newArrowFunction : brokerFixed newArrowFunction.
Proof. unfold newArrowFunction. repeat step. Qed.

Lemma brokerFixed_newNormalFunction : brokerFixed newNormalFunction.
Proof. unfold newNormalFunction. repeat step. Qed.

Lemma brokerFixed_newArray es : brokerFixed (newArray es).
Proof. unfold newArray. repeat step. Qed.

Lemma brokerFixed_createRedShadowTarget b : brokerFixed (createRedShadowTarget b).
Proof.
  unfold createRedShadowTarget. step; [step|].
  destruct a; [|apply brokerFixed_newObject].
  step.
  - step; [|apply brokerFixed_newArrowFunction].
    step; [step|]. step; [apply brokerFixed_hasProperty|].
    destruct a0; [apply brokerFixed_newNormalFunction|apply brokerFixed_newArrowFunction].
  - step; [apply brokerFixed_renameFunction|step].
Qed.


Lemma brokerFixed_ErrorCreate m : brokerFixed (ErrorCreate m).
Proof. unfold ErrorCreate. repeat step. Qed.

End EngineBroker.


Lemma bind_inv {A B} (m : M A) (k : A -> M B) st b st' :
  bind m k st = (Ret b, st') ->
  exists a st1, m st = (Ret a, st1) /\ k a st1 = (Ret b, st').
Proof.
  unfold bind. destruct (m st) as [[a|e] st1]; [eauto|done].
Qed.



(** ** C6: the conversion of arrays *)











(** The conversion of an ordinary host array: its elements are converted
    in turn, and the results are put into a new array. *)
Lemma getRedValueAt_array n a oa es st :
  heap st !! a = Some oa ->
  o_class oa = ClsPlain -> o_fn oa = NotCallable -> o_elems oa = Some es ->
  getRedValueAt (S n) (VObj a) st
  = (b <- mapM (getRedValueAt n) es ;; newArray b ;;; newArray b) st.
Proof.
  intros Ho Hc Hf He. rewrite getRedValueAt_obj.
  assert (Hty : typeOf st (VObj a) = TyObject).
  { simpl. rewrite Ho. unfold typeOfObj. by rewrite Hc, Hf. }
  rewrite Hty. unfold convertObject.
  assert (Harr : tryCatch (b <- isArrayOrNotOrThrowForRevoked (VObj a) ;; ret (Some b))
                   (fun _ => ret None) st = (Ret (Some true), st)).
  { unfold tryCatch, bind, isArrayOrNotOrThrowForRevoked, ret.
    by rewrite Ho, Hc, He. }
  rewrite (bind_Ret _ _ _ _ _ Harr).
  unfold getRedArrayWith.
  assert (Hes : arrayElements (VObj a) st = (Ret es, st)).
  { unfold arrayElements, internalRead, trapOf. by rewrite Ho, Hc, He. }
  by rewrite (bind_Ret _ _ _ _ _ Hes).
Qed.


Lemma lookupOrCreate_again l st g :
  blueMap st !! l = Some g -> g <> VUndefined ->
  lookupOrCreate (VObj l) st = (Ret g, st).
Proof.
  intros Hl Hg. unfold lookupOrCreate, bind, gets. simpl. rewrite Hl. simpl.
  unfold isUndefined. by rewrite bool_decide_eq_false_2.
Qed.

(** The conversion of an object that is no array and is not revoked. *)
Lemma getRedValueAt_steady n l o st :
  heap st !! l = Some o -> o_elems o = None -> o_class o <> ClsRevoked ->
  getRedValueAt (S n) (VObj l) st
  = match typeOfObj o with
    | TyUndefined => (Ret VUndefined, st)
    | _ => lookupOrCreate (VObj l) st
    end.
Proof.
  intros Ho He Hc. rewrite getRedValueAt_obj.
  assert (Hty : typeOf st (VObj l) = typeOfObj o) by (simpl; by rewrite Ho).
  rewrite Hty.
  assert (Harr : tryCatch (b <- isArrayOrNotOrThrowForRevoked (VObj l) ;; ret (Some b))
                   (fun _ => ret None) st = (Ret (Some false), st)).
  { unfold tryCatch, bind, isArrayOrNotOrThrowForRevoked, ret.
    rewrite Ho, He. by destruct (o_class o). }
  assert (Hprim : typeOfObj o <> TyPrimitive).
  { unfold typeOfObj. by destruct (o_class o), (o_fn o). }
  destruct (typeOfObj o); try done.
  unfold convertObject. by rewrite (bind_Ret _ _ _ _ _ Harr).
Qed.





(** Converted twice, the outer array comes back as the arrays 8 and 12:
    both hold [1], the one proxy 4 of the host object, and a copy of the
    inner array (6, then 10). *)
Example array_conversion_scenario :
  let r1 := getRedValue 2 (VObj 2) arraySandbox in
  let r2 := getRedValue 2 (VObj 2) r1.2 in
  r1.1 = Ret (VObj 8) /\ r2.1 = Ret (VObj 12)
  /\ o_elems <$> heap r2.2 !! 8 = Some (Some [VNum 1; VObj 4; VObj 6])
  /\ o_elems <$> heap r2.2 !! 12 = Some (Some [VNum 1; VObj 4; VObj 10])
  /\ o_elems <$> heap r2.2 !! 6 = Some (Some [VNum 2])
  /\ o_elems <$> heap r2.2 !! 10 = Some (Some [VNum 2]).
Proof. vm_compute. repeat split. Qed.



(** * Further properties *)

(** ** The descriptor maps of the window *)

Lemma ownEntry_assignEntry_eq k v m :
  Window.ownEntry k (Window.assignEntry k v m) = Some v.
Proof.
  induction m as [|[k' v'] m IH]; simpl.
  - by rewrite bool_decide_eq_true_2.
  - case_bool_decide; simpl.
    + by rewrite bool_decide_eq_true_2.
    + by rewrite bool_decide_eq_false_2.
Qed.

Lemma ownEntry_assignEntry_ne k k' v m :
  k' <> k -> Window.ownEntry k (Window.assignEntry k' v m) = Window.ownEntry k m.
Proof.
  intros Hne. induction m as [|[k0 v0] m IH]; simpl.
  - by rewrite bool_decide_eq_false_2.
  - case_bool_decide as H0; simpl.
    + subst k0. by rewrite !bool_decide_eq_false_2.
    + case_bool_decide; [done|exact IH].
Qed.

Lemma keys_assignEntry k v m x :
  In x (map fst (Window.assignEntry k v m)) <-> x = k \/ In x (map fst m).
Proof.
  induction m as [|[k' v'] m IH]; simpl; [intuition congruence|].
  case_bool_decide; simpl; [intuition congruence|]. rewrite IH. intuition congruence.
Qed.

Lemma NoDup_assignEntry k v m :
  NoDup (map fst m) -> NoDup (map fst (Window.assignEntry k v m)).
Proof.
  induction m as [|[k' v'] m IH]; simpl; intros Hnd.
  - apply NoDup_singleton.
  - apply NoDup_cons in Hnd as [Hnotin Hnd].
    case_bool_decide as Hk; simpl.
    + subst k'. by apply NoDup_cons.
    + apply NoDup_cons. split; [|by apply IH].
      rewrite list_elem_of_In, keys_assignEntry, <- list_elem_of_In.
      intuition congruence.
Qed.

Lemma ownEntry_None_keys k m :
  Window.ownEntry k m = None <-> ~ In k (map fst m).
Proof.
  induction m as [|[k' v'] m IH]; simpl; [intuition congruence|].
  case_bool_decide; [intuition congruence|]. rewrite IH. intuition congruence.
Qed.

Lemma ownEntry_deleteEntry_eq k m :
  NoDup (map fst m) -> Window.ownEntry k (Window.deleteEntry k m) = None.
Proof.
  induction m as [|[k' v'] m IH]; simpl; intros Hnd; [done|].
  apply NoDup_cons in Hnd as [Hnotin Hnd].
  case_bool_decide as Hk; simpl.
  - subst k'. apply ownEntry_None_keys. by rewrite <- list_elem_of_In.
  - rewrite bool_decide_eq_false_2 by done. by apply IH.
Qed.

Lemma ownEntry_deleteEntry_ne k k' m :
  k' <> k -> Window.ownEntry k (Window.deleteEntry k' m) = Window.ownEntry k m.
Proof.
  intros Hne. induction m as [|[k0 v0] m IH]; simpl; [done|].
  case_bool_decide as H0; simpl.
  - subst k0. by rewrite bool_decide_eq_false_2.
  - case_bool_decide; [done|exact IH].
Qed.

Lemma keys_deleteEntry k m x :
  In x (map fst (Window.deleteEntry k m)) -> In x (map fst m).
Proof.
  induction m as [|[k' v'] m IH]; simpl; [done|].
  case_bool_decide; simpl; intuition congruence.
Qed.

Lemma NoDup_deleteEntry k m :
  NoDup (map fst m) -> NoDup (map fst (Window.deleteEntry k m)).
Proof.
  induction m as [|[k' v'] m IH]; simpl; intros Hnd; [done|].
  apply NoDup_cons in Hnd as [Hnotin Hnd].
  case_bool_decide; simpl; [done|].
  apply NoDup_cons. split; [|by apply IH].
  rewrite list_elem_of_In. intros Hin. apply keys_deleteEntry in Hin.
  by rewrite <- list_elem_of_In in Hin.
Qed.

Lemma ownEntry_deleteEntry k k' m :
  NoDup (map fst m) ->
  Window.ownEntry k (Window.deleteEntry k' m)
  = if bool_decide (k' = k) then None else Window.ownEntry k m.
Proof.
  intros Hnd. case_bool_decide as Hk.
  - subst k'. by apply ownEntry_deleteEntry_eq.
  - by apply ownEntry_deleteEntry_ne.
Qed.

Section AggregateFacts.

Variable isIntrinsicGlobalName : key -> bool.
Variable blueDescriptors : key -> option descriptor.

Let copyGlobal (to : Window.descriptorMap) (k : key) : Window.descriptorMap :=
  if negb (isIntrinsicGlobalName k)
  then Window.assignEntry k (blueDescriptors k) to else to.

Lemma NoDup_copyGlobals ks to :
  NoDup (map fst to) -> NoDup (map fst (fold_left copyGlobal ks to)).
Proof.
  revert to. induction ks as [|k ks IH]; intros to Hnd; simpl; [done|].
  apply IH. unfold copyGlobal. destruct (negb _); [by apply NoDup_assignEntry|done].
Qed.

Lemma ownEntry_copyGlobals k ks to :
  Window.ownEntry k (fold_left copyGlobal ks to)
  = if bool_decide (k ∈ ks) && negb (isIntrinsicGlobalName k)
    then Some (blueDescriptors k) else Window.ownEntry k to.
Proof.
  revert to. induction ks as [|k0 ks IH]; intros to; simpl.
  - done.
  - rewrite IH. destruct (decide (k0 = k)) as [->|Hne].
    + rewrite (bool_decide_eq_true_2 (k ∈ k :: ks)) by (apply elem_of_cons; by left).
      unfold copyGlobal. destruct (isIntrinsicGlobalName k); simpl.
      * by rewrite !andb_false_r.
      * rewrite ownEntry_assignEntry_eq. by destruct (bool_decide (k ∈ ks)).
    + assert (Heq : bool_decide (k ∈ k0 :: ks) = bool_decide (k ∈ ks)).
      { apply bool_decide_ext. rewrite elem_of_cons. intuition congruence. }
      rewrite Heq. destruct (bool_decide (k ∈ ks) && _); [done|].
      unfold copyGlobal. destruct (negb _); [|done].
      by apply ownEntry_assignEntry_ne.
Qed.

Lemma NoDup_ObjectAssign to source :
  NoDup (map fst to) -> NoDup (map fst (Window.ObjectAssign to source)).
Proof.
  destruct source as [s|]; simpl; [|done].
  revert to. induction s as [|[k v] s IH]; intros to Hnd; simpl; [done|].
  apply IH. by apply NoDup_assignEntry.
Qed.

Lemma ownEntry_ObjectAssign k to s :
  NoDup (map fst s) ->
  Window.ownEntry k (Window.ObjectAssign to (Some s))
  = match Window.ownEntry k s with
    | Some v => Some v
    | None => Window.ownEntry k to
    end.
Proof.
  simpl. revert to. induction s as [|[k0 v0] s IH]; intros to Hnd; simpl; [done|].
  apply NoDup_cons in Hnd as [Hnotin Hnd]. rewrite IH by done.
  case_bool_decide as Hk.
  - subst k0.
    assert (Hnone : Window.ownEntry k s = None).
    { apply ownEntry_None_keys. intros Hin. apply Hnotin.
      by apply list_elem_of_In. }
    rewrite Hnone. apply ownEntry_assignEntry_eq.
  - destruct (Window.ownEntry k s); [done|].
    by apply ownEntry_assignEntry_ne.
Qed.

(** X1.  The globals [location], [document], [window], [top], [crypto] and
    [chrome] are never part of the aggregate: neither the keys of the red
    window nor the endowments can put them there. *)
Theorem aggregate_leaves_out_undeniable (redOwnKeys : list key)
    (endowmentsDescriptors : option Window.descriptorMap) (k : key) :
  In k Window.undeniable ->
  Window.ownEntry k
    (Window.aggregateWindowDescriptors isIntrinsicGlobalName redOwnKeys
       blueDescriptors endowmentsDescriptors) = None.
Proof.
  intros Hk. unfold Window.aggregateWindowDescriptors.
  fold copyGlobal.
  pose proof (NoDup_ObjectAssign _ endowmentsDescriptors
                (NoDup_copyGlobals redOwnKeys [] (NoDup_nil_2 (A:=key)))) as Hnd.
  set (to := Window.ObjectAssign _ _) in *. clearbody to.
  repeat (rewrite ownEntry_deleteEntry by (repeat apply NoDup_deleteEntry; exact Hnd)).
  simpl in Hk. destruct Hk as [<-|[<-|[<-|[<-|[<-|[<-|[]]]]]]]; done.
Qed.

(** X2.  Every other global of the aggregate is the endowment of that name
    if there is one, and otherwise the blue descriptor of a key of the
    red window that is no intrinsic name; nothing else is in it. *)
Theorem aggregate_entries (redOwnKeys : list key)
    (endowmentsDescriptors : option Window.descriptorMap) (k : key) :
  match endowmentsDescriptors with
  | Some e => NoDup (map fst e)
  | None => True
  end ->
  ~ In k Window.undeniable ->
  Window.ownEntry k
    (Window.aggregateWindowDescriptors isIntrinsicGlobalName redOwnKeys
       blueDescriptors endowmentsDescriptors)
  = match endowmentsDescriptors ≫= Window.ownEntry k with
    | Some v => Some v
    | None =>
        if bool_decide (k ∈ redOwnKeys) && negb (isIntrinsicGlobalName k)
        then Some (blueDescriptors k) else None
    end.
Proof.
  intros He Hk. unfold Window.aggregateWindowDescriptors.
  fold copyGlobal.
  pose proof (NoDup_ObjectAssign _ endowmentsDescriptors
                (NoDup_copyGlobals redOwnKeys [] (NoDup_nil_2 (A:=key)))) as Hnd.
  assert (Hentry :
    Window.ownEntry k
      (Window.ObjectAssign (fold_left copyGlobal redOwnKeys []) endowmentsDescriptors)
    = match endowmentsDescriptors ≫= Window.ownEntry k with
      | Some v => Some v
      | None =>
          if bool_decide (k ∈ redOwnKeys) && negb (isIntrinsicGlobalName k)
          then Some (blueDescriptors k) else None
      end).
  { destruct endowmentsDescriptors as [e|].
    - rewrite (ownEntry_ObjectAssign k _ e He).
      change (Some e ≫= Window.ownEntry k) with (Window.ownEntry k e).
      destruct (Window.ownEntry k e); [done|]. apply ownEntry_copyGlobals.
    - apply ownEntry_copyGlobals. }
  rewrite <- Hentry.
  set (to := Window.ObjectAssign _ _) in *. clearbody to.
  repeat (rewrite ownEntry_deleteEntry by (repeat apply NoDup_deleteEntry; exact Hnd)).
  repeat (rewrite bool_decide_eq_false_2
            by (intros E; apply Hk; subst k; simpl; auto 10)).
  done.
Qed.

End AggregateFacts.

(** X3.  The descriptors taken for [WindowProperties.prototype] are those of
    the keys of the red object, one entry a key, and no other. *)
Theorem windowProperties_entries (redOwnKeys : list key)
    (blueDescriptors : key -> option descriptor) (k : key) :
  Window.ownEntry k
    (Window.aggregateWindowPropertiesDescriptors redOwnKeys blueDescriptors)
  = (if bool_decide (k ∈ redOwnKeys) then Some (blueDescriptors k) else None)
  /\ NoDup (map fst
       (Window.aggregateWindowPropertiesDescriptors redOwnKeys blueDescriptors)).
Proof.
  unfold Window.aggregateWindowPropertiesDescriptors. split.
  - pose proof (ownEntry_copyGlobals (fun _ => false) blueDescriptors k redOwnKeys [])
      as H. simpl in H. rewrite andb_true_r in H. exact H.
  - apply (NoDup_copyGlobals (fun _ => false) blueDescriptors redOwnKeys []).
    apply (NoDup_nil_2 (A:=key)).
Qed.

Lemma aggregate_leaves_out_undeniable_witness :
  Window.ownEntry (KStr "window")
    (Window.aggregateWindowDescriptors
       (fun k => bool_decide (k = KStr "Array"))
       [KStr "window"; KStr "Array"; KStr "alert"]
       (fun k => Some (fromProp (PData (VStr "blue") true true true)))
       (Some [(KStr "window", None)])) = None.
Proof.
  apply aggregate_leaves_out_undeniable. simpl. auto.
Defined.

Lemma aggregate_entries_witness :
  Window.ownEntry (KStr "alert")
    (Window.aggregateWindowDescriptors
       (fun k => bool_decide (k = KStr "Array"))
       [KStr "window"; KStr "Array"; KStr "alert"]
       (fun k => Some (fromProp (PData (VStr "blue") true true true)))
       (Some [(KStr "expandable", None)]))
  = Some (Some (fromProp (PData (VStr "blue") true true true))).
Proof.
  rewrite aggregate_entries.
  - reflexivity.
  - simpl. apply NoDup_singleton.
  - simpl. intros H. decompose [or] H; discriminate || done.
Defined.

(** ** Linking the unforgeable objects *)

Lemma setRefMapEntries_run r b st :
  regFailure st = None ->
  setRefMapEntries (VObj r) (VObj b) st
  = (Ret tt, mkState (heap st) (<[b := VObj r]> (blueMap st))
                     (<[r := VObj b]> (redMap st))
                     (distortionMap st) (regFailure st)).
Proof. intros H. unfold setRefMapEntries. by rewrite H. Qed.

(** X4.  [linkUnforgeables], with a registration that does not fail, on five
    different host objects: it returns, it allocates nothing, and from
    then on the identity map gives for each of the five host objects the
    guest object it was linked to - so that the conversion of such a host
    object (an allocated object that is no array, no revoked proxy and no
    [document.all]) is that guest object itself, with no proxy made. *)
Theorem unforgeables_linked (stack : nat) (blueRefs redRefs : Window.BaseReferencesRecord)
    (st : state) :
  regFailure st = None ->
  Forall (fun br => (exists b, br.1 = VObj b) /\ (exists r, br.2 = VObj r))
         (Window.linked blueRefs redRefs) ->
  NoDup (map fst (Window.linked blueRefs redRefs)) ->
  exists st',
    Window.linkUnforgeables blueRefs redRefs st = (Ret tt, st')
    /\ heap st' = heap st
    /\ forall blue red, In (blue, red) (Window.linked blueRefs redRefs) ->
         getRedRef blue st' = (Ret red, st')
         /\ forall b o, blue = VObj b -> heap st !! b = Some o ->
              o_elems o = None -> o_class o <> ClsRevoked ->
              typeOfObj o <> TyUndefined ->
              getRedValue stack blue st' = (Ret red, st').
Proof.
  destruct blueRefs as [bw bd bwp bwpp bet bdp].
  destruct redRefs as [rw rd rwp rwpp ret_ rdp].
  unfold Window.linked, Window.linkUnforgeables. simpl.
  intros Hreg Hobj Hnd.
  apply Forall_cons in Hobj as [[[b1 E1] [r1 F1]] Hobj].
  apply Forall_cons in Hobj as [[[b2 E2] [r2 F2]] Hobj].
  apply Forall_cons in Hobj as [[[b3 E3] [r3 F3]] Hobj].
  apply Forall_cons in Hobj as [[[b4 E4] [r4 F4]] Hobj].
  apply Forall_cons in Hobj as [[[b5 E5] [r5 F5]] _].
  simpl in *. subst.
  apply NoDup_cons in Hnd as [N1 Hnd]. apply NoDup_cons in Hnd as [N2 Hnd].
  apply NoDup_cons in Hnd as [N3 Hnd]. apply NoDup_cons in Hnd as [N4 _].
  assert (D12 : b1 <> b2) by (intros ->; apply N1; rewrite !elem_of_cons; auto 10).
  assert (D13 : b1 <> b3) by (intros ->; apply N1; rewrite !elem_of_cons; auto 10).
  assert (D14 : b1 <> b4) by (intros ->; apply N1; rewrite !elem_of_cons; auto 10).
  assert (D15 : b1 <> b5) by (intros ->; apply N1; rewrite !elem_of_cons; auto 10).
  assert (D23 : b2 <> b3) by (intros ->; apply N2; rewrite !elem_of_cons; auto 10).
  assert (D24 : b2 <> b4) by (intros ->; apply N2; rewrite !elem_of_cons; auto 10).
  assert (D25 : b2 <> b5) by (intros ->; apply N2; rewrite !elem_of_cons; auto 10).
  assert (D34 : b3 <> b4) by (intros ->; apply N3; rewrite !elem_of_cons; auto 10).
  assert (D35 : b3 <> b5) by (intros ->; apply N3; rewrite !elem_of_cons; auto 10).
  assert (D45 : b4 <> b5) by (intros ->; apply N4; rewrite !elem_of_cons; auto 10).
  clear N1 N2 N3 N4.
  set (st' := mkState (heap st)
                (<[b5:=VObj r5]> (<[b4:=VObj r4]> (<[b3:=VObj r3]>
                   (<[b2:=VObj r2]> (<[b1:=VObj r1]> (blueMap st))))))
                (<[r5:=VObj b5]> (<[r4:=VObj b4]> (<[r3:=VObj b3]>
                   (<[r2:=VObj b2]> (<[r1:=VObj b1]> (redMap st))))))
                (distortionMap st) (regFailure st)).
  exists st'. split.
  { subst st'. destruct st as [h bm rm dm rf]. simpl in Hreg. subst rf.
    reflexivity. }
  split; [done|].
  intros blue red Hin.
  assert (Hmap : exists b, blue = VObj b /\ blueMap st' !! b = Some red
                           /\ red <> VUndefined).
  { simpl.
    destruct Hin as [[= <- <-]|[[= <- <-]|[[= <- <-]|[[= <- <-]|[[= <- <-]|[]]]]]];
      eexists; (split; [reflexivity|]); (split; [|done]);
      repeat (rewrite lookup_insert_ne by congruence);
      apply lookup_insert_eq. }
  destruct Hmap as (b & -> & Hb & Hred). split.
  - unfold getRedRef, gets, WeakMapGet. by rewrite Hb.
  - intros b' o [= <-] Ho Hel Hcls Hty. unfold getRedValue.
    rewrite (getRedValueAt_steady stack b o st' Ho Hel Hcls).
    destruct (typeOfObj o); try done; by apply lookupOrCreate_again.
Qed.

(** ** Conversion leaves the objects it meets as they are *)

(** X5.  Converting a host value - whatever it is, and whether the conversion
    returns or raises - writes to no object that exists: every cell keeps
    its properties, its extensibility, its parent, its callable kind and
    its array elements; the heap only grows, and the distortion table is
    not touched. *)
Theorem conversion_writes_nothing (stack : nat) (blue : value) (st : state) :
  let st' := (getRedValue stack blue st).2 in
  length (heap st) <= length (heap st')
  /\ distortionMap st' = distortionMap st
  /\ forall l o, heap st !! l = Some o ->
       exists o', heap st' !! l = Some o'
         /\ o_props o' = o_props o /\ o_ext o' = o_ext o
         /\ o_proto o' = o_proto o /\ o_fn o' = o_fn o
         /\ o_elems o' = o_elems o.
Proof.
  intros st'. subst st'. unfold getRedValue.
  pose proof (respects_getRedValueAt (S stack) blue st) as Hev.
  pose proof (quiet_getRedValueAt (S stack) blue st) as Hq.
  split; [apply (ev_len _ _ Hev)|]. split; [apply (ev_dist _ _ Hev)|].
  intros l o Ho.
  destruct (Hq l o I Ho) as (o' & Ho' & Hp & He & Hpr).
  destruct (ev_cell _ _ Hev _ _ Ho) as (o2 & Ho2 & Hfn & Hel & _).
  assert (o2 = o') as -> by congruence.
  exists o'. done.
Qed.

(** ** The metadata of a target *)

Lemma classifyLifecycle_flags target st fl st' :
  classifyLifecycle target st = (Ret fl, st') ->
  (fl.1.1 = true -> fl.1.2 = true) /\ (fl.1.2 = true -> fl.2 = true).
Proof.
  unfold classifyLifecycle. intros H.
  apply bind_inv in H as (fr & s1 & _ & H). destruct fr.
  - injection H as <- _. done.
  - apply bind_inv in H as (se & s2 & _ & H). destruct se.
    + injection H as <- _. done.
    + apply bind_inv in H as (ex & s3 & _ & H). injection H as <- _. done.
Qed.

(** X6.  [getTargetMeta] never raises, whatever the target; in the metadata
    it returns a frozen target also counts as sealed and a sealed one as
    extensible, and metadata marked as broken have a null parent and no
    descriptors. *)
Theorem getTargetMeta_flags (target : value) (st : state) :
  exists m, (getTargetMeta target st).1 = Ret m
    /\ (meta_isFrozen m = true -> meta_isSealed m = true)
    /\ (meta_isSealed m = true -> meta_isExtensible m = true)
    /\ (meta_isBroken m = true ->
        meta_proto m = VNull /\ meta_descriptors m = []).
Proof.
  unfold getTargetMeta, guarded.
  destruct (Reflect.getPrototypeOf target st) as [[p|e] s1];
    [|eexists; split; [reflexivity|]; done].
  destruct (Object.getOwnPropertyDescriptors target s1) as [[ds|e] s2];
    [|eexists; split; [reflexivity|]; done].
  destruct (classifyLifecycle target s2) as [[fl|e] s3] eqn:Hfl;
    [|eexists; split; [reflexivity|]; done].
  apply classifyLifecycle_flags in Hfl as [H1 H2].
  destruct (isArrayOrNotOrThrowForRevoked target s3) as [[b|e] s4];
    eexists; (split; [reflexivity|]); done.
Qed.

Lemma lookupProp_NoDup k p ps :
  NoDup (keysOf ps) -> In (k, p) ps -> lookupProp k ps = Some p.
Proof.
  induction ps as [|[k' p'] ps IH]; simpl; [done|].
  intros Hnd Hin. apply NoDup_cons in Hnd as [Hnotin Hnd].
  destruct Hin as [[= -> ->]|Hin]; [by rewrite bool_decide_eq_true_2|].
  rewrite bool_decide_eq_false_2; [by apply IH|].
  intros ->. apply Hnotin. apply list_elem_of_In.
  change (In k (map fst ps)). apply in_map_iff. by exists (k, p).
Qed.

Section OrdinaryTarget.

Variables (st : state) (l : loc) (o : obj).
Hypothesis Ho : heap st !! l = Some o.
Hypothesis Hc : o_class o = ClsPlain.

Lemma internalRead_ordinary {A} op (run : obj -> A) :
  internalRead op (VObj l) run st = (Ret (run o), st).
Proof using Ho Hc. unfold internalRead, trapOf. by rewrite Ho, Hc. Qed.

Lemma internalMethod_ordinary {A} op (run : obj -> A * obj) refused :
  internalMethod op (VObj l) run refused st
  = (Ret (run o).1, setObj l (run o).2 st).
Proof using Ho Hc. unfold internalMethod, trapOf. by rewrite Ho, Hc. Qed.

Lemma testKeys_ordinary frozen ps :
  (forall k p, In (k, p) ps -> lookupProp k (o_props o) = Some p) ->
  testKeys frozen (VObj l) (keysOf ps) st
  = (Ret (forallb (fun kp => negb (propConfigurable kp.2)
                             && negb (frozen && propWritable kp.2)) ps), st).
Proof using Ho Hc.
  induction ps as [|[k p] ps IH]; intros Hps; [done|].
  change (keysOf ((k, p) :: ps)) with (k :: keysOf ps). cbn [testKeys].
  unfold Reflect.getOwnPropertyDescriptor.
  rewrite (bind_Ret _ _ _ _ _ (internalRead_ordinary _ _)).
  rewrite (Hps k p) by (by left). cbn [fmap option_fmap option_map].
  specialize (IH (fun k' p' H => Hps k' p' (or_intror H))).
  destruct p as [v w e c|g s e c]; destruct c, frozen; try destruct w;
    first [reflexivity | exact IH].
Qed.

Lemma collectDescriptors_ordinary ps :
  (forall k p, In (k, p) ps -> lookupProp k (o_props o) = Some p) ->
  collectDescriptors (VObj l) (keysOf ps) st
  = (Ret (map (fun kp => (kp.1, fromProp kp.2)) ps), st).
Proof using Ho Hc.
  induction ps as [|[k p] ps IH]; intros Hps; [done|].
  change (keysOf ((k, p) :: ps)) with (k :: keysOf ps). cbn [collectDescriptors].
  unfold Reflect.getOwnPropertyDescriptor.
  rewrite (bind_Ret _ _ _ _ _ (internalRead_ordinary _ _)).
  rewrite (Hps k p) by (by left). cbn [fmap option_fmap option_map].
  rewrite (bind_Ret _ _ _ _ _ (IH (fun k' p' H => Hps k' p' (or_intror H)))).
  done.
Qed.

Lemma testIntegrityLevel_ordinary frozen :
  NoDup (keysOf (o_props o)) ->
  Object.testIntegrityLevel frozen (VObj l) st
  = (Ret (if frozen then frozenObj o else sealedObj o), st).
Proof using Ho Hc.
  intros Hnd. unfold Object.testIntegrityLevel, Reflect.isExtensible, Reflect.ownKeys.
  rewrite (bind_Ret _ _ _ _ _ (internalRead_ordinary _ _)).
  unfold frozenObj, sealedObj. destruct (o_ext o); simpl; [by destruct frozen|].
  rewrite (bind_Ret _ _ _ _ _ (internalRead_ordinary _ _)).
  rewrite testKeys_ordinary by (intros; by apply lookupProp_NoDup).
  f_equal. f_equal. clear Hnd. induction (o_props o) as [|[k p] ps IH]; simpl.
  - by destruct frozen.
  - rewrite IH. destruct frozen; simpl.
    + destruct (propConfigurable p), (propWritable p); simpl; try done;
        by rewrite ?andb_false_r.
    + by rewrite andb_true_r.
Qed.

End OrdinaryTarget.

(** X7.  The metadata extracted from an ordinary object: its parent, the
    descriptors of all its own properties in their order, and the
    lifecycle flags - frozen; sealed; and "extensible", which is also set
    for a sealed object.  The object is not marked as broken, and the
    extraction changes nothing. *)
Theorem getTargetMeta_ordinary (st : state) (l : loc) (o : obj) :
  heap st !! l = Some o ->
  o_class o = ClsPlain ->
  NoDup (keysOf (o_props o)) ->
  getTargetMeta (VObj l) st
  = (Ret (mkMeta (o_proto o) (descriptorsOf o) (frozenObj o) (sealedObj o)
                 (sealedObj o || o_ext o) false), st).
Proof.
  intros Ho Hc Hnd. unfold getTargetMeta.
  assert (Hproto : Reflect.getPrototypeOf (VObj l) st = (Ret (o_proto o), st))
    by (by apply internalRead_ordinary).
  rewrite (guarded_Ret _ _ _ _ _ _ Hproto).
  assert (Hds : Object.getOwnPropertyDescriptors (VObj l) st
                = (Ret (descriptorsOf o), st)).
  { unfold Object.getOwnPropertyDescriptors, Reflect.ownKeys.
    rewrite (bind_Ret _ _ _ _ _ (internalRead_ordinary st l o Ho Hc _ _)).
    apply (collectDescriptors_ordinary st l o Ho Hc).
    intros; by apply lookupProp_NoDup. }
  rewrite (guarded_Ret _ _ _ _ _ _ Hds).
  assert (Hfl : classifyLifecycle (VObj l) st
                = (Ret (frozenObj o, sealedObj o, sealedObj o || o_ext o), st)).
  { unfold classifyLifecycle, Object.isFrozen, Object.isSealed.
    rewrite (bind_Ret _ _ _ _ _ (testIntegrityLevel_ordinary st l o Ho Hc true Hnd)).
    destruct (frozenObj o) eqn:Hfr.
    - unfold frozenObj in Hfr. apply andb_prop in Hfr as [-> _]. done.
    - rewrite (bind_Ret _ _ _ _ _ (testIntegrityLevel_ordinary st l o Ho Hc false Hnd)).
      destruct (sealedObj o) eqn:Hse; [done|].
      unfold Reflect.isExtensible.
      rewrite (bind_Ret _ _ _ _ _ (internalRead_ordinary st l o Ho Hc _ _)). done. }
  rewrite (guarded_Ret _ _ _ _ _ _ Hfl).
  assert (Harr : isArrayOrNotOrThrowForRevoked (VObj l) st
                 = (Ret (isSome (o_elems o)), st)).
  { unfold isArrayOrNotOrThrowForRevoked. by rewrite Ho, Hc. }
  rewrite (guarded_Ret _ _ _ _ _ _ Harr). done.
Qed.

(** ** Descriptors on their way to the guest *)

Lemma getRedDescriptor_configurable (stack : nat) (d d' : descriptor)
    (st st' : state) :
  getRedDescriptor stack d st = (Ret d', st') ->
  d_configurable d' = d_configurable d.
Proof.
  unfold getRedDescriptor. destruct (isSome (d_writable d)).
  - intros H. apply bind_inv in H as (fn & s1 & _ & H).
    apply bind_inv in H as (v & s2 & _ & H). injection H as <- _. done.
  - intros H. apply bind_inv in H as (fs & s1 & Hfs & H).
    apply bind_inv in H as (d1 & s2 & Hd1 & H).
    apply bind_inv in H as (fg & s3 & Hfg & H).
    injection Hfs as <- <-. injection Hfg as <- <-.
    assert (H1 : d_configurable d1 = d_configurable d).
    { destruct (isFunction st (default VUndefined (d_set d))).
      - apply bind_inv in Hd1 as (s' & s4 & _ & Hd1). injection Hd1 as <- _. done.
      - injection Hd1 as <- _. done. }
    destruct (isFunction s2 (default VUndefined (d_get d))).
    + apply bind_inv in H as (g & s4 & _ & H). injection H as <- _. done.
    + injection H as <- _. done.
Qed.

(** X8.  [getRedDescriptor] keeps the shape of a descriptor: the attributes
    [writable], [enumerable] and [configurable] are the ones it was given,
    and a getter or setter field is present in the result exactly if it
    was present before.  A descriptor with a [writable] field comes back
    with a [value] field (the conversion of the value it had, or of
    [undefined]) and with its accessor fields as they were; one without
    comes back with its [value] field as it was. *)
Theorem getRedDescriptor_shape (stack : nat) (d d' : descriptor) (st st' : state) :
  getRedDescriptor stack d st = (Ret d', st') ->
  d_writable d' = d_writable d
  /\ d_enumerable d' = d_enumerable d
  /\ d_configurable d' = d_configurable d
  /\ (if isSome (d_writable d)
      then isSome (d_value d') = true /\ d_get d' = d_get d /\ d_set d' = d_set d
      else d_value d' = d_value d
           /\ (d_get d = None -> d_get d' = None)
           /\ (d_set d = None -> d_set d' = None)
           /\ isSome (d_get d') = isSome (d_get d)
           /\ isSome (d_set d') = isSome (d_set d)).
Proof.
  assert (Hfun : forall s (f : option value),
            isFunction s (default VUndefined f) = true -> exists l, f = Some (VObj l)).
  { intros s f Hf. apply isFunction_VObj in Hf as [l Hl].
    destruct f as [v|]; simpl in Hl; [|done]. subst v. eauto. }
  unfold getRedDescriptor. destruct (isSome (d_writable d)) eqn:Hw.
  - intros H. apply bind_inv in H as (fn & s1 & _ & H).
    apply bind_inv in H as (v & s2 & _ & H). injection H as <- _. done.
  - intros H. apply bind_inv in H as (fs & s1 & Hfs & H).
    apply bind_inv in H as (d1 & s2 & Hd1 & H).
    apply bind_inv in H as (fg & s3 & Hfg & H).
    injection Hfs as <- <-. injection Hfg as <- <-.
    assert (H1 : d_writable d1 = d_writable d /\ d_enumerable d1 = d_enumerable d
                 /\ d_configurable d1 = d_configurable d
                 /\ d_value d1 = d_value d /\ d_get d1 = d_get d
                 /\ (d_set d = None -> d_set d1 = None)
                 /\ isSome (d_set d1) = isSome (d_set d)).
    { destruct (isFunction st (default VUndefined (d_set d))) eqn:Hfs.
      - apply Hfun in Hfs as [l Hl].
        apply bind_inv in Hd1 as (s' & s4 & _ & Hd1). injection Hd1 as <- _.
        simpl. rewrite Hl. done.
      - injection Hd1 as <- _. done. }
    destruct H1 as (E1 & E2 & E3 & E4 & E5 & E6 & E7).
    destruct (isFunction s2 (default VUndefined (d_get d))) eqn:Hfg.
    + apply Hfun in Hfg as [l Hl].
      apply bind_inv in H as (g & s4 & _ & H). injection H as <- _.
      simpl. rewrite Hl. done.
    + injection H as <- _. rewrite E5. done.
Qed.

(** ** Keys that an operation neither adds nor removes *)

Lemma keyKept_refl k st : keyKept k st st.
Proof. intros l o Ho. eauto. Qed.

Lemma keyKept_trans k st1 st2 st3 :
  keyKept k st1 st2 -> keyKept k st2 st3 -> keyKept k st1 st3.
Proof.
  intros H1 H2 l o Ho. destruct (H1 l o Ho) as (o2 & Ho2 & E2).
  destruct (H2 l o2 Ho2) as (o3 & Ho3 & E3). exists o3. split; [done|congruence].
Qed.

Lemma keepsKey_quiet {A} k (m : M A) : quietOn anyCell m -> keepsKey k m.
Proof.
  intros Hq st l o Ho. destruct (Hq st l o I Ho) as (o' & Ho' & Hp & _).
  exists o'. by rewrite Hp.
Qed.

Lemma keepsKey_bind {A B} k (m : M A) (f : A -> M B) :
  keepsKey k m -> (forall a, keepsKey k (f a)) -> keepsKey k (bind m f).
Proof.
  intros Hm Hf st. unfold bind. specialize (Hm st).
  destruct (m st) as [[a|e] st1]; simpl in *; [|done].
  eapply keyKept_trans; [exact Hm|apply Hf].
Qed.

Lemma keepsKey_forEach {A} k (f : A -> M unit) xs :
  (forall x, In x xs -> keepsKey k (f x)) -> keepsKey k (forEach f xs).
Proof.
  induction xs as [|x xs IH]; intros Hf; simpl.
  - intros st. apply keyKept_refl.
  - apply keepsKey_bind; [apply Hf; by left|]. intros _. apply IH.
    intros y Hy. apply Hf. by right.
Qed.

Lemma keyKept_setObj k st l o o' :
  heap st !! l = Some o ->
  isSome (lookupProp k (o_props o')) = isSome (lookupProp k (o_props o)) ->
  keyKept k st (setObj l o' st).
Proof.
  intros Ho Hs l' o0 Ho0. simpl. destruct (decide (l = l')) as [->|Hne].
  - exists o'. rewrite list_lookup_insert_eq by (by eapply lookup_lt_Some).
    split; [done|]. by replace o0 with o by congruence.
  - exists o0. by rewrite list_lookup_insert_ne.
Qed.

Lemma keepsKey_throwRed {A} k name msg : keepsKey k (@throwRed A name msg).
Proof. apply keepsKey_quiet, quietOn_throwRed. Qed.

Lemma props_countDown op o : o_props (countDown op o) = o_props o.
Proof.
  unfold countDown. destruct (o_class o); try done.
  destruct (trapLookup op traps) as [[e|[|n]|f]|]; done.
Qed.

Lemma keepsKey_internalMethod {A} k op target (run : obj -> A * obj) refused :
  (forall o, isSome (lookupProp k (o_props (run o).2))
             = isSome (lookupProp k (o_props o))) ->
  keepsKey k (internalMethod op target run refused).
Proof.
  intros Hrun st. unfold internalMethod.
  destruct target as [| | | | | |l]; try apply (keepsKey_throwRed k).
  destruct (heap st !! l) as [o|] eqn:Ho; [|apply (keepsKey_throwRed k)].
  assert (Hplain : keyKept k st (setObj l (run o).2 st))
    by (eapply keyKept_setObj; [done|apply Hrun]).
  assert (Hcount : keyKept k st (setObj l (countDown op (run o).2) st)).
  { eapply keyKept_setObj; [done|]. rewrite props_countDown. apply Hrun. }
  destruct (o_class o); try apply (keepsKey_throwRed k);
    (destruct (trapOf o op) as [[e|n|fwd]|]; simpl;
     [apply keyKept_refl
     |exact Hcount
     |destruct refused; simpl; [destruct fwd; [done|apply keyKept_refl]|done]
     |destruct refused; simpl; done]).
Qed.

Lemma define_presence k k' d o :
  k <> k' ->
  isSome (lookupProp k (o_props (ordinaryDefineOwnProperty k' d o).2))
  = isSome (lookupProp k (o_props o)).
Proof.
  intros Hne. unfold ordinaryDefineOwnProperty.
  destruct (validateAndApply _ _ _); simpl; [|done].
  by rewrite lookupProp_storeProp_ne.
Qed.

Lemma set_presence k k' self v receiver o :
  k <> k' ->
  isSome (lookupProp k (o_props (ordinarySet self k' v receiver o).2))
  = isSome (lookupProp k (o_props o)).
Proof.
  intros Hne. unfold ordinarySet.
  assert (Hstore : forall d,
    isSome (lookupProp k
      (o_props (if bool_decide (receiver = self)
                then ((SetDone (ordinaryDefineOwnProperty k' d o).1,
                       (ordinaryDefineOwnProperty k' d o).2) : setOutcome * obj)
                else match receiver with
                     | VObj _ => (SetOnReceiver receiver, o)
                     | _ => (SetDone false, o)
                     end).2))
    = isSome (lookupProp k (o_props o))).
  { intros d. case_bool_decide; simpl; [by apply define_presence|].
    by destruct receiver. }
  destruct (lookupProp k' (o_props o)) as [[v0 w e c|g s e c]|].
  - destruct w; [apply Hstore|done].
  - by destruct (isUndefined s).
  - destruct (isNull (o_proto o)); [apply Hstore|done].
Qed.

Lemma lookupProp_map k f ps :
  lookupProp k (map (fun kp : key * prop => (kp.1, f kp.2)) ps)
  = f <$> lookupProp k ps.
Proof.
  induction ps as [|[k' p] ps IH]; simpl; [done|].
  by case_bool_decide.
Qed.

Lemma keepsKey_defineProperty k sh k' d :
  k <> k' -> keepsKey k (Reflect.defineProperty sh k' d).
Proof.
  intros Hne. unfold Reflect.defineProperty.
  destruct (_ && _); [apply keepsKey_throwRed|].
  apply keepsKey_internalMethod. intros o. by apply define_presence.
Qed.

Lemma keepsKey_install k sh k' d :
  k <> k' -> keepsKey k (installDescriptorIntoShadowTarget sh k' d).
Proof.
  intros Hne. unfold installDescriptorIntoShadowTarget.
  apply keepsKey_bind; [apply keepsKey_quiet, quietOn_internalRead|].
  intros [cur|].
  - case_bool_decide.
    + apply keepsKey_bind; [by apply keepsKey_defineProperty|].
      intros _ st. apply keyKept_refl.
    + case_bool_decide; [|intros st; apply keyKept_refl].
      apply keepsKey_bind.
      * apply keepsKey_internalMethod. intros o. by apply set_presence.
      * intros [[]| | |]; try (intros st; apply keyKept_refl).
        apply keepsKey_throwRed.
  - apply keepsKey_bind; [by apply keepsKey_defineProperty|].
    intros _ st. apply keyKept_refl.
Qed.

Lemma keepsKey_copyRedOwnDescriptors stack sh ds n :
  keepsKey (KSym n) (copyRedOwnDescriptors stack sh ds).
Proof.
  unfold copyRedOwnDescriptors. apply keepsKey_forEach.
  intros [k' d] Hin. apply list_elem_of_In, list_elem_of_filter in Hin as [Hk _].
  simpl in Hk. apply keepsKey_bind.
  - apply keepsKey_quiet, quiet_getRedDescriptor.
  - intros d'. apply keepsKey_install. by destruct k'.
Qed.

Lemma keepsKey_integrity k f sh : keepsKey k (Object.setIntegrityLevel f sh).
Proof.
  unfold Object.setIntegrityLevel. apply keepsKey_bind.
  - apply keepsKey_internalMethod. intros o. simpl.
    rewrite lookupProp_map. by destruct (lookupProp k (o_props o)).
  - intros [|]; [intros st; apply keyKept_refl|apply keepsKey_throwRed].
Qed.

Lemma keepsKey_initializeBody stack sh meta n :
  keepsKey (KSym n) (initializeBody stack sh meta).
Proof.
  unfold initializeBody.
  apply keepsKey_bind; [apply keepsKey_quiet, quiet_getRedValueAt|]. intros p.
  apply keepsKey_bind.
  { unfold Reflect.setPrototypeOf. destruct (negb _); [apply keepsKey_throwRed|].
    apply keepsKey_bind; [intros st; apply keyKept_refl|]. intros h.
    apply keepsKey_internalMethod. intros o.
    case_bool_decide; [done|]. destruct (negb (o_ext o)); [done|].
    destruct sh; try done. by destruct (chainReaches _ _ _ _). }
  intros _. apply keepsKey_bind; [apply keepsKey_copyRedOwnDescriptors|].
  intros _. destruct (meta_isFrozen meta); [apply keepsKey_integrity|].
  destruct (meta_isSealed meta); [apply keepsKey_integrity|].
  destruct (negb _); [|intros st; apply keyKept_refl].
  apply keepsKey_bind; [|intros _ st; apply keyKept_refl].
  apply keepsKey_internalMethod. intros o. done.
Qed.

Lemma keepsKey_initialize stack w n : keepsKey (KSym n) (initialize stack w).
Proof.
  intros st. unfold initialize, bind, wrapperParts.
  destruct (heap st !! w) as [o|] eqn:Ho; [|apply (keepsKey_throwRed (KSym n))].
  destruct (o_class o) as [| | | | | |s h] eqn:Hc;
    try apply (keepsKey_throwRed (KSym n)).
  destruct h as [t meta [|]| |]; try apply keyKept_refl.
  unfold setHandler. rewrite Ho, Hc. simpl.
  eapply keyKept_trans; [|apply keepsKey_initializeBody].
  eapply keyKept_setObj; [exact Ho|done].
Qed.

(** X9.  A static proxy shows no symbol-keyed own property of its host.  The
    snapshot is copied with [for ... in], which visits string keys only:
    whatever descriptors the metadata hold, a symbol that the shadow
    target does not have before a trap runs the initialization is not
    there after it, and the trap for the own descriptor of that symbol
    answers [undefined] whenever it returns. *)
Theorem static_proxy_hides_symbols (stack : nat) (st : state) (w s : loc)
    (o os : obj) (t : value) (meta : TargetMeta) (b : bool) (n : string) :
  heap st !! w = Some o ->
  o_class o = ClsWrapper s (StaticHandler t meta b) ->
  heap st !! s = Some os ->
  o_class os = ClsPlain ->
  lookupProp (KSym n) (o_props os) = None ->
  let r := RedStaticProxyHandler_getOwnPropertyDescriptor stack w (KSym n) st in
  (forall d, r.1 <> Ret (Some d))
  /\ exists os', heap r.2 !! s = Some os'
       /\ lookupProp (KSym n) (o_props os') = None.
Proof.
  intros Ho Hc Hos Hcs Hnone r. subst r.
  unfold RedStaticProxyHandler_getOwnPropertyDescriptor.
  assert (Hsh : shadowOf w st = (Ret (VObj s), st)).
  { unfold shadowOf, bind, wrapperParts. by rewrite Ho, Hc. }
  rewrite (bind_Ret _ _ _ _ _ Hsh).
  pose proof (keepsKey_initialize stack w n st) as Hk.
  pose proof (respects_initialize stack w st) as Hev.
  destruct (initialize stack w st) as [[[]|e] st1] eqn:Hinit; simpl in Hk, Hev.
  - rewrite (bind_Ret _ _ _ _ _ Hinit).
    destruct (Hk s os Hos) as (os1 & Hos1 & Hp1).
    destruct (ev_cell _ _ Hev _ _ Hos) as (os2 & Hos2 & _ & _ & Hcls & _).
    assert (os2 = os1) as -> by congruence.
    rewrite Hcs in Hcls. simpl in Hcls. rewrite Hnone in Hp1. simpl in Hp1.
    destruct (lookupProp (KSym n) (o_props os1)) eqn:Hl1; [done|].
    unfold Reflect.getOwnPropertyDescriptor.
    rewrite (internalRead_ordinary st1 s os1 Hos1 Hcls). rewrite Hl1. simpl.
    split; [done|]. eauto.
  - rewrite (bind_Throw _ _ _ _ _ Hinit). simpl. split; [done|].
    destruct (Hk s os Hos) as (os1 & Hos1 & Hp1).
    exists os1. split; [done|]. rewrite Hnone in Hp1. simpl in Hp1.
    by destruct (lookupProp (KSym n) (o_props os1)).
Qed.

(** ** The name of a shadow function *)

Lemma applyDescriptor_fromProp cur p : applyDescriptor cur (fromProp p) = p.
Proof. by destruct cur, p. Qed.

(** X10.  [renameFunction] never raises, whatever the provider is (a revoked
    proxy, a proxy whose trap raises, no object at all), and it writes to
    no object but the receiver.  When the provider is an ordinary
    function with a [name] property and the receiver an ordinary one
    whose [name] is configurable (as that of a new function is), the
    receiver's [name] becomes the provider's, attributes included. *)
Theorem renameFunction_safe (blueProvider : value) (f : loc) (st : state) :
  (exists st',
     renameFunction blueProvider (VObj f) st = (Ret tt, st')
     /\ forall l o, l <> f -> heap st !! l = Some o ->
          exists o', heap st' !! l = Some o'
            /\ o_props o' = o_props o /\ o_ext o' = o_ext o
            /\ o_proto o' = o_proto o)
  /\ (forall b ob p orec cur,
        blueProvider = VObj b ->
        heap st !! b = Some ob -> o_class ob = ClsPlain ->
        lookupProp (KStr "name") (o_props ob) = Some p ->
        heap st !! f = Some orec -> o_class orec = ClsPlain ->
        lookupProp (KStr "name") (o_props orec) = Some cur ->
        propConfigurable cur = true ->
        renameFunction blueProvider (VObj f) st
        = (Ret tt, setObj f (withProp (KStr "name") p orec) st)).
Proof.
  split.
  - destruct (renameFunction_total blueProvider (VObj f) st) as [st' Hrun].
    exists st'. split; [done|]. intros l o Hl Ho.
    pose proof (quietOn_renameFunction (fun l => l <> f) blueProvider f
                  ltac:(tauto) st) as Hq.
    rewrite Hrun in Hq. destruct (Hq l o Hl Ho) as (o' & Ho' & Hs).
    exists o'. split; [done|]. exact Hs.
  - intros b ob p orec cur -> Hob Hcb Hp Hrec Hcr Hcur Hconf.
    unfold renameFunction, tryCatch, Reflect.getOwnPropertyDescriptor.
    rewrite (bind_Ret _ _ _ _ _ (internalRead_ordinary st b ob Hob Hcb _ _)).
    rewrite Hp. cbn [fmap option_fmap option_map].
    unfold Reflect.defineProperty.
    assert (Hmix : isAccessorDescriptor (fromProp p) && isDataDescriptor (fromProp p)
                   = false) by (by destruct p).
    rewrite Hmix.
    rewrite (bind_Ret _ _ _ _ _ (internalMethod_ordinary st f orec Hrec Hcr _ _ _)).
    unfold ordinaryDefineOwnProperty, validateAndApply, compatible.
    rewrite Hcur, Hconf, applyDescriptor_fromProp. done.
Qed.

(** ** The proxy is callable exactly if the host is *)

Lemma newFunction_cell (m : M value) st v st1 :
  m = newNormalFunction \/ m = newArrowFunction ->
  m st = (Ret v, st1) ->
  exists f o, v = VObj f /\ heap st1 !! f = Some o
    /\ o_class o = ClsPlain /\ o_fn o <> NotCallable.
Proof.
  intros [->| ->]; unfold newNormalFunction, newArrowFunction, bind, alloc, ret;
    simpl; intros [= <- <-]; eexists _, _; (split; [reflexivity|]); simpl.
  - split; [apply lookup_snoc_new|done].
  - split; [apply lookup_snoc_new|done].
Qed.

Lemma createRedShadowTarget_kind blue st sh st' :
  createRedShadowTarget blue st = (Ret sh, st') ->
  exists s os, sh = VObj s /\ heap st' !! s = Some os
    /\ o_class os = ClsPlain
    /\ bool_decide (o_fn os = NotCallable) = negb (isFunction st blue)
    /\ length (heap st) <= s.
Proof.
  unfold createRedShadowTarget, bind at 1, gets at 1.
  destruct (isFunction st blue).
  - intros H. apply bind_inv in H as (v & st1 & Hblock & H).
    apply bind_inv in H as ([] & st2 & Hrn & H). injection H as <- <-.
    assert (Hcell : exists f o, v = VObj f /\ heap st1 !! f = Some o
              /\ o_class o = ClsPlain /\ o_fn o <> NotCallable
              /\ length (heap st) <= f).
    { unfold tryCatch in Hblock.
      match type of Hblock with
      | context [match ?m st with _ => _ end] =>
          assert (Hresp : evolves st (m st).2);
          [|destruct (m st) as [[v0|e] s0] eqn:Htry]
      end.
      - apply respects_bind; [apply respects_gets|]. intros n.
        apply respects_bind; [apply respects_hasProperty|].
        intros [|]; [apply respects_newNormalFunction|apply respects_newArrowFunction].
      - injection Hblock as <- <-.
        apply bind_inv in Htry as (n & s1 & Hn & Htry). injection Hn as _ <-.
        apply bind_inv in Htry as (hp & s2 & Hhp & Htry).
        pose proof (respects_hasProperty n blue (KStr "prototype") st) as Hev.
        rewrite Hhp in Hev. simpl in Hev. pose proof (ev_len _ _ Hev) as Hlen.
        destruct hp.
        + destruct (newFunction_cell newNormalFunction s2 v0 s0 (or_introl eq_refl) Htry)
            as (f & o & -> & Ho & Hc & Hf).
          destruct (newFunction_fresh newNormalFunction s2 _ s0 (or_introl eq_refl) Htry)
            as (f' & [= <-] & Hfresh).
          exists f, o. repeat split; try done. lia.
        + destruct (newFunction_cell newArrowFunction s2 v0 s0 (or_intror eq_refl) Htry)
            as (f & o & -> & Ho & Hc & Hf).
          destruct (newFunction_fresh newArrowFunction s2 _ s0 (or_intror eq_refl) Htry)
            as (f' & [= <-] & Hfresh).
          exists f, o. repeat split; try done. lia.
      - simpl in Hresp. pose proof (ev_len _ _ Hresp) as Hlen.
        destruct (newFunction_cell newArrowFunction s0 v st1 (or_intror eq_refl) Hblock)
          as (f & o & -> & Ho & Hc & Hf).
        destruct (newFunction_fresh newArrowFunction s0 _ st1 (or_intror eq_refl) Hblock)
          as (f' & [= <-] & Hfresh).
        exists f, o. repeat split; try done. lia. }
    destruct Hcell as (f & o & -> & Ho & Hc & Hfn & Hfresh).
    pose proof (respects_renameFunction blue (VObj f) st1) as Hev.
    rewrite Hrn in Hev. simpl in Hev.
    destruct (ev_cell _ _ Hev _ _ Ho) as (o' & Ho' & Hfn' & _ & Hcls & _).
    rewrite Hc in Hcls. simpl in Hcls.
    exists f, o'. split; [done|]. split; [done|]. split; [done|].
    split; [|done]. simpl. apply bool_decide_eq_false_2. congruence.
  - unfold newObject, bind, alloc, ret. simpl. intros [= <- <-].
    eexists _, _. split; [reflexivity|]. split; [apply lookup_snoc_new|]. done.
Qed.

(** X11.  The proxy that [createRedProxy] returns for an allocated host object
    is a new object, and [typeof] gives ['function'] for it exactly if it
    does for the host (after the distortion substitution); this holds
    for the revoked proxy of a broken target as well. *)
Theorem proxy_callable_as_host (blue : value) (st st' : state) (p l : loc)
    (o : obj) :
  distorted st blue = VObj l ->
  heap st !! l = Some o ->
  createRedProxy blue st = (Ret (VObj p), st') ->
  length (heap st) <= p
  /\ typeOf st' (VObj p)
     = if bool_decide (typeOfObj o = TyFunction) then TyFunction else TyObject.
Proof.
  intros Hd Ho Hrun.
  destruct (createRedProxy_spec blue st) as [_ Hpost].
  rewrite Hrun in Hpost.
  destruct (Hpost _ eq_refl) as (p' & b & [= <-] & _ & Hfresh & _).
  split; [done|].
  unfold createRedProxy in Hrun.
  rewrite (bind_Ret _ _ _ _ _ (getDistortedValue_run blue st)), Hd in Hrun.
  apply bind_inv in Hrun as (meta & st1 & Hmeta & Hrun).
  pose proof (respects_getTargetMeta (VObj l) st) as Hev1.
  rewrite Hmeta in Hev1. simpl in Hev1.
  destruct (ev_cell _ _ Hev1 _ _ Ho) as (o1 & Ho1 & Hstep1).
  assert (Hfn1 : isFunction st1 (VObj l) = bool_decide (typeOfObj o = TyFunction)).
  { unfold isFunction. simpl. rewrite Ho1. by rewrite (typeOfObj_step _ _ Hstep1). }
  apply bind_inv in Hrun as (proxy & st2 & Hproxy & Hrun).
  apply bind_inv in Hrun as ([] & st3 & Hreg & Hrun). injection Hrun as -> <-.
  assert (Hheap3 : heap st3 = heap st2).
  { unfold tryCatch in Hreg.
    destruct (setRefMapEntries (VObj p) (VObj l) st2) as [[[]|e] s] eqn:Hset.
    - injection Hreg as <-.
      apply setRefMapEntries_Ret in Hset as (? & ? & _ & _ & _ & ->). done.
    - apply bind_inv in Hreg as (? & ? & _ & Hthrow). done. }
  assert (Hkind : exists op, heap st2 !! p = Some op
            /\ typeOfObj op
               = if isFunction st1 (VObj l) then TyFunction else TyObject).
  { assert (Hmk : forall h sa sb sh,
              createRedShadowTarget (VObj l) st1 = (Ret sh, sa) ->
              ProxyCreate sh h sa = (Ret (VObj p), sb) ->
              exists op, heap sb !! p = Some op
                /\ (exists s, o_class op = ClsWrapper s h)
                /\ bool_decide (o_fn op = NotCallable)
                   = negb (isFunction st1 (VObj l))).
    { intros h sa sb sh Hsh Hpc.
      apply createRedShadowTarget_kind in Hsh as (s & os & -> & Hos & _ & Hk & _).
      unfold ProxyCreate, bind, gets, alloc, ret in Hpc. rewrite Hos in Hpc.
      injection Hpc as <- <-. eexists. split; [apply lookup_snoc_new|].
      split; [simpl; eauto|exact Hk]. }
    assert (Hty : forall op c, o_class op = c ->
              match c with ClsRevoked | ClsWrapper _ _ => True | _ => False end ->
              bool_decide (o_fn op = NotCallable) = negb (isFunction st1 (VObj l)) ->
              typeOfObj op
              = if isFunction st1 (VObj l) then TyFunction else TyObject).
    { intros op c Hc Hcls Hk. unfold typeOfObj. rewrite Hc.
      destruct (isFunction st1 (VObj l)), (o_fn op), c; simpl in *; done. }
    destruct (meta_isBroken meta).
    - unfold getRevokedRedProxy in Hproxy.
      apply bind_inv in Hproxy as (sh & sa & Hsh & Hproxy).
      apply bind_inv in Hproxy as (pr & sb & Hpc & Hproxy).
      apply bind_inv in Hproxy as ([] & sc & Hset & Hproxy).
      apply bind_inv in Hproxy as ([] & sd & Hrev & Hproxy).
      injection Hproxy as -> <-.
      destruct (Hmk _ _ _ _ Hsh Hpc) as (op & Hop & _ & Hk).
      apply setRefMapEntries_Ret in Hset as (? & ? & _ & _ & _ & ->).
      unfold revoke in Hrev. simpl in Hrev. rewrite Hop in Hrev.
      injection Hrev as <-. eexists. split.
      + simpl. apply list_lookup_insert_eq. by eapply lookup_lt_Some.
      + by eapply (Hty _ ClsRevoked).
    - apply bind_inv in Hproxy as (sh & sa & Hsh & Hproxy).
      destruct (Hmk _ _ _ _ Hsh Hproxy) as (op & Hop & [s Hc] & Hk).
      exists op. split; [done|]. by eapply (Hty _ (ClsWrapper s _)). }
  destruct Hkind as (op & Hop & Hty). simpl. rewrite Hheap3, Hop, Hty, Hfn1. done.
Qed.

(** ** A registration that fails *)

(** X12.  When the registration call fails for a target that is not broken,
    [createRedProxy] raises a new red [Error] with the message
    "Internal Error" - an object that did not exist before, so not the
    failure of the broker - and the identity map has no new entry. *)
Theorem registration_failure_is_internal (blue e : value) (st st1 : state)
    (meta : TargetMeta) :
  regFailure st = Some e ->
  getTargetMeta (distorted st blue) st = (Ret meta, st1) ->
  meta_isBroken meta = false ->
  exists n st',
    createRedProxy blue st = (Throw (VObj n), st')
    /\ heap st' !! n = Some (errorObject Red "Error" (VStr "Internal Error"))
    /\ length (heap st) <= n
    /\ blueMap st' = blueMap st.
Proof.
  intros Hreg Hmeta Hok. unfold createRedProxy.
  rewrite (bind_Ret _ _ _ _ _ (getDistortedValue_run blue st)).
  set (d := distorted st blue) in *.
  rewrite (bind_Ret _ _ _ _ _ Hmeta), Hok.
  pose proof (respects_getTargetMeta d st) as Hev1.
  pose proof (brokerFixed_getTargetMeta d st) as Hb1.
  rewrite Hmeta in Hev1, Hb1. simpl in Hev1, Hb1.
  destruct (createRedShadowTarget_total d st1) as (s & st2 & Hsh).
  pose proof (respects_createRedShadowTarget d st1) as Hev2.
  pose proof (brokerFixed_createRedShadowTarget d st1) as Hb2.
  rewrite Hsh in Hev2, Hb2. simpl in Hev2, Hb2.
  destruct (ProxyCreate_run s
              (if hasOwnDescriptor LockerLiveValueMarkerSymbol (meta_descriptors meta)
               then DynamicHandler d else StaticHandler d meta false) st2)
    as [fn Hpc].
  set (st3 := setHeap (heap st2 ++ [_]) st2) in Hpc.
  assert (Hproxy : (shadowTarget <- createRedShadowTarget d ;;
                    ProxyCreate shadowTarget
                      (if hasOwnDescriptor LockerLiveValueMarkerSymbol
                            (meta_descriptors meta)
                       then DynamicHandler d else StaticHandler d meta false)) st1
                   = (Ret (VObj (length (heap st2))), st3)).
  { by rewrite (bind_Ret _ _ _ _ _ Hsh). }
  rewrite (bind_Ret _ _ _ _ _ Hproxy).
  assert (Hreg3 : regFailure st3 = Some e).
  { simpl. by rewrite (ev_reg _ _ Hev2), (ev_reg _ _ Hev1). }
  assert (Hset : setRefMapEntries (VObj (length (heap st2))) d st3 = (Throw e, st3)).
  { unfold setRefMapEntries. by rewrite Hreg3. }
  unfold bind at 1, tryCatch. rewrite Hset.
  unfold ErrorCreate, bind, alloc, throw, ret. simpl.
  eexists _, _. split; [reflexivity|]. simpl.
  split; [apply lookup_snoc_new|]. split.
  - rewrite !length_app. pose proof (ev_len _ _ Hev1). pose proof (ev_len _ _ Hev2).
    simpl. lia.
  - congruence.
Qed.

(** ** Defining a property through a proxy *)

(** X13.  The [defineProperty] trap of a dynamic proxy reports success whenever
    it returns: also when the host refused the definition, in which case
    nothing is written to the shadow target.  When the host accepted it,
    the descriptor is mirrored on the shadow target if, and only if, it
    asked for a non-configurable property. *)
Theorem dynamic_defineProperty_reports_success (stack : nat)
    (getBlueValue : value -> M value) (st : state) (w s : loc) (o : obj)
    (t : value) (k : key) (d : descriptor) :
  heap st !! w = Some o ->
  o_class o = ClsWrapper s (DynamicHandler t) ->
  let trap := RedDynamicProxyHandler_defineProperty stack getBlueValue w k d in
  (forall r st', trap st = (Ret r, st') -> r = true)
  /\ (forall blueDesc st1,
        getBluePartialDescriptor getBlueValue d st = (Ret blueDesc, st1) ->
        d_configurable blueDesc = d_configurable d
        /\ (forall st2, Reflect.defineProperty t k blueDesc st1 = (Ret false, st2) ->
              trap st = (Ret true, st2))
        /\ (forall st2, Reflect.defineProperty t k blueDesc st1 = (Ret true, st2) ->
              trap st
              = if bool_decide (d_configurable d = Some false)
                then (copyBlueDescriptorIntoShadowTarget stack (VObj s) t k ;;;
                      ret true) st2
                else (Ret true, st2))).
Proof.
  intros Ho Hc trap. subst trap.
  destruct (dynamic_parts _ _ _ _ _ Ho Hc) as [Hsh Htg].
  unfold RedDynamicProxyHandler_defineProperty.
  rewrite (bind_Ret _ _ _ _ _ Hsh), (bind_Ret _ _ _ _ _ Htg).
  split.
  - intros r st' H. apply bind_inv in H as (bd & s1 & _ & H).
    apply bind_inv in H as (ok & s2 & _ & H).
    apply bind_inv in H as ([] & s3 & _ & H). by injection H as <- _.
  - intros blueDesc st1 Hbd.
    assert (Hconf : d_configurable blueDesc = d_configurable d).
    { unfold getBluePartialDescriptor in Hbd.
      apply bind_inv in Hbd as (v & s1 & _ & Hbd).
      apply bind_inv in Hbd as (se & s2 & _ & Hbd).
      apply bind_inv in Hbd as (g & s3 & _ & Hbd). by injection Hbd as <- _. }
    split; [done|]. rewrite (bind_Ret _ _ _ _ _ Hbd). split.
    + intros st2 Hdef. by rewrite (bind_Ret _ _ _ _ _ Hdef).
    + intros st2 Hdef. rewrite (bind_Ret _ _ _ _ _ Hdef), Hconf. simpl.
      by case_bool_decide.
Qed.

Lemma setObj_same st l o : heap st !! l = Some o -> setObj l o st = st.
Proof.
  intros H. destruct st as [h bm rm dm rf]. unfold setObj, setHeap. simpl in *.
  by rewrite list_insert_id.
Qed.

(** X14.  The [defineProperty] trap of an initialized static proxy works on the
    shadow target alone and never answers [false]: where the definition
    is valid it is applied and the answer is [true]; where it is not (the
    shadow target is not extensible, or the property there is not
    configurable and the descriptor does not fit it), a red [TypeError]
    is raised. *)
Theorem static_defineProperty_outcome (stack : nat) (st : state) (w s : loc)
    (o os : obj) (t : value) (meta : TargetMeta) (k : key) (d : descriptor) :
  heap st !! w = Some o ->
  o_class o = ClsWrapper s (StaticHandler t meta true) ->
  heap st !! s = Some os ->
  o_class os = ClsPlain ->
  isAccessorDescriptor d && isDataDescriptor d = false ->
  RedStaticProxyHandler_defineProperty stack w k d st
  = match validateAndApply (o_ext os) d (lookupProp k (o_props os)) with
    | Some p => (Ret true, setObj s (withProp k p os) st)
    | None =>
        (Throw (VObj (length (heap st))),
         setHeap (heap st ++ [errorObject Red "TypeError" VUndefined]) st)
    end.
Proof.
  intros Ho Hc Hos Hcs Hmix. unfold RedStaticProxyHandler_defineProperty.
  assert (Hsh : shadowOf w st = (Ret (VObj s), st)).
  { unfold shadowOf, bind, wrapperParts. by rewrite Ho, Hc. }
  rewrite (bind_Ret _ _ _ _ _ Hsh).
  assert (Hinit : initialize stack w st = (Ret tt, st)).
  { apply initialize_noop. exists o, s, t, meta. done. }
  rewrite (bind_Ret _ _ _ _ _ Hinit).
  assert (Hdef : Reflect.defineProperty (VObj s) k d st
                 = (Ret (ordinaryDefineOwnProperty k d os).1,
                    setObj s (ordinaryDefineOwnProperty k d os).2 st)).
  { unfold Reflect.defineProperty. rewrite Hmix.
    apply (internalMethod_ordinary st s os Hos Hcs). }
  unfold Object.defineProperty, bind. rewrite Hdef.
  unfold ordinaryDefineOwnProperty.
  destruct (validateAndApply _ _ _) as [p|]; simpl.
  - reflexivity.
  - unfold throwRed, bind, alloc, throw. simpl.
    by rewrite (list_insert_id _ _ _ Hos).
Qed.

(** ** Arrays that contain themselves *)

Lemma arrayAt_evolves a es st st' :
  evolves st st' -> arrayAt a es st -> arrayAt a es st'.
Proof.
  intros Hev (oa & Ho & Hc & Hf & He).
  destruct (ev_cell _ _ Hev _ _ Ho) as (oa' & Ho' & Hf' & He' & Hc' & _).
  rewrite Hc in Hc'. simpl in Hc'. exists oa'. repeat split; congruence.
Qed.

Lemma mapM_raises (f : value -> M value) (a : loc) (es0 : list value) :
  (forall v, respects (f v)) ->
  (forall st, arrayAt a es0 st -> exists e st', f (VObj a) st = (Throw e, st')) ->
  forall es st, arrayAt a es0 st -> In (VObj a) es ->
    exists e st', mapM f es st = (Throw e, st').
Proof.
  intros Hresp Hf es. induction es as [|x es IH]; intros st Harr Hin; [done|].
  simpl. destruct Hin as [->|Hin].
  - destruct (Hf st Harr) as (e & st' & Hrun).
    rewrite (bind_Throw _ _ _ _ _ Hrun). eauto.
  - pose proof (Hresp x st) as Hev.
    destruct (f x st) as [[g|e] st1] eqn:Hx; simpl in Hev.
    + rewrite (bind_Ret _ _ _ _ _ Hx).
      destruct (IH st1 (arrayAt_evolves _ _ _ _ Hev Harr) Hin) as (e & st' & Hrun).
      rewrite (bind_Throw _ _ _ _ _ Hrun). eauto.
    + rewrite (bind_Throw _ _ _ _ _ Hx). eauto.
Qed.

Lemma cyclic_array_raises (a : loc) (es : list value) (n : nat) :
  In (VObj a) es ->
  forall st, arrayAt a es st ->
    exists e st', getRedValueAt n (VObj a) st = (Throw e, st').
Proof.
  intros Hin. induction n as [|n IH]; intros st Harr.
  - simpl. unfold throwRed, bind, alloc, throw. eauto.
  - destruct Harr as (oa & Ho & Hc & Hf & He).
    rewrite (getRedValueAt_array n a oa es st Ho Hc Hf He).
    destruct (mapM_raises (getRedValueAt n) a es (respects_getRedValueAt n) IH
                es st) as (e & st' & Hrun); [by exists oa|done|].
    rewrite (bind_Throw _ _ _ _ _ Hrun). eauto.
Qed.

(** X15.  An array that contains itself is never converted: however much room
    the stack has, the conversion raises (the recursion runs into the
    bound of the stack) and the caller gets no guest array. *)
Theorem cyclic_array_never_converts (stack : nat) (st : state) (a : loc)
    (es : list value) :
  arrayAt a es st ->
  In (VObj a) es ->
  exists e st', getRedValue stack (VObj a) st = (Throw e, st').
Proof.
  intros Harr Hin. unfold getRedValue. by eapply cyclic_array_raises.
Qed.

(** ** The lifecycle of a snapshot *)

Lemma extKept_refl st : extKept st st.
Proof. intros l o Ho. eauto. Qed.

Lemma extKept_trans st1 st2 st3 :
  extKept st1 st2 -> extKept st2 st3 -> extKept st1 st3.
Proof.
  intros H1 H2 l o Ho. destruct (H1 l o Ho) as (o2 & Ho2 & E2).
  destruct (H2 l o2 Ho2) as (o3 & Ho3 & E3). exists o3. split; [done|congruence].
Qed.

Lemma keepsExt_quiet {A} (m : M A) : quietOn anyCell m -> keepsExt m.
Proof.
  intros Hq st l o Ho. destruct (Hq st l o I Ho) as (o' & Ho' & _ & He & _).
  exists o'. done.
Qed.

Lemma keepsExt_bind {A B} (m : M A) (f : A -> M B) :
  keepsExt m -> (forall a, keepsExt (f a)) -> keepsExt (bind m f).
Proof.
  intros Hm Hf st. unfold bind. specialize (Hm st).
  destruct (m st) as [[a|e] st1]; simpl in *; [|done].
  eapply extKept_trans; [exact Hm|apply Hf].
Qed.

Lemma keepsExt_forEach {A} (f : A -> M unit) xs :
  (forall x, keepsExt (f x)) -> keepsExt (forEach f xs).
Proof.
  intros Hf. induction xs as [|x xs IH]; simpl.
  - intros st. apply extKept_refl.
  - apply keepsExt_bind; [apply Hf|]. intros _. apply IH.
Qed.

Lemma extKept_setObj st l o o' :
  heap st !! l = Some o -> o_ext o' = o_ext o -> extKept st (setObj l o' st).
Proof.
  intros Ho Hs l' o0 Ho0. simpl. destruct (decide (l = l')) as [->|Hne].
  - exists o'. rewrite list_lookup_insert_eq by (by eapply lookup_lt_Some).
    split; [done|]. by replace o0 with o by congruence.
  - exists o0. by rewrite list_lookup_insert_ne.
Qed.

Lemma keepsExt_throwRed {A} name msg : keepsExt (@throwRed A name msg).
Proof. apply keepsExt_quiet, quietOn_throwRed. Qed.

Lemma ext_countDown op o : o_ext (countDown op o) = o_ext o.
Proof.
  unfold countDown. destruct (o_class o); try done.
  destruct (trapLookup op traps) as [[e|[|n]|f]|]; done.
Qed.

Lemma keepsExt_internalMethod {A} op target (run : obj -> A * obj) refused :
  (forall o, o_ext (run o).2 = o_ext o) ->
  keepsExt (internalMethod op target run refused).
Proof.
  intros Hrun st. unfold internalMethod.
  destruct target as [| | | | | |l]; try apply keepsExt_throwRed.
  destruct (heap st !! l) as [o|] eqn:Ho; [|apply keepsExt_throwRed].
  assert (Hplain : extKept st (setObj l (run o).2 st))
    by (eapply extKept_setObj; [done|apply Hrun]).
  assert (Hcount : extKept st (setObj l (countDown op (run o).2) st)).
  { eapply extKept_setObj; [done|]. rewrite ext_countDown. apply Hrun. }
  destruct (o_class o); try apply keepsExt_throwRed;
    (destruct (trapOf o op) as [[e|n|fwd]|]; simpl;
     [apply extKept_refl
     |exact Hcount
     |destruct refused; simpl; [destruct fwd; [done|apply extKept_refl]|done]
     |destruct refused; simpl; done]).
Qed.

Lemma define_ext k d o : o_ext (ordinaryDefineOwnProperty k d o).2 = o_ext o.
Proof.
  unfold ordinaryDefineOwnProperty. by destruct (validateAndApply _ _ _).
Qed.

Lemma set_ext self k v receiver o :
  o_ext (ordinarySet self k v receiver o).2 = o_ext o.
Proof.
  unfold ordinarySet.
  assert (Hstore : forall d,
    o_ext (if bool_decide (receiver = self)
           then ((SetDone (ordinaryDefineOwnProperty k d o).1,
                  (ordinaryDefineOwnProperty k d o).2) : setOutcome * obj)
           else match receiver with
                | VObj _ => (SetOnReceiver receiver, o)
                | _ => (SetDone false, o)
                end).2
    = o_ext o).
  { intros d. case_bool_decide; simpl; [apply define_ext|]. by destruct receiver. }
  destruct (lookupProp k (o_props o)) as [[v0 w e c|g s e c]|].
  - destruct w; [apply Hstore|done].
  - by destruct (isUndefined s).
  - destruct (isNull (o_proto o)); [apply Hstore|done].
Qed.

Lemma keepsExt_defineProperty sh k d : keepsExt (Reflect.defineProperty sh k d).
Proof.
  unfold Reflect.defineProperty. destruct (_ && _); [apply keepsExt_throwRed|].
  apply keepsExt_internalMethod. intros o. apply define_ext.
Qed.

Lemma keepsExt_install sh k d : keepsExt (installDescriptorIntoShadowTarget sh k d).
Proof.
  unfold installDescriptorIntoShadowTarget.
  apply keepsExt_bind; [apply keepsExt_quiet, quietOn_internalRead|].
  intros [cur|].
  - case_bool_decide.
    + apply keepsExt_bind; [apply keepsExt_defineProperty|].
      intros _ st. apply extKept_refl.
    + case_bool_decide; [|intros st; apply extKept_refl].
      apply keepsExt_bind.
      * apply keepsExt_internalMethod. intros o. apply set_ext.
      * intros [[]| | |]; try (intros st; apply extKept_refl).
        apply keepsExt_throwRed.
  - apply keepsExt_bind; [apply keepsExt_defineProperty|].
    intros _ st. apply extKept_refl.
Qed.

Lemma keepsExt_copyRedOwnDescriptors stack sh ds :
  keepsExt (copyRedOwnDescriptors stack sh ds).
Proof.
  unfold copyRedOwnDescriptors. apply keepsExt_forEach. intros [k d].
  apply keepsExt_bind.
  - apply keepsExt_quiet, quiet_getRedDescriptor.
  - intros d'. apply keepsExt_install.
Qed.

Lemma keepsExt_setPrototypeOf sh p : keepsExt (Reflect.setPrototypeOf sh p).
Proof.
  unfold Reflect.setPrototypeOf. destruct (negb _); [apply keepsExt_throwRed|].
  apply keepsExt_bind; [intros st; apply extKept_refl|]. intros h.
  apply keepsExt_internalMethod. intros o.
  case_bool_decide; [done|]. destruct (negb (o_ext o)); [done|].
  destruct sh; try done. by destruct (chainReaches _ _ _ _).
Qed.

Lemma sealedObj_integrity f o :
  (forall p, propConfigurable (f p) = false) ->
  sealedObj (integrityObj f o) = true.
Proof.
  intros Hf. unfold sealedObj, integrityObj. simpl.
  apply forallb_forall. intros [k p] Hin. apply in_map_iff in Hin as ([k0 p0] & [= <- <-] & _).
  simpl. by rewrite Hf.
Qed.

Lemma frozenObj_freeze o : frozenObj (integrityObj freezeProp o) = true.
Proof.
  unfold frozenObj. rewrite sealedObj_integrity by (by intros []). simpl.
  apply forallb_forall. intros [k p] Hin. apply in_map_iff in Hin as ([k0 p0] & [= <- <-] & _).
  by destruct p0.
Qed.

(** X16.  The initialization of a static proxy applies the lifecycle recorded
    in the metadata to the shadow target.  When it returns, the shadow
    target is frozen if the metadata say frozen; else sealed if they say
    sealed; else, if they say extensible, as extensible as it was before
    (a shadow target is created extensible); and else no longer
    extensible. *)
Theorem static_snapshot_lifecycle (stack : nat) (st st' : state) (w s : loc)
    (o os : obj) (t : value) (meta : TargetMeta) :
  heap st !! w = Some o ->
  o_class o = ClsWrapper s (StaticHandler t meta false) ->
  heap st !! s = Some os ->
  o_class os = ClsPlain ->
  w <> s ->
  initialize stack w st = (Ret tt, st') ->
  exists os',
    heap st' !! s = Some os' /\
    if meta_isFrozen meta then frozenObj os' = true
    else if meta_isSealed meta then sealedObj os' = true
    else if meta_isExtensible meta then o_ext os' = o_ext os
    else o_ext os' = false.
Proof.
  intros Ho Hc Hos Hcs Hws Hrun.
  unfold initialize in Hrun.
  assert (Hparts : wrapperParts w st = (Ret (VObj s, StaticHandler t meta false), st)).
  { unfold wrapperParts. by rewrite Ho, Hc. }
  rewrite (bind_Ret _ _ _ _ _ Hparts) in Hrun.
  set (st0 := setObj w (setClass (ClsWrapper s (StaticHandler t meta true)) o) st).
  assert (Hset : setHandler w (StaticHandler t meta true) st = (Ret tt, st0)).
  { unfold setHandler. by rewrite Ho, Hc. }
  rewrite (bind_Ret _ _ _ _ _ Hset) in Hrun.
  assert (Hos0 : heap st0 !! s = Some os).
  { simpl. by rewrite list_lookup_insert_ne. }
  clearbody st0. unfold initializeBody in Hrun.
  apply bind_inv in Hrun as (p & s1 & H1 & Hrun).
  apply bind_inv in Hrun as (ok & s2 & H2 & Hrun).
  apply bind_inv in Hrun as ([] & s3 & H3 & Hrun).
  assert (Hshadow : exists os3, heap s3 !! s = Some os3 /\ o_class os3 = ClsPlain
                                /\ o_ext os3 = o_ext os).
  { pose proof (respects_getRedValueAt (S stack) (meta_proto meta) st0) as E1.
    pose proof (respects_setPrototypeOf (VObj s) p s1) as E2.
    pose proof (respects_copyRedOwnDescriptors stack (VObj s) (meta_descriptors meta) s2)
      as E3.
    pose proof (keepsExt_quiet _ (quiet_getRedValueAt (S stack) (meta_proto meta)) st0)
      as K1.
    pose proof (keepsExt_setPrototypeOf (VObj s) p s1) as K2.
    pose proof (keepsExt_copyRedOwnDescriptors stack (VObj s) (meta_descriptors meta) s2)
      as K3.
    unfold getRedValue in H1.
    rewrite H1 in E1, K1. rewrite H2 in E2, K2. rewrite H3 in E3, K3.
    simpl in *.
    pose proof (evolves_trans _ _ _ E1 (evolves_trans _ _ _ E2 E3)) as Hev.
    pose proof (extKept_trans _ _ _ K1 (extKept_trans _ _ _ K2 K3)) as Hk.
    destruct (Hk s os Hos0) as (os3 & Hos3 & Hext).
    destruct (ev_cell _ _ Hev _ _ Hos0) as (os3' & Hos3' & _ & _ & Hcls & _).
    assert (os3' = os3) as -> by congruence.
    rewrite Hcs in Hcls. simpl in Hcls. eauto. }
  destruct Hshadow as (os3 & Hos3 & Hcs3 & Hext3).
  assert (Hlt : s < length (heap s3)) by (by eapply lookup_lt_Some).
  assert (Hlevel : forall f, Object.setIntegrityLevel f (VObj s) s3 = (Ret tt, st') ->
            heap st' !! s = Some (integrityObj f os3)).
  { intros f Hf. unfold Object.setIntegrityLevel in Hf.
    rewrite (bind_Ret _ _ _ _ _ (internalMethod_ordinary s3 s os3 Hos3 Hcs3 _ _ _))
      in Hf.
    simpl in Hf. injection Hf as <-. simpl. by apply list_lookup_insert_eq. }
  destruct (meta_isFrozen meta).
  { eexists. split; [by apply (Hlevel freezeProp)|]. apply frozenObj_freeze. }
  destruct (meta_isSealed meta).
  { eexists. split; [by apply (Hlevel sealProp)|].
    apply sealedObj_integrity. by intros []. }
  destruct (meta_isExtensible meta); simpl in Hrun.
  - injection Hrun as <-. eauto.
  - apply bind_inv in Hrun as (b & s4 & Hpe & Hrun). injection Hrun as <-.
    unfold Reflect.preventExtensions in Hpe.
    rewrite (internalMethod_ordinary s3 s os3 Hos3 Hcs3) in Hpe.
    injection Hpe as _ <-. eexists. split; [simpl; by apply list_lookup_insert_eq|done].
Qed.

(** ** What a dynamic proxy reports as non-configurable *)

Lemma define_nonconfigurable k d o :
  d_configurable d = Some false ->
  o_ext o = true \/ is_Some (lookupProp k (o_props o)) ->
  exists q, lookupProp k (o_props (ordinaryDefineOwnProperty k d o).2) = Some q
            /\ propConfigurable q = false.
Proof.
  intros Hd Hroom. unfold ordinaryDefineOwnProperty, validateAndApply.
  destruct (lookupProp k (o_props o)) as [cur|] eqn:Hcur.
  - destruct (compatible cur d) eqn:Hcomp; simpl.
    + rewrite lookupProp_storeProp_eq. eexists. split; [done|].
      unfold applyDescriptor. rewrite Hd. simpl.
      destruct cur; [destruct (isAccessorDescriptor d)|destruct (isDataDescriptor d)];
        done.
    + exists cur. split; [done|]. unfold compatible in Hcomp.
      by destruct (propConfigurable cur).
  - destruct Hroom as [Hext|[? ?]]; [|done]. rewrite Hext. simpl.
    rewrite lookupProp_storeProp_eq. eexists. split; [done|].
    unfold newProp. rewrite Hd. by destruct (isAccessorDescriptor d).
Qed.

(** X17.  When the [getOwnPropertyDescriptor] trap of a dynamic proxy reports a
    non-configurable property of an ordinary host, the shadow target has
    that property too, and non-configurable - as the invariants of a
    proxy demand of its target.  (The shadow target must have room for
    it: it is extensible or has the key already.) *)
Theorem dynamic_descriptor_mirrored (stack : nat) (st : state) (w s b : loc)
    (o os ob : obj) (k : key) (p : prop) :
  heap st !! w = Some o ->
  o_class o = ClsWrapper s (DynamicHandler (VObj b)) ->
  s <> b ->
  healthy st ->
  heap st !! s = Some os -> o_class os = ClsPlain ->
  heap st !! b = Some ob -> o_class ob = ClsPlain ->
  lookupProp k (o_props ob) = Some p ->
  propConfigurable p = false ->
  propFits stack (heap st) p = true ->
  o_ext os = true \/ is_Some (lookupProp k (o_props os)) ->
  exists d st' os' q,
    RedDynamicProxyHandler_getOwnPropertyDescriptor stack w k st = (Ret (Some d), st')
    /\ d_configurable d = Some false
    /\ heap st' !! s = Some os'
    /\ lookupProp k (o_props os') = Some q
    /\ propConfigurable q = false.
Proof.
  intros Ho Hc Hsb Hh Hos Hcs Hob Hcb Hp Hconf Hfit Hroom.
  destruct (dynamic_parts _ _ _ _ _ Ho Hc) as [Hsh Htg].
  unfold RedDynamicProxyHandler_getOwnPropertyDescriptor.
  rewrite (bind_Ret _ _ _ _ _ Hsh), (bind_Ret _ _ _ _ _ Htg).
  assert (Hread : forall s0 ob0, heap s0 !! b = Some ob0 -> o_class ob0 = ClsPlain ->
            o_props ob0 = o_props ob ->
            Reflect.getOwnPropertyDescriptor (VObj b) k s0
            = (Ret (Some (fromProp p)), s0)).
  { intros s0 ob0 H0 Hc0 Hp0. unfold Reflect.getOwnPropertyDescriptor.
    rewrite (internalRead_ordinary s0 b ob0 H0 Hc0). by rewrite Hp0, Hp. }
  rewrite (bind_Ret _ _ _ _ _ (Hread st ob Hob Hcb eq_refl)).
  assert (Hcf : d_configurable (fromProp p) = Some false).
  { destruct p; simpl in *; by rewrite Hconf. }
  rewrite (bool_decide_eq_true_2 _ Hcf). cbv iota.
  (* the copy onto the shadow target *)
  destruct (getRedDescriptor_total stack p st Hh Hfit) as (rd & st1 & Hrd & Hun).
  pose proof (respects_getRedDescriptor stack (fromProp p) st) as Hev1.
  pose proof (quiet_getRedDescriptor stack (fromProp p) st) as Hq1.
  rewrite Hrd in Hev1, Hq1. simpl in Hev1, Hq1.
  pose proof (getRedDescriptor_configurable _ _ _ _ _ Hrd) as Hrdc.
  destruct (Hq1 _ _ I Hos) as (os1 & Hos1 & Hp1 & He1 & _).
  destruct (ev_cell _ _ Hev1 _ _ Hos) as (os1' & Hos1' & _ & _ & Hcl1 & _).
  assert (os1' = os1) as -> by congruence.
  rewrite Hcs in Hcl1. simpl in Hcl1.
  destruct (Hq1 _ _ I Hob) as (ob1 & Hob1 & Hpb1 & _).
  destruct (ev_cell _ _ Hev1 _ _ Hob) as (ob1' & Hob1' & _ & _ & Hclb & _).
  assert (ob1' = ob1) as -> by congruence.
  rewrite Hcb in Hclb. simpl in Hclb.
  set (os2 := (ordinaryDefineOwnProperty k rd os1).2).
  set (st2 := setObj s os2 st1).
  assert (Hdef : Reflect.defineProperty (VObj s) k rd st1
                 = (Ret (ordinaryDefineOwnProperty k rd os1).1, st2)).
  { unfold Reflect.defineProperty. unfold unmixed in Hun. rewrite Hun.
    apply (internalMethod_ordinary st1 s os1 Hos1 Hcl1). }
  assert (Hcopy : copyBlueDescriptorIntoShadowTarget stack (VObj s) (VObj b) k st
                  = (Ret tt, st2)).
  { unfold copyBlueDescriptorIntoShadowTarget.
    rewrite (bind_Ret _ _ _ _ _ (Hread st ob Hob Hcb eq_refl)).
    rewrite (bind_Ret _ _ _ _ _ Hrd). by rewrite (bind_Ret _ _ _ _ _ Hdef). }
  rewrite (bind_Ret _ _ _ _ _ Hcopy).
  assert (Hev2 : evolves st1 st2).
  { eapply evolves_setObj; [exact Hos1|].
    apply (plainUpdate_cellStep (ordinaryDefineOwnProperty k rd)), plainUpdate_define. }
  assert (Hos2 : heap st2 !! s = Some os2).
  { simpl. apply list_lookup_insert_eq. by eapply lookup_lt_Some. }
  destruct (define_nonconfigurable k rd os1) as (q & Hq & Hqc).
  { by rewrite Hrdc. }
  { rewrite He1, Hp1. exact Hroom. }
  (* the descriptor that is returned *)
  pose proof (evolves_trans _ _ _ Hev1 Hev2) as Hev.
  destruct (getRedDescriptor_total stack p st2 (healthy_evolves _ _ Hev Hh)
              (propFits_evolves _ _ _ _ Hev Hfit)) as (rd' & st3 & Hrd' & _).
  pose proof (quiet_getRedDescriptor stack (fromProp p) st2) as Hq3.
  rewrite Hrd' in Hq3. simpl in Hq3.
  destruct (Hq3 _ _ I Hos2) as (os3 & Hos3 & Hp3 & _).
  pose proof (getRedDescriptor_configurable _ _ _ _ _ Hrd') as Hrdc'.
  rewrite (bind_Ret _ _ _ _ _ Hrd'). unfold ret.
  exists rd', st3, os3, q. split; [done|]. split; [by rewrite Hrdc'|].
  split; [done|]. split; [by rewrite Hp3|done].
Qed.

(** ** Descriptors on their way to the host *)

(** X18.  [getBluePartialDescriptor] keeps a partial descriptor partial: a
    field that is absent stays absent, a field that is present stays
    present, and the attributes [writable], [enumerable] and
    [configurable] are handed on as they are - whatever the conversion
    to the host side does to the values. *)
Theorem getBluePartialDescriptor_shape (getBlueValue : value -> M value)
    (d bd : descriptor) (st st' : state) :
  getBluePartialDescriptor getBlueValue d st = (Ret bd, st') ->
  d_writable bd = d_writable d
  /\ d_enumerable bd = d_enumerable d
  /\ d_configurable bd = d_configurable d
  /\ isSome (d_value bd) = isSome (d_value d)
  /\ isSome (d_get bd) = isSome (d_get d)
  /\ isSome (d_set bd) = isSome (d_set d).
Proof.
  assert (Hfield : forall f r s s', convertField getBlueValue f s = (Ret r, s') ->
            isSome r = isSome f).
  { intros [v|] r s s' H; simpl in H.
    - apply bind_inv in H as (x & ? & _ & H). by injection H as <- _.
    - by injection H as <- _. }
  unfold getBluePartialDescriptor. intros H.
  apply bind_inv in H as (v & s1 & Hv & H).
  apply bind_inv in H as (se & s2 & Hs & H).
  apply bind_inv in H as (g & s3 & Hg & H). injection H as <- _. simpl.
  rewrite (Hfield _ _ _ _ Hv), (Hfield _ _ _ _ Hs), (Hfield _ _ _ _ Hg). done.
Qed.

(** ** A dynamic proxy is a live view *)

Lemma keysOf_removeProp k ps :
  NoDup (keysOf ps) ->
  ~ In k (keysOf (removeProp k ps))
  /\ forall k', k' <> k -> (In k' (keysOf (removeProp k ps)) <-> In k' (keysOf ps)).
Proof.
  induction ps as [|[k0 p0] ps IH]; simpl; intros Hnd; [split; [tauto|done]|].
  apply NoDup_cons in Hnd as [Hnotin Hnd].
  case_bool_decide as Hk.
  - subst k0. split.
    + intros Hin. apply Hnotin. by apply list_elem_of_In.
    + intros k' Hne. intuition congruence.
  - destruct (IH Hnd) as [H1 H2]. simpl. split.
    + intuition congruence.
    + intros k' Hne. rewrite (H2 k' Hne). tauto.
Qed.

(** X19.  Deleting through a dynamic proxy deletes on the host: a configurable
    property of an ordinary host is removed there, the trap answers
    [true], and the key is gone from the keys the proxy lists next,
    which are the host's; a non-configurable one stays, the answer is
    [false] and nothing changes; for a key the host does not have the
    answer is [true] and nothing changes. *)
Theorem dynamic_delete_is_live (st : state) (w s b : loc) (o ob : obj) (k : key) :
  heap st !! w = Some o ->
  o_class o = ClsWrapper s (DynamicHandler (VObj b)) ->
  heap st !! b = Some ob ->
  o_class ob = ClsPlain ->
  NoDup (keysOf (o_props ob)) ->
  match lookupProp k (o_props ob) with
  | Some p =>
      if propConfigurable p then
        let st1 := setObj b (setProps (removeProp k (o_props ob)) ob) st in
        RedDynamicProxyHandler_deleteProperty w k st = (Ret true, st1)
        /\ RedDynamicProxyHandler_ownKeys w st1
           = (Ret (keysOf (removeProp k (o_props ob))), st1)
        /\ ~ In k (keysOf (removeProp k (o_props ob)))
        /\ forall k', k' <> k ->
             (In k' (keysOf (removeProp k (o_props ob)))
              <-> In k' (keysOf (o_props ob)))
      else RedDynamicProxyHandler_deleteProperty w k st = (Ret false, st)
  | None => RedDynamicProxyHandler_deleteProperty w k st = (Ret true, st)
  end.
Proof.
  intros Ho Hc Hob Hcb Hnd.
  assert (Hwb : w <> b).
  { intros ->. rewrite Ho in Hob. injection Hob as ->. by rewrite Hc in Hcb. }
  destruct (dynamic_parts _ _ _ _ _ Ho Hc) as [_ Htg].
  assert (Hdel : RedDynamicProxyHandler_deleteProperty w k st
                 = (Ret (ordinaryDelete k ob).1, setObj b (ordinaryDelete k ob).2 st)).
  { unfold RedDynamicProxyHandler_deleteProperty.
    rewrite (bind_Ret _ _ _ _ _ Htg).
    apply (internalMethod_ordinary st b ob Hob Hcb). }
  rewrite Hdel. unfold ordinaryDelete.
  destruct (lookupProp k (o_props ob)) as [p|]; simpl;
    [destruct (propConfigurable p); simpl|];
    try (by rewrite (setObj_same _ _ _ Hob)).
  split; [done|].
  set (ob1 := setProps (removeProp k (o_props ob)) ob).
  set (st1 := setObj b ob1 st).
  assert (Hob1 : heap st1 !! b = Some ob1).
  { simpl. apply list_lookup_insert_eq. by eapply lookup_lt_Some. }
  assert (Ho1 : heap st1 !! w = Some o).
  { simpl. by rewrite list_lookup_insert_ne. }
  destruct (dynamic_parts _ _ _ _ _ Ho1 Hc) as [_ Htg1].
  split.
  - unfold RedDynamicProxyHandler_ownKeys. rewrite (bind_Ret _ _ _ _ _ Htg1).
    apply (internalRead_ordinary st1 b ob1 Hob1 Hcb).
  - by apply keysOf_removeProp.
Qed.

(** ** The kind of a shadow function *)

Lemma newFunction_kind (hp : bool) st s st1 :
  (if hp then newNormalFunction else newArrowFunction) st = (Ret (VObj s), st1) ->
  exists o, heap st1 !! s = Some o
    /\ o_fn o = if hp then NormalFunction else ArrowFunction.
Proof.
  destruct hp; unfold newNormalFunction, newArrowFunction, bind, alloc, ret;
    simpl; intros [= <- <-]; eexists; (split; [apply lookup_snoc_new|done]).
Qed.

Lemma shadowFunction_run b ob st hp :
  heap st !! b = Some ob -> o_class ob = ClsPlain ->
  o_fn ob <> NotCallable ->
  ordinaryHas (KStr "prototype") ob = HasDone hp ->
  createRedShadowTarget (VObj b) st
  = (f <- (if hp then newNormalFunction else newArrowFunction) ;;
     renameFunction (VObj b) f ;;; ret f) st.
Proof.
  intros Hob Hcb Hk Hhas.
  assert (Hfn : isFunction st (VObj b) = true).
  { unfold isFunction. simpl. rewrite Hob. unfold typeOfObj. rewrite Hcb.
    by destruct (o_fn ob). }
  unfold createRedShadowTarget, bind at 1, gets at 1. rewrite Hfn.
  assert (Hlen : exists n, length (heap st) = S n).
  { apply lookup_lt_Some in Hob. destruct (length (heap st)); [lia|eauto]. }
  destruct Hlen as [n Hlen].
  assert (Hhp : hasProperty (length (heap st)) (VObj b) (KStr "prototype") st
                = (Ret hp, st)).
  { rewrite Hlen. cbn [hasProperty]. unfold Reflect.has.
    rewrite (bind_Ret _ _ _ _ _ (internalRead_ordinary st b ob Hob Hcb _ _)).
    by rewrite Hhas. }
  unfold bind at 1, tryCatch, bind at 1, gets at 1, bind at 1. rewrite Hhp.
  unfold bind at 1.
  destruct hp; unfold newNormalFunction, newArrowFunction, bind, alloc, ret; done.
Qed.

(** X20.  The shadow target of an ordinary host function that has a
    [prototype] property of its own is a normal function; that of one
    that has none and no parent is an arrow function, which cannot
    construct; that of a value that is no function is a plain object.
    In each case the shadow target is a new, ordinary object. *)
Theorem shadow_kind_follows_host (st : state) (b : loc) (ob : obj) :
  heap st !! b = Some ob ->
  o_class ob = ClsPlain ->
  exists s st' os,
    createRedShadowTarget (VObj b) st = (Ret (VObj s), st')
    /\ length (heap st) <= s
    /\ heap st' !! s = Some os
    /\ o_class os = ClsPlain
    /\ (o_fn ob = NotCallable -> o_fn os = NotCallable)
    /\ (o_fn ob <> NotCallable ->
        is_Some (lookupProp (KStr "prototype") (o_props ob)) ->
        o_fn os = NormalFunction)
    /\ (o_fn ob <> NotCallable ->
        lookupProp (KStr "prototype") (o_props ob) = None ->
        o_proto ob = VNull ->
        o_fn os = ArrowFunction).
Proof.
  intros Hob Hcb.
  assert (Hfn : isFunction st (VObj b) = negb (bool_decide (o_fn ob = NotCallable))).
  { unfold isFunction. simpl. rewrite Hob. unfold typeOfObj. rewrite Hcb.
    by destruct (o_fn ob). }
  destruct (createRedShadowTarget_total (VObj b) st) as (s & st' & Hrun).
  destruct (createRedShadowTarget_kind _ _ _ _ Hrun)
    as (s' & os & [= <-] & Hos & Hcs & Hkind & Hfresh).
  exists s, st', os. split; [done|]. split; [done|]. split; [done|].
  split; [done|]. rewrite Hfn in Hkind. split; [|split].
  - intros Hk. rewrite Hk in Hkind. simpl in Hkind.
    by apply bool_decide_eq_true_1 in Hkind.
  - intros Hk Hproto.
    rewrite (shadowFunction_run b ob st true Hob Hcb Hk) in Hrun.
    + apply bind_inv in Hrun as (f & st1 & Hnew & Hrun).
      apply bind_inv in Hrun as ([] & st2 & Hrn & Hrun). injection Hrun as -> <-.
      destruct (newFunction_kind true st _ st1 Hnew) as (o1 & Ho1 & Hf1).
      pose proof (respects_renameFunction (VObj b) (VObj s) st1) as Hev.
      rewrite Hrn in Hev. simpl in Hev.
      destruct (ev_cell _ _ Hev _ _ Ho1) as (o' & Ho' & Hfn' & _).
      assert (o' = os) as -> by congruence. congruence.
    + unfold ordinaryHas. by destruct Hproto as [p ->].
  - intros Hk Hnone Hnull.
    rewrite (shadowFunction_run b ob st false Hob Hcb Hk) in Hrun.
    + apply bind_inv in Hrun as (f & st1 & Hnew & Hrun).
      apply bind_inv in Hrun as ([] & st2 & Hrn & Hrun). injection Hrun as -> <-.
      destruct (newFunction_kind false st _ st1 Hnew) as (o1 & Ho1 & Hf1).
      pose proof (respects_renameFunction (VObj b) (VObj s) st1) as Hev.
      rewrite Hrn in Hev. simpl in Hev.
      destruct (ev_cell _ _ Hev _ _ Ho1) as (o' & Ho' & Hfn' & _).
      assert (o' = os) as -> by congruence. congruence.
    + unfold ordinaryHas. by rewrite Hnone, Hnull.
Qed.

(** ** C3: a static proxy answers from its shadow target *)

Lemma mutateHost_lookup b o' st l :
  l <> b -> heap (mutateHost b o' st) !! l = heap st !! l.
Proof. intros H. simpl. by apply list_lookup_insert_ne. Qed.

Lemma newProp_fromProp p : newProp (fromProp p) = p.
Proof. by destruct p. Qed.

Lemma optEq_refl {A} `{EqDecision A} (x : A) : optEq (Some x) x = true.
Proof. simpl. by rewrite bool_decide_eq_true_2. Qed.

Lemma compatible_fromProp p : compatible p (fromProp p) = true.
Proof.
  unfold compatible. destruct (propConfigurable p) eqn:Hp; [done|].
  destruct p as [v w e c|g s e c]; simpl in *; subst c; simpl;
    repeat case_bool_decide; try done; destruct w; simpl; congruence.
Qed.

(** A new value for a writable data property is always compatible. *)
Lemma compatible_value v0 e c v :
  compatible (PData v0 true e c) (Descriptor (Some v) None None None None None)
  = true.
Proof. unfold compatible. simpl. by destruct c. Qed.

(** *** The checks of the engine on an ordinary target *)

Lemma ownProp_plain st s os k :
  heap st !! s = Some os -> o_class os = ClsPlain ->
  ownProp (VObj s) k st = (Ret (lookupProp k (o_props os)), st).
Proof.
  intros Hs Hcs. unfold ownProp.
  exact (internalRead_ordinary st s os Hs Hcs OpGetOwnProperty
           (fun o => lookupProp k (o_props o))).
Qed.

Lemma isExtensible_plain st s os :
  heap st !! s = Some os -> o_class os = ClsPlain ->
  Reflect.isExtensible (VObj s) st = (Ret (o_ext os), st).
Proof.
  intros Hs Hcs. unfold Reflect.isExtensible.
  exact (internalRead_ordinary st s os Hs Hcs OpIsExtensible o_ext).
Qed.

(** The descriptor of a property of the target passes the check of
    [getOwnPropertyDescriptor]. *)
Lemma checkGetOwnProperty_own st s os k p :
  heap st !! s = Some os -> o_class os = ClsPlain ->
  lookupProp k (o_props os) = Some p ->
  checkGetOwnProperty (VObj s) k (Some (fromProp p)) st
  = (Ret (Some (fromProp p)), st).
Proof.
  intros Hs Hcs Hl. unfold checkGetOwnProperty.
  rewrite (bind_Ret _ _ _ _ _ (ownProp_plain _ _ _ k Hs Hcs)), Hl.
  rewrite (bind_Ret _ _ _ _ _ (isExtensible_plain _ _ _ Hs Hcs)).
  assert (Hmix : isAccessorDescriptor (fromProp p) && isDataDescriptor (fromProp p)
                 = false) by (by destruct p).
  rewrite Hmix. cbv zeta. unfold completeDescriptor. rewrite newProp_fromProp.
  unfold validateAndApply. rewrite compatible_fromProp. simpl.
  destruct p as [v [|] e [|]|g s0 e [|]]; simpl; try done;
    rewrite ?bool_decide_eq_true_2 by done; simpl; try done.
Qed.

(** So does a new value for a writable data property of the target pass
    the check of [defineProperty]. *)
Lemma checkDefineProperty_value st s os k v0 e c v :
  heap st !! s = Some os -> o_class os = ClsPlain ->
  lookupProp k (o_props os) = Some (PData v0 true e c) ->
  checkDefineProperty (VObj s) k (Descriptor (Some v) None None None None None)
    true st
  = (Ret true, st).
Proof.
  intros Hs Hcs Hl. unfold checkDefineProperty. simpl.
  rewrite (bind_Ret _ _ _ _ _ (ownProp_plain _ _ _ k Hs Hcs)), Hl.
  rewrite (bind_Ret _ _ _ _ _ (isExtensible_plain _ _ _ Hs Hcs)).
  cbv zeta. unfold validateAndApply. rewrite compatible_value. simpl.
  by destruct c.
Qed.

(** *** The traps of an initialized static proxy

    Every trap of a static proxy whose initialization has run comes to
    the operation on the shadow target, an ordinary object. *)

Section StaticTraps.

Variable stack : nat.
Variable blueApplyHook : value -> value -> value -> M value.
Variable getBlueValue : value -> M value.
Variable blueGet : value -> key -> value -> M value.
Variable blueSet : value -> key -> value -> value -> M bool.
Variable blueHas : value -> key -> M bool.
Variable foreignConstruct : value -> list value -> M value.
Variable callFunction : value -> value -> list value -> M value.

Variables (st : state) (w s : loc) (o os : obj) (t : value) (meta : TargetMeta).
Hypothesis Hw : heap st !! w = Some o.
Hypothesis Hc : o_class o = ClsWrapper s (StaticHandler t meta true).
Hypothesis Hs : heap st !! s = Some os.
Hypothesis Hcs : o_class os = ClsPlain.

Lemma static_entry {A} (R : value -> M A) :
  (shadowTarget <- shadowOf w ;; initialize stack w ;;; R shadowTarget) st
  = R (VObj s) st.
Proof using Hw Hc.
  assert (Hparts : shadowOf w st = (Ret (VObj s), st)).
  { unfold shadowOf, bind, wrapperParts. by rewrite Hw, Hc. }
  assert (Hinit : initialize stack w st = (Ret tt, st)).
  { apply initialize_noop. exists o, s, t, meta. done. }
  rewrite (bind_Ret _ _ _ _ _ Hparts). by rewrite (bind_Ret _ _ _ _ _ Hinit).
Qed.

Lemma shadow_read {A} op (run : obj -> A) :
  internalRead op (VObj s) run st = (Ret (run os), st).
Proof using Hs Hcs. unfold internalRead, trapOf. by rewrite Hs, Hcs. Qed.

Lemma shadow_method {A} op (run : obj -> A * obj) refused :
  internalMethod op (VObj s) run refused st
  = (Ret (run os).1, setObj s (run os).2 st).
Proof using Hs Hcs.
  unfold internalMethod, trapOf. rewrite Hs, Hcs. by destruct refused.
Qed.

Lemma shadow_class : classOf (VObj s) st = (Ret (Some ClsPlain), st).
Proof using Hs Hcs. unfold classOf, gets. simpl. rewrite Hs. simpl. by rewrite Hcs. Qed.

Lemma wrapper_class :
  classOf (VObj w) st = (Ret (Some (ClsWrapper s (StaticHandler t meta true))), st).
Proof using Hw Hc. unfold classOf, gets. simpl. rewrite Hw. simpl. by rewrite Hc. Qed.

Lemma wrapper_not_shadow : w <> s.
Proof using Hw Hc Hs Hcs. intros ->. congruence. Qed.

Lemma static_ownKeys :
  RedStaticProxyHandler_ownKeys stack w st = (Ret (keysOf (o_props os)), st).
Proof using Hw Hc Hs Hcs.
  unfold RedStaticProxyHandler_ownKeys. rewrite (static_entry Reflect.ownKeys).
  apply shadow_read.
Qed.

Lemma static_isExtensible :
  RedStaticProxyHandler_isExtensible stack w st = (Ret (o_ext os), st).
Proof using Hw Hc Hs Hcs.
  unfold RedStaticProxyHandler_isExtensible.
  rewrite (static_entry Reflect.isExtensible). apply shadow_read.
Qed.

Lemma static_getPrototypeOf :
  RedStaticProxyHandler_getPrototypeOf stack w st = (Ret (o_proto os), st).
Proof using Hw Hc Hs Hcs.
  unfold RedStaticProxyHandler_getPrototypeOf.
  rewrite (static_entry Reflect.getPrototypeOf). apply shadow_read.
Qed.

Lemma static_getOwnPropertyDescriptor k :
  RedStaticProxyHandler_getOwnPropertyDescriptor stack w k st
  = (Ret (fromProp <$> lookupProp k (o_props os)), st).
Proof using Hw Hc Hs Hcs.
  unfold RedStaticProxyHandler_getOwnPropertyDescriptor.
  rewrite (static_entry (fun sh => Reflect.getOwnPropertyDescriptor sh k)).
  apply shadow_read.
Qed.

Lemma static_preventExtensions :
  RedStaticProxyHandler_preventExtensions stack w st
  = (Ret true, setObj s (setExt false os) st).
Proof using Hw Hc Hs Hcs.
  unfold RedStaticProxyHandler_preventExtensions.
  rewrite (static_entry Reflect.preventExtensions).
  apply (shadow_method OpPreventExtensions (fun o => (true, setExt false o))).
Qed.

Lemma static_deleteProperty k :
  RedStaticProxyHandler_deleteProperty stack w k st
  = (Ret (ordinaryDelete k os).1, setObj s (ordinaryDelete k os).2 st).
Proof using Hw Hc Hs Hcs.
  unfold RedStaticProxyHandler_deleteProperty.
  rewrite (static_entry (fun sh => Reflect.deleteProperty sh k)).
  apply shadow_method.
Qed.

Lemma static_setPrototypeOf p :
  RedStaticProxyHandler_setPrototypeOf stack w p st
  = if negb (isObjectOrNull p) then throwRed "TypeError" VUndefined st
    else
      let os' :=
        if bool_decide (o_proto os = p) then os
        else if negb (o_ext os) then os
        else if chainReaches (length (heap st)) (heap st) p s then os
        else setProto p os in
      (Ret (bool_decide (o_proto os' = p)), setObj s os' st).
Proof using Hw Hc Hs Hcs.
  unfold RedStaticProxyHandler_setPrototypeOf.
  rewrite (static_entry (fun sh => Reflect.setPrototypeOf sh p)).
  unfold Reflect.setPrototypeOf.
  destruct (negb (isObjectOrNull p)); [done|].
  unfold bind at 1, gets. rewrite shadow_method. cbv zeta.
  case_bool_decide as Hp; [by rewrite bool_decide_eq_true_2|].
  destruct (negb (o_ext os)); [by rewrite bool_decide_eq_false_2|].
  destruct (chainReaches _ _ _ _); [by rewrite bool_decide_eq_false_2|].
  simpl. by rewrite bool_decide_eq_true_2.
Qed.

Lemma static_defineProperty k d :
  isAccessorDescriptor d && isDataDescriptor d = false ->
  RedStaticProxyHandler_defineProperty stack w k d st
  = match validateAndApply (o_ext os) d (lookupProp k (o_props os)) with
    | Some p => (Ret true, setObj s (setProps (storeProp k p (o_props os)) os) st)
    | None => throwRed "TypeError" VUndefined st
    end.
Proof using Hw Hc Hs Hcs.
  intros Hd. unfold RedStaticProxyHandler_defineProperty.
  rewrite (static_entry (fun sh => Object.defineProperty sh k d ;;; ret true)).
  unfold Object.defineProperty, Reflect.defineProperty. rewrite Hd.
  unfold bind at 1, bind at 1. rewrite shadow_method.
  unfold ordinaryDefineOwnProperty.
  destruct (validateAndApply _ _ _) as [p|]; simpl; [done|].
  unfold throwRed, bind, alloc, throw. simpl.
  by rewrite (list_insert_id _ _ _ Hs).
Qed.

(** A read comes to the step on the shadow target: the value stored
    there, a call of the getter stored there, or the read at the parent
    stored there. *)
Lemma static_get k receiver :
  RedStaticProxyHandler_get stack blueApplyHook getBlueValue blueGet
    foreignConstruct callFunction w k receiver st
  = match ordinaryGet k receiver os with
    | GetValue v => (Ret v, st)
    | GetCall getter thisArg =>
        Call stack blueApplyHook getBlueValue blueGet foreignConstruct
          callFunction getter thisArg [] st
    | GetFromParent parent =>
        GetAt stack blueApplyHook getBlueValue blueGet foreignConstruct
          callFunction stack parent k receiver st
    end.
Proof using Hw Hc Hs Hcs.
  unfold RedStaticProxyHandler_get, RedStaticProxyHandler_getWith.
  rewrite (static_entry (fun sh => ReflectGet stack blueApplyHook getBlueValue
                                     blueGet foreignConstruct callFunction sh k
                                     receiver)).
  unfold ReflectGet. cbn [GetAt].
  rewrite (bind_Ret _ _ _ _ _ shadow_class).
  unfold Reflect.get.
  rewrite (bind_Ret _ _ _ _ _ (shadow_read OpGet (ordinaryGet k receiver))).
  by destruct (ordinaryGet k receiver os).
Qed.

Lemma static_has k :
  RedStaticProxyHandler_has stack blueHas w k st
  = match ordinaryHas k os with
    | HasDone b => (Ret b, st)
    | HasInParent parent => HasPropertyAt stack blueHas stack parent k st
    end.
Proof using Hw Hc Hs Hcs.
  unfold RedStaticProxyHandler_has, RedStaticProxyHandler_hasWith.
  rewrite (static_entry (fun sh => HasProperty stack blueHas sh k)).
  unfold HasProperty. cbn [HasPropertyAt].
  rewrite (bind_Ret _ _ _ _ _ shadow_class).
  unfold Reflect.has.
  rewrite (bind_Ret _ _ _ _ _ (shadow_read OpHas (ordinaryHas k))).
  by destruct (ordinaryHas k os).
Qed.

Lemma ordinarySet_cell self k v receiver o1 :
  (ordinarySet self k v receiver o1).2 = o1
  \/ exists ok, (ordinarySet self k v receiver o1).1 = SetDone ok.
Proof.
  unfold ordinarySet.
  destruct (lookupProp k (o_props o1)) as [[v0 [|] e c|g s0 e c]|];
    try (by left); try (destruct (isUndefined s0); by left).
  - case_bool_decide; [right; eauto|]. destruct receiver; simpl; eauto.
  - destruct (isNull (o_proto o1)); [|by left].
    case_bool_decide; [right; eauto|]. destruct receiver; simpl; eauto.
Qed.

Lemma static_set k v receiver :
  RedStaticProxyHandler_set stack blueApplyHook getBlueValue blueGet blueSet
    foreignConstruct callFunction w k v receiver st
  = match (ordinarySet (VObj s) k v receiver os).1 with
    | SetDone ok =>
        (Ret ok, setObj s (ordinarySet (VObj s) k v receiver os).2 st)
    | SetCall setter thisArg =>
        (Call stack blueApplyHook getBlueValue blueGet foreignConstruct
           callFunction setter thisArg [v] ;;; ret true) st
    | SetOnReceiver receiver' => setOnReceiver stack getBlueValue receiver' k v st
    | SetOnParent parent =>
        SetAt stack blueApplyHook getBlueValue blueGet blueSet foreignConstruct
          callFunction stack parent k v receiver st
    end.
Proof using Hw Hc Hs Hcs.
  unfold RedStaticProxyHandler_set, RedStaticProxyHandler_setWith.
  rewrite (static_entry (fun sh => ReflectSet stack blueApplyHook getBlueValue
                                     blueGet blueSet foreignConstruct
                                     callFunction sh k v receiver)).
  unfold ReflectSet. cbn [SetAt].
  rewrite (bind_Ret _ _ _ _ _ shadow_class).
  unfold Reflect.set.
  rewrite (bind_Ret _ _ _ _ _
             (shadow_method OpSet (ordinarySet (VObj s) k v receiver) None)).
  destruct (ordinarySet_cell (VObj s) k v receiver os) as [Hsame|[ok Hok]].
  - rewrite Hsame, (setObj_same _ _ _ Hs).
    by destruct (ordinarySet (VObj s) k v receiver os).1.
  - by rewrite Hok.
Qed.

(** An assignment through the proxy to a writable data property of the
    shadow target comes back to the proxy as the receiver, and its traps
    define the value on the shadow target. *)
Lemma static_write k v0 e c v :
  lookupProp k (o_props os) = Some (PData v0 true e c) ->
  RedStaticProxyHandler_set stack blueApplyHook getBlueValue blueGet blueSet
    foreignConstruct callFunction w k v (VObj w) st
  = (Ret true,
     setObj s (setProps (storeProp k (PData v true e c) (o_props os)) os) st).
Proof using Hw Hc Hs Hcs.
  intros Hl. rewrite static_set.
  pose proof wrapper_not_shadow as Hws.
  assert (Hstep : ordinarySet (VObj s) k v (VObj w) os = (SetOnReceiver (VObj w), os)).
  { unfold ordinarySet. rewrite Hl.
    rewrite bool_decide_eq_false_2 by (intros [=]; done). done. }
  rewrite Hstep. cbn [fst]. unfold setOnReceiver.
  assert (Hexisting : GetOwnProperty stack (VObj w) k st
                      = (Ret (Some (fromProp (PData v0 true e c))), st)).
  { unfold GetOwnProperty. rewrite (bind_Ret _ _ _ _ _ wrapper_class).
    rewrite (bind_Ret _ _ _ _ _ (static_getOwnPropertyDescriptor k)), Hl.
    by apply (checkGetOwnProperty_own st s os). }
  rewrite (bind_Ret _ _ _ _ _ Hexisting).
  change (isAccessorDescriptor (fromProp (PData v0 true e c))) with false.
  cbv iota. rewrite bool_decide_eq_false_2 by done.
  unfold DefineOwnProperty. rewrite (bind_Ret _ _ _ _ _ wrapper_class).
  set (d := Descriptor (Some v) None None None None None).
  set (os2 := setProps (storeProp k (PData v true e c) (o_props os)) os).
  assert (Hdefine : RedStaticProxyHandler_defineProperty stack w k d st
                    = (Ret true, setObj s os2 st)).
  { rewrite (static_defineProperty k d eq_refl), Hl.
    unfold validateAndApply. subst d. by rewrite compatible_value. }
  rewrite (bind_Ret _ _ _ _ _ Hdefine).
  apply (checkDefineProperty_value _ s os2 k v e c v).
  - simpl. apply list_lookup_insert_eq. by eapply lookup_lt_Some.
  - done.
  - subst os2. simpl. apply lookupProp_storeProp_eq.
Qed.

End StaticTraps.

(** *** The snapshot that the initialization installs *)

Lemma valueKept_refl k st : valueKept k st st.
Proof. intros l o Ho. eauto. Qed.

Lemma valueKept_trans k st1 st2 st3 :
  valueKept k st1 st2 -> valueKept k st2 st3 -> valueKept k st1 st3.
Proof.
  intros H1 H2 l o Ho. destruct (H1 l o Ho) as (o2 & Ho2 & E2).
  destruct (H2 l o2 Ho2) as (o3 & Ho3 & E3). exists o3. split; [done|congruence].
Qed.

Lemma keepsValue_quiet {A} k (m : M A) : quietOn anyCell m -> keepsValue k m.
Proof.
  intros Hq st l o Ho. destruct (Hq st l o I Ho) as (o' & Ho' & Hp & _).
  exists o'. unfold storedValue. by rewrite Hp.
Qed.

Lemma keepsValue_ret {A} k (a : A) : keepsValue k (ret a).
Proof. intros st. apply valueKept_refl. Qed.

Lemma keepsValue_bind {A B} k (m : M A) (f : A -> M B) :
  keepsValue k m -> (forall a, keepsValue k (f a)) -> keepsValue k (bind m f).
Proof.
  intros Hm Hf st. unfold bind. specialize (Hm st).
  destruct (m st) as [[a|e] st1]; simpl in *; [|done].
  eapply valueKept_trans; [exact Hm|apply Hf].
Qed.

Lemma keepsValue_forEach {A} k (f : A -> M unit) xs :
  (forall x, In x xs -> keepsValue k (f x)) -> keepsValue k (forEach f xs).
Proof.
  induction xs as [|x xs IH]; intros Hf; simpl.
  - apply keepsValue_ret.
  - apply keepsValue_bind; [apply Hf; by left|]. intros _. apply IH.
    intros y Hy. apply Hf. by right.
Qed.

Lemma valueKept_setObj k st l o o' :
  heap st !! l = Some o -> storedValue k o' = storedValue k o ->
  valueKept k st (setObj l o' st).
Proof.
  intros Ho Hs l' o0 Ho0. simpl. destruct (decide (l = l')) as [->|Hne].
  - exists o'. rewrite list_lookup_insert_eq by (by eapply lookup_lt_Some).
    split; [done|]. by replace o0 with o by congruence.
  - exists o0. by rewrite list_lookup_insert_ne.
Qed.

Lemma keepsValue_throwRed {A} k name msg : keepsValue k (@throwRed A name msg).
Proof. apply keepsValue_quiet, quietOn_throwRed. Qed.

Lemma keepsValue_internalMethod {A} k op target (run : obj -> A * obj) refused :
  (forall o, storedValue k (run o).2 = storedValue k o) ->
  keepsValue k (internalMethod op target run refused).
Proof.
  intros Hrun st. unfold internalMethod.
  destruct target as [| | | | | |l]; try apply (keepsValue_throwRed k).
  destruct (heap st !! l) as [o|] eqn:Ho; [|apply (keepsValue_throwRed k)].
  assert (Hplain : valueKept k st (setObj l (run o).2 st))
    by (eapply valueKept_setObj; [done|apply Hrun]).
  assert (Hcount : valueKept k st (setObj l (countDown op (run o).2) st)).
  { eapply valueKept_setObj; [done|]. unfold storedValue.
    rewrite props_countDown. apply Hrun. }
  destruct (o_class o); try apply (keepsValue_throwRed k);
    (destruct (trapOf o op) as [[e|n|fwd]|]; simpl;
     [apply valueKept_refl
     |exact Hcount
     |destruct refused; simpl; [destruct fwd; [done|apply valueKept_refl]|done]
     |destruct refused; simpl; done]).
Qed.

Lemma define_value k k' d o :
  k <> k' ->
  storedValue k (ordinaryDefineOwnProperty k' d o).2 = storedValue k o.
Proof.
  intros Hne. unfold storedValue, ordinaryDefineOwnProperty.
  destruct (validateAndApply _ _ _); simpl; [|done].
  by rewrite lookupProp_storeProp_ne.
Qed.

Lemma set_value k k' self v receiver o :
  k <> k' ->
  storedValue k (ordinarySet self k' v receiver o).2 = storedValue k o.
Proof.
  intros Hne.
  destruct (ordinarySet_cell self k' v receiver o) as [->|[ok Hok]]; [done|].
  revert Hok. unfold ordinarySet.
  assert (Hstore : forall d,
    storedValue k
      (if bool_decide (receiver = self)
       then ((SetDone (ordinaryDefineOwnProperty k' d o).1,
              (ordinaryDefineOwnProperty k' d o).2) : setOutcome * obj)
       else match receiver with
            | VObj _ => (SetOnReceiver receiver, o)
            | _ => (SetDone false, o)
            end).2
    = storedValue k o).
  { intros d. case_bool_decide; simpl; [by apply define_value|].
    by destruct receiver. }
  destruct (lookupProp k' (o_props o)) as [[v0 w e c|g s e c]|].
  - destruct w; [intros _; apply Hstore|done].
  - by destruct (isUndefined s).
  - destruct (isNull (o_proto o)); [intros _; apply Hstore|done].
Qed.

Lemma keepsValue_defineProperty k sh k' d :
  k <> k' -> keepsValue k (Reflect.defineProperty sh k' d).
Proof.
  intros Hne. unfold Reflect.defineProperty.
  destruct (_ && _); [apply keepsValue_throwRed|].
  apply keepsValue_internalMethod. intros o. by apply define_value.
Qed.

Lemma keepsValue_install k sh k' d :
  k <> k' -> keepsValue k (installDescriptorIntoShadowTarget sh k' d).
Proof.
  intros Hne. unfold installDescriptorIntoShadowTarget.
  apply keepsValue_bind; [apply keepsValue_quiet, quietOn_internalRead|].
  intros [cur|].
  - case_bool_decide.
    + apply keepsValue_bind; [by apply keepsValue_defineProperty|].
      intros _. apply keepsValue_ret.
    + case_bool_decide; [|apply keepsValue_ret].
      apply keepsValue_bind.
      * apply keepsValue_internalMethod. intros o. by apply set_value.
      * intros [[]| | |]; try apply keepsValue_ret. apply keepsValue_throwRed.
  - apply keepsValue_bind; [by apply keepsValue_defineProperty|].
    intros _. apply keepsValue_ret.
Qed.

Lemma keepsValue_integrity k f sh :
  (forall v w e c, exists w' c', f (PData v w e c) = PData v w' e c') ->
  (forall g s e c, exists c', f (PAccessor g s e c) = PAccessor g s e c') ->
  keepsValue k (Object.setIntegrityLevel f sh).
Proof.
  intros Hd Ha. unfold Object.setIntegrityLevel. apply keepsValue_bind.
  - apply keepsValue_internalMethod. intros o. unfold storedValue. simpl.
    rewrite lookupProp_map.
    destruct (lookupProp k (o_props o)) as [[v w e c|g s e c]|]; simpl; [| |done].
    + destruct (Hd v w e c) as (w' & c' & ->). done.
    + destruct (Ha g s e c) as (c' & ->). done.
  - intros [|]; [apply keepsValue_ret|apply keepsValue_throwRed].
Qed.

Lemma keepsValue_lifecycle k sh meta :
  keepsValue k
    (if meta_isFrozen meta then Object.freeze sh
     else if meta_isSealed meta then Object.seal sh
     else if negb (meta_isExtensible meta)
          then Reflect.preventExtensions sh ;;; ret tt
          else ret tt).
Proof.
  destruct (meta_isFrozen meta).
  { apply keepsValue_integrity; intros; simpl; eauto. }
  destruct (meta_isSealed meta).
  { apply keepsValue_integrity; intros; simpl; eauto. }
  destruct (negb _); [|apply keepsValue_ret].
  apply keepsValue_bind; [|intros _; apply keepsValue_ret].
  apply keepsValue_internalMethod. intros o. done.
Qed.

(** A descriptor that holds a primitive value crosses as it is. *)
Lemma getRedDescriptor_primitive stack v wr e c st :
  (forall l, v <> VObj l) ->
  getRedDescriptor stack (fromProp (PData v wr e c)) st
  = (Ret (fromProp (PData v wr e c)), st).
Proof.
  intros Hv. destruct v as [| |b|z|x|x|l]; try reflexivity.
  by destruct (Hv l).
Qed.

Lemma keepsKey_setPrototypeOf k sh p : keepsKey k (Reflect.setPrototypeOf sh p).
Proof.
  unfold Reflect.setPrototypeOf. destruct (negb _); [apply keepsKey_throwRed|].
  apply keepsKey_bind; [intros st; apply keyKept_refl|]. intros h.
  apply keepsKey_internalMethod. intros o.
  case_bool_decide; [done|]. destruct (negb (o_ext o)); [done|].
  destruct sh; try done. by destruct (chainReaches _ _ _ _).
Qed.

(** What keeps, for every cell, the class if it is an ordinary one, the
    extensibility and the absence of [k] keeps the shadow target fresh. *)
Lemma freshAt_kept k s st st' :
  evolves st st' -> keyKept k st st' -> extKept st st' ->
  freshAt k s st -> freshAt k s st'.
Proof.
  intros Hev Hk He (os & Hs & Hc & Hx & Hl).
  destruct (ev_cell _ _ Hev _ _ Hs) as (o1 & Ho1 & _ & _ & Hcls & _).
  destruct (Hk _ _ Hs) as (o2 & Ho2 & Hp).
  destruct (He _ _ Hs) as (o3 & Ho3 & Hext).
  assert (o2 = o1) as -> by congruence. assert (o3 = o1) as -> by congruence.
  exists o1. split; [done|]. rewrite Hc in Hcls. simpl in Hcls.
  split; [done|]. split; [congruence|].
  rewrite Hl in Hp. simpl in Hp. by destruct (lookupProp k (o_props o1)).
Qed.

Lemma install_fresh k s d st :
  freshAt k s st ->
  isAccessorDescriptor d && isDataDescriptor d = false ->
  exists os,
    heap st !! s = Some os /\
    installDescriptorIntoShadowTarget (VObj s) k d st
    = (Ret tt, setObj s (setProps (storeProp k (newProp d) (o_props os)) os) st).
Proof.
  intros (os & Hs & Hc & Hx & Hl) Hd. exists os. split; [done|].
  unfold installDescriptorIntoShadowTarget, Reflect.getOwnPropertyDescriptor.
  rewrite (bind_Ret _ _ _ _ _
             (internalRead_ordinary st s os Hs Hc OpGetOwnProperty
                (fun o => fromProp <$> lookupProp k (o_props o)))).
  rewrite Hl. simpl. unfold Reflect.defineProperty. rewrite Hd.
  rewrite (bind_Ret _ _ _ _ _
             (internalMethod_ordinary st s os Hs Hc OpDefineProperty
                (ordinaryDefineOwnProperty k d) (Some false))).
  unfold ordinaryDefineOwnProperty. rewrite Hl, Hx. done.
Qed.

Section Snapshot.

Variables (stack : nat) (s : loc) (k : key).
Variables (v : value) (wr e c : bool).
Hypothesis Hprim : forall l, v <> VObj l.

Let d := fromProp (PData v wr e c).
Let body := fun kd : key * descriptor =>
  originalDescriptor <- getRedDescriptor stack kd.2 ;;
  installDescriptorIntoShadowTarget (VObj s) kd.1 originalDescriptor.

Lemma body_other kd st :
  kd.1 <> k -> freshAt k s st -> freshAt k s (body kd st).2.
Proof using Type.
  intros Hne. apply freshAt_kept.
  - apply respects_bind; [apply respects_getRedDescriptor|].
    intros d'. apply respects_installDescriptor.
  - apply keepsKey_bind; [apply keepsKey_quiet, quiet_getRedDescriptor|].
    intros d'. apply keepsKey_install. congruence.
  - apply keepsExt_bind; [apply keepsExt_quiet, quiet_getRedDescriptor|].
    intros d'. apply keepsExt_install.
Qed.

Lemma body_other_value kd : kd.1 <> k -> keepsValue k (body kd).
Proof using Type.
  intros Hne. apply keepsValue_bind.
  - apply keepsValue_quiet, quiet_getRedDescriptor.
  - intros d'. apply keepsValue_install. congruence.
Qed.

Lemma body_installs st :
  freshAt k s st ->
  exists os', (body (k, d) st).1 = Ret tt
    /\ heap (body (k, d) st).2 !! s = Some os'
    /\ storedValue k os' = Some v.
Proof using Hprim.
  intros Hfresh.
  destruct (install_fresh k s d st Hfresh eq_refl) as (os & Hs & Hrun).
  assert (Hb : body (k, d) st
               = (Ret tt,
                  setObj s (setProps (storeProp k (newProp d) (o_props os)) os) st)).
  { unfold body. cbn [fst snd].
    rewrite (bind_Ret _ _ _ _ _
               (getRedDescriptor_primitive stack v wr e c st Hprim)).
    exact Hrun. }
  rewrite Hb. simpl. eexists. split; [done|].
  split; [apply list_lookup_insert_eq; by eapply lookup_lt_Some|].
  unfold storedValue. simpl. by rewrite lookupProp_storeProp_eq.
Qed.

Lemma forEach_installs fs : forall st st',
  NoDup (map fst fs) -> In (k, d) fs -> freshAt k s st ->
  forEach body fs st = (Ret tt, st') ->
  exists os', heap st' !! s = Some os' /\ storedValue k os' = Some v.
Proof using Hprim.
  induction fs as [|[k1 d1] fs IH]; intros st st' Hnd Hin Hfresh Hrun; [done|].
  simpl in Hnd. apply NoDup_cons in Hnd as [Hk1 Hnd].
  simpl in Hrun. apply bind_inv in Hrun as ([] & st1 & Hfirst & Hrest).
  destruct Hin as [[= -> ->]|Hin].
  - destruct (body_installs st Hfresh) as (os1 & _ & Hs1 & Hv1).
    rewrite Hfirst in Hs1. simpl in Hs1.
    assert (Hkeep : keepsValue k (forEach body fs)).
    { apply keepsValue_forEach. intros [k2 d2] Hin2. apply body_other_value.
      simpl. intros ->. apply Hk1. apply list_elem_of_In.
      apply (in_map fst) in Hin2. exact Hin2. }
    specialize (Hkeep st1). rewrite Hrest in Hkeep.
    destruct (Hkeep s os1 Hs1) as (os' & Hs' & Hv'). exists os'.
    split; [done|congruence].
  - assert (Hne : k1 <> k).
    { intros ->. apply Hk1. apply list_elem_of_In.
      apply (in_map fst) in Hin. exact Hin. }
    pose proof (body_other (k1, d1) st Hne Hfresh) as Hfresh1.
    rewrite Hfirst in Hfresh1. by apply (IH st1 st').
Qed.

End Snapshot.

Lemma NoDup_keys_filter {B} (P : key * B -> Prop) `{forall x, Decision (P x)}
    (ds : list (key * B)) :
  NoDup (map fst ds) -> NoDup (map fst (filter P ds)).
Proof.
  induction ds as [|[k d] ds IH]; intros Hnd; [done|].
  simpl in Hnd. apply NoDup_cons in Hnd as [Hk Hnd].
  rewrite filter_cons. destruct (decide (P (k, d))); [|by apply IH].
  simpl. apply NoDup_cons. split; [|by apply IH].
  intros Hin. apply Hk. apply list_elem_of_In in Hin. apply list_elem_of_In.
  apply in_map_iff in Hin as ([k' d'] & Hfst & Hin). simpl in Hfst. subst k'.
  apply list_elem_of_In, list_elem_of_filter in Hin as [_ Hin].
  apply list_elem_of_In in Hin. apply (in_map fst) in Hin. exact Hin.
Qed.

(** The initialization of a static proxy with a fresh shadow target
    installs every primitive value that the metadata hold under a string
    key. *)
Lemma initialize_installs stack st0 st w s o0 t meta n v wr e c :
  heap st0 !! w = Some o0 ->
  o_class o0 = ClsWrapper s (StaticHandler t meta false) ->
  freshAt (KStr n) s st0 ->
  NoDup (map fst (meta_descriptors meta)) ->
  In (KStr n, fromProp (PData v wr e c)) (meta_descriptors meta) ->
  (forall l, v <> VObj l) ->
  initialize stack w st0 = (Ret tt, st) ->
  exists os, heap st !! s = Some os /\ storedValue (KStr n) os = Some v.
Proof.
  intros Hw Hc Hfresh Hnd Hin Hprim Hrun.
  assert (Hws : w <> s).
  { intros ->. destruct Hfresh as (os & Hs & Hcs & _). congruence. }
  unfold initialize, bind at 1, wrapperParts in Hrun. rewrite Hw, Hc in Hrun.
  unfold bind at 1, setHandler in Hrun. rewrite Hw, Hc in Hrun.
  set (st0a := setObj w _ st0) in Hrun.
  assert (Hfresh0 : freshAt (KStr n) s st0a).
  { destruct Hfresh as (os & Hs & Hrest). exists os. split; [|done].
    subst st0a. simpl. by rewrite list_lookup_insert_ne. }
  clearbody st0a. unfold initializeBody in Hrun.
  apply bind_inv in Hrun as (p & st1 & Hproto & Hrun).
  apply bind_inv in Hrun as (ok & st2 & Hset & Hrun).
  apply bind_inv in Hrun as ([] & st3 & Hcopy & Hrun).
  assert (Hfresh1 : freshAt (KStr n) s st1).
  { pose proof (respects_getRedValue stack (meta_proto meta) st0a) as H1.
    pose proof (keepsKey_quiet (KStr n) _
                  (quiet_getRedValueAt (S stack) (meta_proto meta)) st0a) as H2.
    pose proof (keepsExt_quiet _
                  (quiet_getRedValueAt (S stack) (meta_proto meta)) st0a) as H3.
    unfold getRedValue in *. rewrite Hproto in H1, H2, H3.
    by apply (freshAt_kept _ _ st0a). }
  assert (Hfresh2 : freshAt (KStr n) s st2).
  { pose proof (respects_setPrototypeOf (VObj s) p st1) as H1.
    pose proof (keepsKey_setPrototypeOf (KStr n) (VObj s) p st1) as H2.
    pose proof (keepsExt_setPrototypeOf (VObj s) p st1) as H3.
    rewrite Hset in H1, H2, H3. by apply (freshAt_kept _ _ st1). }
  unfold copyRedOwnDescriptors in Hcopy.
  pose proof (NoDup_keys_filter (fun kd : key * descriptor => isStringKey kd.1 = true)
                (meta_descriptors meta) Hnd) as Hnd'.
  destruct (forEach_installs stack s (KStr n) v wr e c Hprim _ st2 st3 Hnd')
    as (os3 & Hs3 & Hv3); [|done|done|].
  { apply list_elem_of_In, list_elem_of_filter. split; [done|].
    by apply list_elem_of_In. }
  pose proof (keepsValue_lifecycle (KStr n) (VObj s) meta st3) as Hkeep.
  rewrite Hrun in Hkeep. destruct (Hkeep s os3 Hs3) as (os & Hs & Hv).
  exists os. split; [done|congruence].
Qed.

(** The cycle test of [setPrototypeOf] looks at parent links and at
    proxy-ness only. *)
Lemma chainReaches_mutate n h b o0 o' v l :
  h !! b = Some o0 ->
  o_proto o' = o_proto o0 -> o_class o' = o_class o0 ->
  chainReaches n (<[b := o']> h) v l = chainReaches n h v l.
Proof.
  intros Hb Hp Hc. revert v. induction n as [|n IH]; intros v; simpl; [done|].
  destruct v as [| | | | | |p]; try done.
  case_bool_decide; [done|].
  destruct (decide (p = b)) as [->|Hne].
  - rewrite list_lookup_insert_eq by (by eapply lookup_lt_Some).
    rewrite Hb, Hc, Hp. destruct (o_class o0); try done; apply IH.
  - rewrite list_lookup_insert_ne by done.
    destruct (h !! p) as [o|]; [|done].
    destruct (o_class o); try done; apply IH.
Qed.

(** C3 (as amended).  Let [w] be a static proxy whose initialization has
    run, with the ordinary shadow target [s] (the cell [os]), and let the
    cell of its host [b] be replaced by any other cell [o'] (any later
    mutation of the host value).  In the state so mutated:
    - the own keys, an own descriptor, the parent and the extensibility
      are read off [os]; preventing extensions, deleting and defining a
      property and setting the parent work on [os] and write to no other
      cell (the cycle test of the last walks the chain of the proposed
      parent, which the host cell does not change as long as it keeps
      its own parent and its proxy-ness);
    - a read of [k] is a step on [os]: it answers the value stored there
      under [k]; or, for an accessor, it calls the getter stored there
      (the guest wrapper of the host's getter); or it goes on at the
      parent stored there.  So are [has] and a write, and an assignment
      through the proxy to a writable data property of [os] stores the
      value in [os];
    - if the state is the one in which the initialization of [w], begun
      with a fresh shadow target, returned, then every primitive value
      that the metadata of [w] hold as a data property under a string
      key is what a read of that key through [w] reports. *)
Theorem static_isolation (stack : nat)
    (blueApplyHook : value -> value -> value -> M value)
    (getBlueValue : value -> M value)
    (blueGet : value -> key -> value -> M value)
    (blueSet : value -> key -> value -> value -> M bool)
    (blueHas : value -> key -> M bool)
    (foreignConstruct : value -> list value -> M value)
    (callFunction : value -> value -> list value -> M value)
    (st : state) (w s b : loc) (o os o' : obj) (meta : TargetMeta) :
  heap st !! w = Some o ->
  o_class o = ClsWrapper s (StaticHandler (VObj b) meta true) ->
  heap st !! s = Some os ->
  o_class os = ClsPlain ->
  b <> w -> b <> s ->
  let st' := mutateHost b o' st in
  let get := RedStaticProxyHandler_get stack blueApplyHook getBlueValue blueGet
               foreignConstruct callFunction w in
  let set := RedStaticProxyHandler_set stack blueApplyHook getBlueValue blueGet
               blueSet foreignConstruct callFunction w in
  let has := RedStaticProxyHandler_has stack blueHas w in
  RedStaticProxyHandler_ownKeys stack w st' = (Ret (keysOf (o_props os)), st')
  /\ (forall k,
        RedStaticProxyHandler_getOwnPropertyDescriptor stack w k st'
        = (Ret (fromProp <$> lookupProp k (o_props os)), st'))
  /\ RedStaticProxyHandler_getPrototypeOf stack w st' = (Ret (o_proto os), st')
  /\ RedStaticProxyHandler_isExtensible stack w st' = (Ret (o_ext os), st')
  /\ RedStaticProxyHandler_preventExtensions stack w st'
     = (Ret true, setObj s (setExt false os) st')
  /\ (forall k,
        RedStaticProxyHandler_deleteProperty stack w k st'
        = (Ret (ordinaryDelete k os).1, setObj s (ordinaryDelete k os).2 st'))
  /\ (forall k d, unmixed d ->
        RedStaticProxyHandler_defineProperty stack w k d st'
        = match validateAndApply (o_ext os) d (lookupProp k (o_props os)) with
          | Some p =>
              (Ret true, setObj s (setProps (storeProp k p (o_props os)) os) st')
          | None => throwRed "TypeError" VUndefined st'
          end)
  /\ (forall p,
        RedStaticProxyHandler_setPrototypeOf stack w p st'
        = if negb (isObjectOrNull p) then throwRed "TypeError" VUndefined st'
          else
            let os' :=
              if bool_decide (o_proto os = p) then os
              else if negb (o_ext os) then os
              else if chainReaches (length (heap st')) (heap st') p s then os
              else setProto p os in
            (Ret (bool_decide (o_proto os' = p)), setObj s os' st'))
  /\ (forall o0 p,
        heap st !! b = Some o0 ->
        o_proto o' = o_proto o0 -> o_class o' = o_class o0 ->
        chainReaches (length (heap st')) (heap st') p s
        = chainReaches (length (heap st)) (heap st) p s)
  /\ (forall k receiver,
        get k receiver st'
        = match ordinaryGet k receiver os with
          | GetValue v => (Ret v, st')
          | GetCall getter thisArg =>
              Call stack blueApplyHook getBlueValue blueGet foreignConstruct
                callFunction getter thisArg [] st'
          | GetFromParent parent =>
              GetAt stack blueApplyHook getBlueValue blueGet foreignConstruct
                callFunction stack parent k receiver st'
          end)
  /\ (forall k,
        has k st'
        = match ordinaryHas k os with
          | HasDone found => (Ret found, st')
          | HasInParent parent => HasPropertyAt stack blueHas stack parent k st'
          end)
  /\ (forall k v receiver,
        set k v receiver st'
        = match (ordinarySet (VObj s) k v receiver os).1 with
          | SetDone ok =>
              (Ret ok, setObj s (ordinarySet (VObj s) k v receiver os).2 st')
          | SetCall setter thisArg =>
              (Call stack blueApplyHook getBlueValue blueGet foreignConstruct
                 callFunction setter thisArg [v] ;;; ret true) st'
          | SetOnReceiver receiver' =>
              setOnReceiver stack getBlueValue receiver' k v st'
          | SetOnParent parent =>
              SetAt stack blueApplyHook getBlueValue blueGet blueSet
                foreignConstruct callFunction stack parent k v receiver st'
          end)
  /\ (forall k v0 e c v,
        lookupProp k (o_props os) = Some (PData v0 true e c) ->
        set k v (VObj w) st'
        = (Ret true,
           setObj s (setProps (storeProp k (PData v true e c) (o_props os)) os)
                  st'))
  /\ (forall st0 o0 n v wr e c receiver,
        heap st0 !! w = Some o0 ->
        o_class o0 = ClsWrapper s (StaticHandler (VObj b) meta false) ->
        freshAt (KStr n) s st0 ->
        NoDup (map fst (meta_descriptors meta)) ->
        In (KStr n, fromProp (PData v wr e c)) (meta_descriptors meta) ->
        (forall l, v <> VObj l) ->
        initialize stack w st0 = (Ret tt, st) ->
        get (KStr n) receiver st' = (Ret v, st')).
Proof.
  intros Hw Hc Hs Hcs Hbw Hbs st' get set has.
  assert (Hw' : heap st' !! w = Some o).
  { subst st'. rewrite mutateHost_lookup; [done|congruence]. }
  assert (Hs' : heap st' !! s = Some os).
  { subst st'. rewrite mutateHost_lookup; [done|congruence]. }
  assert (Hchain : forall o0 p,
            heap st !! b = Some o0 ->
            o_proto o' = o_proto o0 -> o_class o' = o_class o0 ->
            chainReaches (length (heap st')) (heap st') p s
            = chainReaches (length (heap st)) (heap st) p s).
  { intros o0 p Hb Hp Hcl. subst st'. simpl. rewrite length_insert.
    by apply (chainReaches_mutate _ _ _ o0). }
  clearbody st'.
  split; [by eapply static_ownKeys|].
  split; [intros k; by eapply static_getOwnPropertyDescriptor|].
  split; [by eapply static_getPrototypeOf|].
  split; [by eapply static_isExtensible|].
  split; [by eapply static_preventExtensions|].
  split; [intros k; by eapply static_deleteProperty|].
  split.
  { intros k d Hd.
    by rewrite (static_defineProperty stack st' w s o os (VObj b) meta
                  Hw' Hc Hs' Hcs k d Hd). }
  split; [intros p; by eapply static_setPrototypeOf|].
  split; [exact Hchain|].
  split; [intros k receiver; by eapply static_get|].
  split; [intros k; by eapply static_has|].
  split; [intros k v receiver; by eapply static_set|].
  split; [intros k v0 e c v Hl; by eapply static_write|].
  intros st0 o0 n v wr e c receiver H0 Hc0 Hfresh Hnd Hin Hprim Hinit.
  destruct (initialize_installs _ _ _ _ _ _ _ _ _ _ _ _ _ H0 Hc0 Hfresh Hnd Hin
              Hprim Hinit) as (os1 & Hs1 & Hv).
  assert (os1 = os) as -> by congruence.
  subst get.
  rewrite (static_get stack blueApplyHook getBlueValue blueGet foreignConstruct
             callFunction st' w s o os (VObj b) meta Hw' Hc Hs' Hcs).
  unfold ordinaryGet. unfold storedValue in Hv.
  destruct (lookupProp (KStr n) (o_props os)) as [[v1 w1 e1 c1|g1 s1 e1 c1]|];
    try done.
  by injection Hv as ->.
Qed.

(** C3 as stated does not hold: where the snapshot holds an accessor, a
    read calls the guest wrapper of the host's getter, and that runs on
    the live host.  The host object of [meterSandbox] answers [x] with
    its [y]: through the initialized static proxy [x] reads 1, and 2 once
    the host has set its [y] to 2. *)
Lemma static_read_observes_host_accessor :
  let read := RedStaticProxyHandler_get 0 readY ret quietGet quietConstruct
                quietCall 3 (KStr "x") (VObj 3) in
  initializedAt meterSandbox 3
  /\ (read meterSandbox).1 = Ret (VNum 1)
  /\ (read (mutateHost 0 (meterX 2) meterSandbox)).1 = Ret (VNum 2)
  /\ ~ unobservable read 0 meterSandbox.
Proof.
  intros read. split.
  { vm_compute. eexists _, _, _, _. split; reflexivity. }
  split; [vm_compute; reflexivity|]. split; [vm_compute; reflexivity|].
  intros H. specialize (H (meterX 2)). vm_compute in H. discriminate H.
Qed.

(** The scenario of the specification: the host sets [x] to 2 after the
    proxy has been initialized; the proxy still reports 1, and an
    assignment through the proxy leaves the host as it is. *)
Example static_isolation_scenario :
  (createRedProxy (VObj 0) (sandboxOf (hostX 1))).1 = Ret (VObj 2)
  /\ (Reflect.set (VObj 0) (KStr "x") (VNum 2) (VObj 0) wrappedX).2
     = mutateHost 0 (hostX 2) wrappedX
  /\ (RedStaticProxyHandler_get 0 quietHook ret quietGet quietConstruct quietCall
        2 (KStr "x") (VObj 2) (mutateHost 0 (hostX 2) wrappedX)).1
     = Ret (VNum 1)
  /\ heap (RedStaticProxyHandler_set 0 quietHook ret quietGet quietSet
             quietConstruct quietCall 2 (KStr "x") (VNum 3) (VObj 2) wrappedX).2
       !! 0
     = Some (hostX 1).
Proof. repeat split; vm_compute; reflexivity. Qed.

Lemma static_isolation_witness :
  let st' := mutateHost 0 (hostX 2) wrappedX in
  RedStaticProxyHandler_get 0 quietHook ret quietGet quietConstruct quietCall
    2 (KStr "x") (VObj 2) st'
  = (Ret (VNum 1), st').
Proof.
  pose proof (static_isolation 0 quietHook ret quietGet quietSet quietHas
                quietConstruct quietCall wrappedX 2 1 0 _ _ (hostX 2) _
                eq_refl eq_refl eq_refl eq_refl
                ltac:(discriminate) ltac:(discriminate)) as H.
  cbv zeta in H.
  destruct H as (_ & _ & _ & _ & _ & _ & _ & _ & _ & _ & _ & _ & _ & Hsnap).
  eapply (Hsnap (createRedProxy (VObj 0) (sandboxOf (hostX 1))).2 _
            "x" (VNum 1) true true true (VObj 2)).
  - vm_compute. reflexivity.
  - reflexivity.
  - eexists. repeat split; reflexivity.
  - apply NoDup_singleton.
  - left. reflexivity.
  - discriminate.
  - vm_compute. reflexivity.
Defined.

(** ** The properties at work on example states *)

Lemma unforgeables_linked_witness :
  exists st',
    Window.linkUnforgeables blueWindow redWindow twoWindows = (Ret tt, st')
    /\ getRedValue 0 (VObj 0) st' = (Ret (VObj 6), st').
Proof.
  destruct (unforgeables_linked 0 blueWindow redWindow twoWindows eq_refl)
    as (st' & Hrun & _ & Hall).
  - repeat constructor; simpl; eauto.
  - apply (bool_decide_unpack _). vm_compute. exact I.
  - exists st'. split; [exact Hrun|].
    destruct (Hall (VObj 0) (VObj 6)) as [_ Hconv]; [simpl; auto|].
    eapply (Hconv 0); [reflexivity|reflexivity|reflexivity|discriminate|discriminate].
Defined.

Lemma getTargetMeta_ordinary_witness :
  getTargetMeta (VObj 0) (sandboxOf frozenX)
  = (Ret (mkMeta VNull [(KStr "x", fromProp (PData (VNum 1) false true false))]
                 true true true false),
     sandboxOf frozenX).
Proof.
  apply (getTargetMeta_ordinary (sandboxOf frozenX) 0 frozenX eq_refl eq_refl).
  simpl. apply NoDup_singleton.
Defined.

Lemma getRedDescriptor_shape_witness :
  exists d' st',
    getRedDescriptor 0 (fromProp (PData (VNum 1) true true false))
      (sandboxOf (hostX 1)) = (Ret d', st')
    /\ d_configurable d' = Some false /\ isSome (d_value d') = true.
Proof.
  pose proof (getRedDescriptor_shape 0 (fromProp (PData (VNum 1) true true false))
                _ (sandboxOf (hostX 1)) _ eq_refl) as (_ & _ & Hc & Hv & _).
  eexists _, _. split; [reflexivity|]. split; [exact Hc|exact Hv].
Defined.

Lemma static_proxy_hides_symbols_witness :
  let r := RedStaticProxyHandler_getOwnPropertyDescriptor 0 2 (KSym "tag")
             taggedSandbox in
  (forall d, r.1 <> Ret (Some d))
  /\ exists os', heap r.2 !! 1 = Some os'
       /\ lookupProp (KSym "tag") (o_props os') = None.
Proof.
  exact (static_proxy_hides_symbols 0 taggedSandbox 2 1 _ _ (VObj 0) _ false "tag"
           eq_refl eq_refl eq_refl eq_refl eq_refl).
Defined.

Lemma proxy_callable_as_host_witness :
  typeOf (createRedProxy (VObj 1) widgetSandbox).2 (VObj 4) = TyFunction.
Proof.
  exact (proj2 (proxy_callable_as_host (VObj 1) widgetSandbox _ 4 1 _
                  eq_refl eq_refl eq_refl)).
Defined.

Lemma registration_failure_is_internal_witness :
  exists n st',
    createRedProxy (VObj 0) refusingBroker = (Throw (VObj n), st')
    /\ heap st' !! n = Some (errorObject Red "Error" (VStr "Internal Error"))
    /\ length (heap refusingBroker) <= n
    /\ blueMap st' = blueMap refusingBroker.
Proof.
  exact (registration_failure_is_internal (VObj 0) (VStr "refused") refusingBroker
           _ _ eq_refl eq_refl eq_refl).
Defined.

Lemma dynamic_defineProperty_reports_success_witness :
  RedDynamicProxyHandler_defineProperty 0 ret 2 (KStr "y")
    (fromProp (PData (VNum 2) true true true)) liveSandbox
  = (Ret true, setObj 0 liveX liveSandbox).
Proof.
  destruct (dynamic_defineProperty_reports_success 0 ret liveSandbox 2 1 _ (VObj 0)
              (KStr "y") (fromProp (PData (VNum 2) true true true))
              eq_refl eq_refl) as [_ H].
  destruct (H _ _ eq_refl) as (_ & Hrefused & _).
  exact (Hrefused _ eq_refl).
Defined.

Lemma static_defineProperty_outcome_witness :
  (RedStaticProxyHandler_defineProperty 0 2 (KStr "y")
     (fromProp (PData (VNum 2) true true true)) wrappedX).1 = Ret true.
Proof.
  rewrite (static_defineProperty_outcome 0 wrappedX 2 1 _ _ (VObj 0) _ (KStr "y")
             (fromProp (PData (VNum 2) true true true))
             eq_refl eq_refl eq_refl eq_refl eq_refl).
  reflexivity.
Defined.

Lemma cyclic_array_never_converts_witness :
  exists e st', getRedValue 3 (VObj 0) selfArray = (Throw e, st').
Proof.
  apply (cyclic_array_never_converts 3 selfArray 0 [VNum 1; VObj 0]).
  - eexists. repeat split; reflexivity.
  - simpl. auto.
Defined.

Lemma static_snapshot_lifecycle_witness :
  exists os', heap (initialize 0 2 frozenSandbox).2 !! 1 = Some os'
              /\ frozenObj os' = true.
Proof.
  exact (static_snapshot_lifecycle 0 frozenSandbox _ 2 1 _ _ (VObj 0) _
           eq_refl eq_refl eq_refl eq_refl ltac:(discriminate) eq_refl).
Defined.

Lemma dynamic_descriptor_mirrored_witness :
  exists d st' os' q,
    RedDynamicProxyHandler_getOwnPropertyDescriptor 0 2 (KStr "x") pinnedSandbox
    = (Ret (Some d), st')
    /\ d_configurable d = Some false
    /\ heap st' !! 1 = Some os'
    /\ lookupProp (KStr "x") (o_props os') = Some q
    /\ propConfigurable q = false.
Proof.
  eapply (dynamic_descriptor_mirrored 0 pinnedSandbox 2 1 0 _ _ pinnedX (KStr "x")
            (PData (VNum 1) true true false)).
  - reflexivity.
  - reflexivity.
  - discriminate.
  - split; [reflexivity|]. intros l v Hl. discriminate Hl.
  - reflexivity.
  - reflexivity.
  - reflexivity.
  - reflexivity.
  - reflexivity.
  - reflexivity.
  - reflexivity.
  - left. reflexivity.
Defined.

Lemma getBluePartialDescriptor_shape_witness :
  exists bd st',
    getBluePartialDescriptor ret
      (Descriptor (Some (VNum 1)) None None None None (Some false))
      (sandboxOf (hostX 1)) = (Ret bd, st')
    /\ d_configurable bd = Some false /\ isSome (d_get bd) = false.
Proof.
  pose proof (getBluePartialDescriptor_shape ret
                (Descriptor (Some (VNum 1)) None None None None (Some false))
                _ (sandboxOf (hostX 1)) _ eq_refl) as (_ & _ & Hc & _ & Hg & _).
  eexists _, _. split; [reflexivity|]. split; [exact Hc|exact Hg].
Defined.

Lemma dynamic_delete_is_live_witness :
  (RedDynamicProxyHandler_deleteProperty 2 (KStr "x") openSandbox).1 = Ret true.
Proof.
  assert (Hnd : NoDup (keysOf (o_props openX))).
  { apply (bool_decide_unpack _). vm_compute. exact I. }
  pose proof (dynamic_delete_is_live openSandbox 2 1 0 _ openX (KStr "x")
                eq_refl eq_refl eq_refl eq_refl Hnd) as H.
  change (lookupProp (KStr "x") (o_props openX))
    with (Some (PData (VNum 1) true true true)) in H.
  cbv iota in H. change (propConfigurable (PData (VNum 1) true true true)) with true in H.
  cbv iota zeta in H. destruct H as [H _]. rewrite H. reflexivity.
Defined.

Lemma shadow_kind_follows_host_witness :
  exists s st' os,
    createRedShadowTarget (VObj 1) widgetSandbox = (Ret (VObj s), st')
    /\ heap st' !! s = Some os /\ o_fn os = NormalFunction.
Proof.
  destruct (shadow_kind_follows_host widgetSandbox 1 _ eq_refl eq_refl)
    as (s & st' & os & Hrun & _ & Hos & _ & _ & Hnormal & _).
  exists s, st', os. split; [exact Hrun|]. split; [exact Hos|].
  apply Hnormal; [discriminate|]. eexists. reflexivity.
Defined.

Lemma renameFunction_safe_witness :
  let st := (newArrowFunction widgetSandbox).2 in
  exists orec,
    heap st !! 2 = Some orec
    /\ renameFunction (VObj 1) (VObj 2) st
       = (Ret tt,
          setObj 2 (withProp (KStr "name") (PData (VStr "Widget") false false true)
                             orec) st).
Proof.
  eexists. split; [reflexivity|].
  eapply (proj2 (renameFunction_safe (VObj 1) 2 (newArrowFunction widgetSandbox).2));
    reflexivity.
Defined.
